(** * Text2SpeechSkill: the job-orchestration logic of [text2speech_skill/cli.py]

    A shallow embedding of the client ([Text2SpeechClient]) and of the
    commands built on it ([cmd_speak], [cmd_design], [cmd_clone],
    [cmd_batch_speak], [cmd_batch_clone]), followed by the properties of the
    specification that concern them.

    Conventions of the embedding.
    - A Python [str] is a [string] holding its UTF-8 bytes; the files the
      batch commands read hold valid UTF-8.
    - The file system is made of regular files, each of which can be read,
      and of directories: those the program created and those that follow
      from a path lying below them. Paths are compared as they are written.
    - Directory arguments are taken in the form [pathlib.Path] prints them
      (no trailing slash), so that [Path(dir) / name] is [dir/name].
    - Wall-clock time ([time.time()], [time.sleep], the [timeout] and
      [poll_interval] arguments) is counted in integer milliseconds, so the
      defaults [1.0] and [300.0] read [1000] and [300000].
    - The remote service, the clock and the file system form a [World] that
      is threaded through every operation; every externally visible action
      is appended to the world's [trace].
    - [Outcome] distinguishes a normal return, a raised exception
      ([Exception] subclasses only), [sys.exit] and running out of fuel (the
      polling loop is the only place that consumes fuel). *)

From Stdlib Require Import ZArith NArith QArith List String Ascii Bool Lia.
From Stdlib Require Import DecimalString.
From Stdlib Require Import Sorted.
Import ListNotations.
Open Scope string_scope.
Open Scope Z_scope.

(** ** Python strings *)

Definition nl : string := String (ascii_of_nat 10) "".
Definition cr : string := String (ascii_of_nat 13) "".

Definition str_of_Z (z : Z) : string := NilZero.string_of_int (Z.to_int z).
Definition str_of_nat (n : nat) : string := NilZero.string_of_uint (Nat.to_uint n).

(** [s.startswith(p)] *)
Definition startswith (p s : string) : bool := String.prefix p s.

(** [s.endswith(p)] *)
Definition endswith (p s : string) : bool :=
  (String.length p <=? String.length s)%nat &&
  String.eqb (substring (String.length s - String.length p) (String.length p) s) p.

(** [s.rstrip(c)] for a one-character [c] *)
Fixpoint rstrip_char (c : ascii) (s : string) : string :=
  match s with
  | EmptyString => EmptyString
  | String a r =>
      let r' := rstrip_char c r in
      if String.eqb r' "" && Ascii.eqb a c then EmptyString else String a r'
  end.

(** [s] up to its first [/]. *)
Fixpoint upto_slash (s : string) : string :=
  match s with
  | EmptyString => EmptyString
  | String a r => if Ascii.eqb a "/" then EmptyString else String a (upto_slash r)
  end.

(** What reading in text mode makes of line endings: [\r\n] and a lone
    [\r] both read as [\n]. *)
Fixpoint newlines (l : list ascii) : list ascii :=
  match l with
  | [] => []
  | a :: r =>
      if Ascii.eqb a (ascii_of_nat 13) then
        match r with
        | b :: _ => if Ascii.eqb b (ascii_of_nat 10) then newlines r
                    else ascii_of_nat 10 :: newlines r
        | [] => [ascii_of_nat 10]
        end
      else a :: newlines r
  end.

Definition universal_newlines (s : string) : string :=
  string_of_list_ascii (newlines (list_ascii_of_string s)).

(** Bytes [10xxxxxx] continue a UTF-8 character. *)
Definition is_cont (a : ascii) : bool :=
  let c := nat_of_ascii a in (128 <=? c)%nat && (c <? 192)%nat.

(** [s[:n]]: the first [n] characters (code points) of [s]. *)
Fixpoint take_chars (n : nat) (s : string) : string :=
  match s with
  | EmptyString => EmptyString
  | String a r =>
      if is_cont a then String a (take_chars n r)
      else match n with
           | O => EmptyString
           | S n' => String a (take_chars n' r)
           end
  end.

(** The characters [str.isspace] accepts, by their UTF-8 encoding:
    U+0009..U+000D, U+001C..U+0020; U+0085, U+00A0; U+1680, U+2000..U+200A,
    U+2028, U+2029, U+202F, U+205F, U+3000. *)
Definition is_ws1 (c : nat) : bool :=
  ((9 <=? c) && (c <=? 13) || (28 <=? c) && (c <=? 32))%nat.
Definition is_ws2 (c d : nat) : bool :=
  ((c =? 194) && ((d =? 133) || (d =? 160)))%nat.
Definition is_ws3 (c d e : nat) : bool :=
  ((c =? 225) && (d =? 154) && (e =? 128)
   || (c =? 226) && (d =? 128)
      && ((128 <=? e) && (e <=? 138) || (e =? 168) || (e =? 169) || (e =? 175))
   || (c =? 226) && (d =? 129) && (e =? 159)
   || (c =? 227) && (d =? 128) && (e =? 128))%nat.

(** Width in bytes of the whitespace character at the head of [l], or 0. *)
Definition ws_width (l : list nat) : nat :=
  match l with
  | c :: rest =>
      if is_ws1 c then 1%nat
      else match rest with
           | d :: rest' =>
               if is_ws2 c d then 2%nat
               else match rest' with
                    | e :: _ => if is_ws3 c d e then 3%nat else 0%nat
                    | [] => 0%nat
                    end
           | [] => 0%nat
           end
  | [] => 0%nat
  end.

(** The same, reading the bytes from the end of the text backwards. *)
Definition ws_width_rev (l : list nat) : nat :=
  match l with
  | e :: rest =>
      if is_ws1 e then 1%nat
      else match rest with
           | d :: rest' =>
               if is_ws2 d e then 2%nat
               else match rest' with
                    | c :: _ => if is_ws3 c d e then 3%nat else 0%nat
                    | [] => 0%nat
                    end
           | [] => 0%nat
           end
  | [] => 0%nat
  end.

Fixpoint drop_ws (width : list nat -> nat) (fuel : nat) (l : list ascii) : list ascii :=
  match fuel with
  | O => l
  | S fuel' =>
      match width (map nat_of_ascii (firstn 3 l)) with
      | O => l
      | k => drop_ws width fuel' (skipn k l)
      end
  end.

(** [s.strip()] *)
Definition strip (s : string) : string :=
  let l := list_ascii_of_string s in
  let l1 := drop_ws ws_width (List.length l) l in
  let l2 := drop_ws ws_width_rev (List.length l1) (rev l1) in
  string_of_list_ascii (rev l2).

(** ** JSON values, as [resp.json()] yields them *)

(** Numbers are kept as exact rationals; Python's split into [int] and
    [float] and the rounding of the latter are not represented. A [JObj] is
    a [dict]: the first binding of a key is the one that counts. *)
#[local] Unset Elimination Schemes.
Inductive JVal : Type :=
| JNull
| JBool (b : bool)
| JNum (q : Q)
| JStr (s : string)
| JArr (xs : list JVal)
| JObj (kvs : list (string * JVal)).
#[local] Set Elimination Schemes.

(** Python truthiness: [bool(v)] *)
Definition truthy (v : JVal) : bool :=
  match v with
  | JNull => false
  | JBool b => b
  | JNum q => negb (Qeq_bool q 0)
  | JStr s => negb (String.eqb s "")
  | JArr xs => match xs with [] => false | _ => true end
  | JObj kvs => match kvs with [] => false | _ => true end
  end.

Fixpoint assoc {A : Type} (k : string) (kvs : list (string * A)) : option A :=
  match kvs with
  | [] => None
  | (k', v) :: rest => if String.eqb k k' then Some v else assoc k rest
  end.

(** [v == s] for a string literal [s] *)
Definition is_str (s : string) (v : JVal) : bool :=
  match v with JStr s' => String.eqb s' s | _ => false end.

(** [v in ["completed", "failed", "cancelled"]] *)
Definition in_terminal (v : JVal) : bool :=
  is_str "completed" v || is_str "failed" v || is_str "cancelled" v.

(** ** Exceptions *)

Inductive ExnClass : Type :=
| HTTPError | ConnectionError | JSONDecodeError
| KeyError | TypeError | AttributeError | ValueError
| TimeoutError | FileNotFoundError | IsADirectoryError | OSError.

(** [exn_msg e] is [str(e)]. *)
Record Exn : Type := mkExn { exn_class : ExnClass; exn_msg : string }.

(** ** The Python runtime

    Library behaviour the client relies on but does not define. The
    development is parametric in it. *)
Record Runtime : Type := {
  (** [repr(v)] *)
  py_repr : JVal -> string;
  (** [json.dumps(v, indent=2)] *)
  json_dumps : JVal -> string;
  (** text of the [TypeError] raised by [v[key]] when [v] is not a dict *)
  subscript_msg : JVal -> string;
  (** text of the [AttributeError] raised by [v.name] *)
  attribute_msg : JVal -> string -> string;
  (** [int(v * 100)] for a truthy [v] *)
  int_times_100 : JVal -> Exn + Z
}.

(** ** The world *)

Inductive Request : Type :=
| GET (url : string)
| POST_json (url : string) (body : JVal)
| POST_multipart (url : string) (files : list (string * string))
                 (data : list (string * string)).

(** What [requests] hands back: [resp.status_code], [resp.reason],
    [resp.url], [resp.json()] (or the text of the decoding error) and
    [resp.content]. *)
Record Response : Type := {
  status_code : Z;
  reason : string;
  resp_url : string;
  resp_json : string + JVal;
  content : string
}.

(** A call of [session.get] or [session.post] either fails without a
    response (a transport failure, or a URL the session refuses to send)
    or yields a response; either way it takes [latency] milliseconds. *)
Record Reply : Type := {
  latency : N;
  answer : string + Response
}.

Inductive Stream : Type := Stdout | Stderr.

Inductive Event : Type :=
| EvRequest (req : Request) (rep : Reply)
| EvSleep (ms : Z)
| EvCallback (status : JVal)
| EvPrint (to : Stream) (text : string)
| EvMkdir (path : string)
| EvOpen (path : string)
| EvWrite (path : string) (data : string).

Definition is_request (e : Event) : bool :=
  match e with EvRequest _ _ => true | _ => false end.

(** The part of a trace the remote service can have seen. *)
Definition on_wire (tr : list Event) : list Event := filter is_request tr.

Record World : Type := {
  (** what [time.time()] reads *)
  now : Z;
  (** the remote service: its reply may depend on the time of the request
      and on the exchanges that came before *)
  net : Z -> list Event -> Request -> Reply;
  (** the regular files that exist, by path, with their contents *)
  files : list (string * string);
  (** the directories that were created as such; a directory also exists
      wherever a file or a directory lies below it *)
  dirs : list string;
  (** [Some msg] when creating or writing [path] fails with [OSError(msg)],
      whatever the reason (no permission, something else in the way) *)
  write_error : string -> option string;
  (** everything done so far, oldest first *)
  trace : list Event
}.

Definition log (e : Event) (w : World) : World :=
  {| now := now w; net := net w; files := files w; dirs := dirs w;
     write_error := write_error w; trace := trace w ++ [e] |}.

Definition advance (ms : N) (w : World) : World :=
  {| now := now w + Z.of_N ms; net := net w; files := files w; dirs := dirs w;
     write_error := write_error w; trace := trace w |}.

Definition store (path data : string) (w : World) : World :=
  {| now := now w; net := net w;
     files := (path, data) :: filter (fun kv => negb (String.eqb (fst kv) path)) (files w);
     dirs := dirs w;
     write_error := write_error w; trace := trace w |}.

(** The world with the directory [path] in it. *)
Definition add_dir (path : string) (w : World) : World :=
  {| now := now w; net := net w; files := files w; dirs := path :: dirs w;
     write_error := write_error w; trace := trace w |}.

(** [path] is a directory: it was created as one, or something lies below
    it (which covers the parents [mkdir(parents=True)] creates). *)
Definition is_dir (w : World) (path : string) : bool :=
  existsb (fun d => String.eqb d path || startswith (path ++ "/") d) (dirs w)
  || existsb (fun kv => startswith (path ++ "/") (fst kv)) (files w).

(** ** Computations *)

Inductive Outcome (A : Type) : Type :=
| Val (a : A)
| Raise (e : Exn)
| Exit (code : Z)
| OutOfFuel.
Arguments Val {A} a.
Arguments Raise {A} e.
Arguments Exit {A} code.
Arguments OutOfFuel {A}.

Definition M (A : Type) : Type := World -> Outcome A * World.

Definition ret {A : Type} (a : A) : M A := fun w => (Val a, w).

Definition bind {A B : Type} (m : M A) (k : A -> M B) : M B :=
  fun w =>
    match m w with
    | (Val a, w') => k a w'
    | (Raise e, w') => (Raise e, w')
    | (Exit c, w') => (Exit c, w')
    | (OutOfFuel, w') => (OutOfFuel, w')
    end.

Notation "x <- m ;; k" := (bind m (fun x => k))
  (at level 61, m at next level, right associativity).
Notation "m ;;; k" := (bind m (fun _ => k))
  (at level 61, right associativity).

Definition raise {A : Type} (c : ExnClass) (msg : string) : M A :=
  fun w => (Raise (mkExn c msg), w).

Definition reraise {A : Type} (e : Exn) : M A := fun w => (Raise e, w).

(** [sys.exit(code)] *)
Definition sys_exit {A : Type} (code : Z) : M A := fun w => (Exit code, w).

(** [try: m  except Exception as e: h e] *)
Definition try_except {A : Type} (m : M A) (h : Exn -> M A) : M A :=
  fun w =>
    match m w with
    | (Raise e, w') => h e w'
    | r => r
    end.

Definition emit (e : Event) : M unit := fun w => (Val tt, log e w).

(** [print(text)] and [print(text, file=sys.stderr)] *)
Definition print (text : string) : M unit := emit (EvPrint Stdout (text ++ nl)).
Definition eprint (text : string) : M unit := emit (EvPrint Stderr (text ++ nl)).

(** [time.time()] *)
Definition time_time : M Z := fun w => (Val (now w), w).

(** [time.sleep(ms)] *)
Definition time_sleep (ms : Z) : M unit :=
  fun w =>
    if ms <? 0 then (Raise (mkExn ValueError "sleep length must be non-negative"), w)
    else (Val tt, log (EvSleep ms) (advance (Z.to_N ms) w)).

(** [os.path.exists(path)]: true of a file and of a directory *)
Definition path_exists (path : string) : M bool :=
  fun w =>
    (Val (match assoc path (files w) with Some _ => true | None => is_dir w path end), w).

(** [open(path, 'rb')], read in full; a directory cannot be opened. *)
Definition open_read (path : string) : M string :=
  fun w =>
    match assoc path (files w) with
    | Some data => (Val data, log (EvOpen path) w)
    | None =>
        if is_dir w path then
          (Raise (mkExn IsADirectoryError
                    ("[Errno 21] Is a directory: '" ++ path ++ "'")), w)
        else
          (Raise (mkExn FileNotFoundError
                    ("[Errno 2] No such file or directory: '" ++ path ++ "'")), w)
    end.

(** [Path(path).read_text(encoding='utf-8')]: the file is opened in text
    mode, so its line endings are translated. *)
Definition read_text (path : string) : M string :=
  raw <- open_read path ;;
  ret (universal_newlines raw).

(** [open(path, 'w')] and the write of [data]; in [download_audio] and
    [decode_tokens] preceded by
    [Path(path).parent.mkdir(parents=True, exist_ok=True)]. The file takes
    the place of any older one at [path]. *)
Definition write_file (path data : string) : M unit :=
  fun w =>
    match write_error w path with
    | Some msg => (Raise (mkExn OSError msg), w)
    | None => (Val tt, log (EvWrite path data) (store path data w))
    end.

(** [Path(path).mkdir(parents=True, exist_ok=True)] *)
Definition mkdir (path : string) : M unit :=
  fun w =>
    match write_error w path with
    | Some msg => (Raise (mkExn OSError msg), w)
    | None => (Val tt, log (EvMkdir path) (add_dir path w))
    end.

(** One call of [self.session.get] or [self.session.post]; [EvRequest]
    records the call and what came of it. *)
Definition http (req : Request) : M Response :=
  fun w =>
    let rep := net w (now w) (on_wire (trace w)) req in
    let w' := log (EvRequest req rep) (advance (latency rep) w) in
    match answer rep with
    | inl msg => (Raise (mkExn ConnectionError msg), w')
    | inr resp => (Val resp, w')
    end.

(** [resp.raise_for_status()] *)
Definition raise_for_status (resp : Response) : M unit :=
  let c := status_code resp in
  if (400 <=? c) && (c <? 500) then
    raise HTTPError (str_of_Z c ++ " Client Error: " ++ reason resp
                     ++ " for url: " ++ resp_url resp)
  else if (500 <=? c) && (c <? 600) then
    raise HTTPError (str_of_Z c ++ " Server Error: " ++ reason resp
                     ++ " for url: " ++ resp_url resp)
  else ret tt.

(** [resp.json()] *)
Definition json_of (resp : Response) : M JVal :=
  match resp_json resp with
  | inl msg => raise JSONDecodeError msg
  | inr v => ret v
  end.

(** ** The client: [class Text2SpeechClient] *)

Definition API_BASE : string := "https://mc.agaii.org/TTS/api/v1".
Definition LOCAL_API : string := "http://localhost:24536/api/v1".

Record Text2SpeechClient : Type := { base_url : string }.

(** [Text2SpeechClient.__init__] *)
Definition new_client (url : string) : Text2SpeechClient :=
  {| base_url := rstrip_char "/" url |}.

(** What a progress callback does when handed a status dict: what it
    prints, how long it takes, the dict as it leaves it (the caller holds
    the same object), and the exception it raises, if any. *)
Record CbEffect : Type := {
  cb_prints : list (Stream * string);
  cb_elapsed : N;
  cb_leaves : JVal;
  cb_raises : option Exn
}.

Definition Callback : Type := JVal -> CbEffect.

(** [progress_callback(status)]: yields the status object as the callback
    left it. *)
Definition call_callback (cb : Callback) (status : JVal) : M JVal :=
  fun w =>
    let eff := cb status in
    let w1 := log (EvCallback status) w in
    let w2 := fold_left (fun w' p => log (EvPrint (fst p) (snd p)) w') (cb_prints eff) w1 in
    let w3 := advance (cb_elapsed eff) w2 in
    match cb_raises eff with
    | Some e => (Raise e, w3)
    | None => (Val (cb_leaves eff), w3)
    end.

(** An [Optional[str]] argument under [if value:]: set and not empty. *)
Definition if_set (value : option string) : option string :=
  match value with
  | Some s => if String.eqb s "" then None else Some s
  | None => None
  end.

(** An optional entry of a JSON payload: [if value: payload[key] = value] *)
Definition opt_json (key : string) (value : option string) : list (string * JVal) :=
  match if_set value with
  | Some s => [(key, JStr s)]
  | None => []
  end.

(** The same for a form field. *)
Definition opt_form (key : string) (value : option string) : list (string * string) :=
  match if_set value with
  | Some s => [(key, s)]
  | None => []
  end.

(** The URL [download_audio] fetches for a given [audio_url]. *)
Definition resolve_audio_url (self : Text2SpeechClient) (audio_url : string) : string :=
  if startswith "/" audio_url then base_url self ++ audio_url
  else if negb (startswith "http" audio_url) then base_url self ++ "/" ++ audio_url
  else audio_url.

Section Client.

Variable rt : Runtime.

(** [str(v)], as an f-string renders a value *)
Definition py_str (v : JVal) : string :=
  match v with
  | JStr s => s
  | _ => py_repr rt v
  end.

(** [v[key]] *)
Definition subscript (v : JVal) (key : string) : M JVal :=
  match v with
  | JObj kvs =>
      match assoc key kvs with
      | Some x => ret x
      | None => raise KeyError ("'" ++ key ++ "'")
      end
  | _ => raise TypeError (subscript_msg rt v)
  end.

(** [v.get(key, default)] *)
Definition dict_get (v : JVal) (key : string) (default : JVal) : M JVal :=
  match v with
  | JObj kvs =>
      ret (match assoc key kvs with Some x => x | None => default end)
  | _ => raise AttributeError (attribute_msg rt v "get")
  end.

(** The tail shared by every submission: check the HTTP status and take
    [resp.json()["job_id"]]. *)
Definition job_id_of (resp : Response) : M JVal :=
  raise_for_status resp ;;;
  body <- json_of resp ;;
  subscript body "job_id".

Definition custom_voice (self : Text2SpeechClient) (text speaker language : string)
    (instruct : option string) : M JVal :=
  let payload :=
    JObj ([("text", JStr text); ("speaker", JStr speaker); ("language", JStr language)]
          ++ opt_json "instruct" instruct) in
  resp <- http (POST_json (base_url self ++ "/tts/custom-voice") payload) ;;
  job_id_of resp.

Definition voice_design (self : Text2SpeechClient) (text instruct language : string)
    : M JVal :=
  let payload :=
    JObj [("text", JStr text); ("instruct", JStr instruct); ("language", JStr language)] in
  resp <- http (POST_json (base_url self ++ "/tts/voice-design") payload) ;;
  job_id_of resp.

Definition voice_clone (self : Text2SpeechClient) (text audio_path language : string)
    (ref_text : option string) (x_vector_only : bool) (instruct : option string)
    : M JVal :=
  f <- open_read audio_path ;;
  let data :=
    ([("text", text); ("language", language);
      ("x_vector_only_mode", if x_vector_only then "true" else "false");
      ("consent_acknowledged", "true")]
     ++ opt_form "ref_text" ref_text ++ opt_form "instruct" instruct)%list in
  resp <- http (POST_multipart (base_url self ++ "/tts/voice-clone") [("audio", f)] data) ;;
  job_id_of resp.

Definition voice_clone_with_timbre (self : Text2SpeechClient)
    (text timbre_speaker language : string) (instruct : option string) : M JVal :=
  let payload :=
    JObj ([("text", JStr text); ("speaker", JStr timbre_speaker);
           ("language", JStr language); ("mode", JStr "clone")]
          ++ opt_json "instruct" instruct) in
  resp <- http (POST_json (base_url self ++ "/tts/custom-voice") payload) ;;
  job_id_of resp.

Definition voice_design_clone (self : Text2SpeechClient)
    (design_text design_instruct : string) (clone_texts : list string)
    (design_language clone_language : string) : M JVal :=
  let payload :=
    JObj [("design_text", JStr design_text); ("design_instruct", JStr design_instruct);
          ("clone_texts", JArr (map JStr clone_texts));
          ("design_language", JStr design_language);
          ("clone_language", JStr clone_language)] in
  resp <- http (POST_json (base_url self ++ "/tts/voice-design-clone") payload) ;;
  job_id_of resp.

Definition status_request (self : Text2SpeechClient) (job_id : JVal) : Request :=
  GET (base_url self ++ "/jobs/" ++ py_str job_id ++ "/status").

Definition get_job_status (self : Text2SpeechClient) (job_id : JVal) : M JVal :=
  resp <- http (status_request self job_id) ;;
  raise_for_status resp ;;;
  json_of resp.

Definition download_audio (self : Text2SpeechClient) (audio_url : JVal)
    (output_path : string) : M unit :=
  match audio_url with
  | JStr u =>
      resp <- http (GET (resolve_audio_url self u)) ;;
      raise_for_status resp ;;;
      write_file output_path (content resp)
  | v => raise AttributeError (attribute_msg rt v "startswith")
  end.

(** The [while] loop of [wait_for_completion]; [start] is the clock reading
    taken before it. One unit of fuel per evaluation of the loop test. *)
Fixpoint wait_loop (fuel : nat) (self : Text2SpeechClient) (start : Z) (job_id : JVal)
    (poll_interval timeout : Z) (progress_callback : option Callback) : M JVal :=
  match fuel with
  | O => fun w => (OutOfFuel, w)
  | S fuel' =>
      t <- time_time ;;
      if t - start <? timeout then
        status <- get_job_status self job_id ;;
        status <- match progress_callback with
                  | Some cb => call_callback cb status
                  | None => ret status
                  end ;;
        s <- subscript status "status" ;;
        if in_terminal s then ret status
        else
          time_sleep poll_interval ;;;
          wait_loop fuel' self start job_id poll_interval timeout progress_callback
      else raise TimeoutError ("Job " ++ py_str job_id ++ " timeout")
  end.

Definition wait_for_completion (fuel : nat) (self : Text2SpeechClient) (job_id : JVal)
    (poll_interval timeout : Z) (progress_callback : option Callback) : M JVal :=
  start <- time_time ;;
  wait_loop fuel self start job_id poll_interval timeout progress_callback.

(** The defaults of [wait_for_completion]: [poll_interval=1.0], [timeout=300.0]. *)
Definition default_poll_interval : Z := 1000.
Definition default_timeout : Z := 300000.

(** ** Single-job commands *)

(** The nested [show_progress] of [cmd_speak]. *)
Definition show_progress (status : JVal) : CbEffect :=
  match status with
  | JObj kvs =>
      let progress := match assoc "progress" kvs with Some p => p | None => JNum 0 end in
      if truthy progress then
        match int_times_100 rt progress with
        | inl e =>
            {| cb_prints := []; cb_elapsed := 0; cb_leaves := status; cb_raises := Some e |}
        | inr pct =>
            {| cb_prints := [(Stdout, "  Progress: " ++ str_of_Z pct ++ "%" ++ cr)];
               cb_elapsed := 0; cb_leaves := status; cb_raises := None |}
        end
      else {| cb_prints := []; cb_elapsed := 0; cb_leaves := status; cb_raises := None |}
  | v =>
      {| cb_prints := []; cb_elapsed := 0; cb_leaves := status;
         cb_raises := Some (mkExn AttributeError (attribute_msg rt v "get")) |}
  end.

(** [status["status"] == "completed" and status.get("audio_url")], as a
    condition *)
Definition has_audio (status : JVal) : M bool :=
  s <- subscript status "status" ;;
  if is_str "completed" s then
    a <- dict_get status "audio_url" JNull ;;
    ret (truthy a)
  else ret false.

Definition cmd_speak (fuel : nat) (text speaker output language : string)
    (instruct : option string) : M unit :=
  let client := new_client API_BASE in
  print ("Generating speech with speaker: " ++ speaker) ;;;
  print ("Text: " ++ take_chars 60 text ++ "...") ;;;
  job_id <- custom_voice client text speaker language instruct ;;
  print ("Job ID: " ++ py_str job_id) ;;;
  status <- wait_for_completion fuel client job_id default_poll_interval
              default_timeout (Some show_progress) ;;
  print "" ;;;
  ok <- has_audio status ;;
  if ok then
    url <- subscript status "audio_url" ;;
    download_audio client url output ;;;
    print ("✓ Saved: " ++ output)
  else
    error <- dict_get status "error" (JStr "Unknown") ;;
    eprint ("✗ Failed: " ++ py_str error) ;;;
    sys_exit 1.

Definition cmd_design (fuel : nat) (text description output language : string)
    : M unit :=
  let client := new_client API_BASE in
  print ("Designing voice: " ++ description) ;;;
  print ("Text: " ++ take_chars 60 text ++ "...") ;;;
  job_id <- voice_design client text description language ;;
  print ("Job ID: " ++ py_str job_id) ;;;
  status <- wait_for_completion fuel client job_id default_poll_interval
              default_timeout None ;;
  ok <- has_audio status ;;
  if ok then
    url <- subscript status "audio_url" ;;
    download_audio client url output ;;;
    print ("✓ Saved: " ++ output)
  else
    error <- dict_get status "error" (JStr "Unknown") ;;
    eprint ("✗ Failed: " ++ py_str error) ;;;
    sys_exit 1.

(** The [if timbre: ... else: ...] that opens [cmd_clone] and yields the
    job id. *)
Definition cmd_clone_submit (client : Text2SpeechClient) (audio text : string)
    (ref_text : option string) (x_vector_only : bool) (instruct timbre : option string)
    (language : string) : M JVal :=
  match if_set timbre with
  | Some t =>
      print ("Using timbre: " ++ t) ;;;
      voice_clone_with_timbre client text t language instruct
  | None =>
      print ("Cloning from: " ++ audio) ;;;
      found <- path_exists audio ;;
      (if found then ret tt
       else eprint ("✗ Audio file not found: " ++ audio) ;;; sys_exit 1) ;;;
      voice_clone client text audio language ref_text x_vector_only instruct
  end.

Definition cmd_clone (fuel : nat) (audio text output : string) (ref_text : option string)
    (x_vector_only : bool) (instruct timbre : option string) (language : string)
    : M unit :=
  let client := new_client API_BASE in
  job_id <- cmd_clone_submit client audio text ref_text x_vector_only instruct timbre
              language ;;
  print ("Text: " ++ take_chars 60 text ++ "...") ;;;
  print ("Job ID: " ++ py_str job_id) ;;;
  status <- wait_for_completion fuel client job_id default_poll_interval
              default_timeout None ;;
  ok <- has_audio status ;;
  if ok then
    url <- subscript status "audio_url" ;;
    download_audio client url output ;;;
    print ("✓ Saved: " ++ output)
  else
    error <- dict_get status "error" (JStr "Unknown") ;;
    eprint ("✗ Failed: " ++ py_str error) ;;;
    sys_exit 1.

(** ** Batch commands *)

(** [Path(dir) / name], rendered; [dir] is taken in the form [Path] prints. *)
Definition path_join (dir name : string) : string := dir ++ "/" ++ name.

Fixpoint rindex (c : ascii) (s : string) : option nat :=
  match s with
  | EmptyString => None
  | String a r =>
      match rindex c r with
      | Some i => Some (S i)
      | None => if Ascii.eqb a c then Some O else None
      end
  end.

(** [Path(name).stem] *)
Definition stem (name : string) : string :=
  match rindex "." name with
  | Some i =>
      if ((0 <? i) && (i <? String.length name - 1))%nat then substring 0 i name
      else name
  | None => name
  end.

(** The name of the entry of [dir] that [path] is, or lies below. *)
Definition entry_name (dir path : string) : option string :=
  let p := dir ++ "/" in
  if startswith p path then
    match upto_slash (substring (String.length p) (String.length path - String.length p)
                        path) with
    | EmptyString => None
    | n => Some n
    end
  else None.

Fixpoint insert_sorted (x : string) (l : list string) : list string :=
  match l with
  | [] => [x]
  | y :: r => if String.leb x y then x :: l else y :: insert_sorted x r
  end.

(** The names [sorted(Path(dir).glob("*.txt"))] lists: the entries of
    [dir] whose name ends in [.txt], files and directories alike, each once,
    in ascending order. *)
Definition txt_files (dir : string) (w : World) : list string :=
  let names :=
    flat_map (fun path => match entry_name dir path with
                          | Some n => if endswith ".txt" n then [n] else []
                          | None => []
                          end) (map fst (files w) ++ dirs w) in
  fold_right insert_sorted [] (nodup string_dec names).

(** [sorted(Path(dir).glob("*.txt"))], as names *)
Definition glob_txt (dir : string) : M (list string) :=
  fun w => (Val (txt_files dir w), w).

Definition is_success (r : JVal) : bool :=
  match r with
  | JObj kvs => match assoc "status" kvs with Some v => is_str "success" v | None => false end
  | _ => false
  end.

(** [sum(1 for r in results if r["status"] == "success")] *)
Definition count_success (results : list JVal) : nat :=
  List.length (filter is_success results).

(** The suite under [try:] in the loop of [cmd_batch_speak]; yields
    [results] with the record it appended. *)
Definition batch_speak_try (fuel : nat) (client : Text2SpeechClient)
    (output_path speaker language : string) (instruct : option string)
    (name text : string) (results : list JVal) : M (list JVal) :=
  job_id <- custom_voice client text speaker language instruct ;;
  print ("  → " ++ py_str job_id) ;;;
  status <- wait_for_completion fuel client job_id default_poll_interval
              default_timeout None ;;
  ok <- has_audio status ;;
  if ok then
    let out_file := path_join output_path (stem name ++ ".wav") in
    url <- subscript status "audio_url" ;;
    download_audio client url out_file ;;;
    print ("  ✓ " ++ stem name ++ ".wav") ;;;
    ret (results ++ [JObj [("file", JStr name); ("status", JStr "success");
                           ("output", JStr out_file)]])%list
  else
    error <- dict_get status "error" (JStr "Unknown") ;;
    print ("  ✗ " ++ py_str error) ;;;
    ret (results ++ [JObj [("file", JStr name); ("status", JStr "failed");
                           ("error", error)]])%list.

(** The record the [except Exception as e:] clause appends. *)
Definition error_record (name : string) (e : Exn) : JVal :=
  JObj [("file", JStr name); ("status", JStr "error"); ("error", JStr (exn_msg e))].

(** The [except Exception as e:] clause of both batch loops. *)
Definition batch_except (name : string) (results : list JVal) (e : Exn)
    : M (list JVal) :=
  print ("  ✗ " ++ exn_msg e) ;;;
  ret (results ++ [error_record name e])%list.

(** The body of the [for] loop of [cmd_batch_speak], for the [i]-th of
    [total] files; yields [results] as the iteration leaves it. *)
Definition batch_speak_body (fuel : nat) (client : Text2SpeechClient)
    (input_path output_path speaker language : string) (instruct : option string)
    (total i : nat) (name : string) (results : list JVal) : M (list JVal) :=
  print (nl ++ "[" ++ str_of_nat i ++ "/" ++ str_of_nat total ++ "] " ++ name) ;;;
  content <- read_text (path_join input_path name) ;;
  let text := strip content in
  if String.eqb text "" then
    print "  ⚠ Empty file" ;;;
    ret results
  else
    try_except
      (batch_speak_try fuel client output_path speaker language instruct name text results)
      (batch_except name results).

Fixpoint batch_speak_loop (fuel : nat) (client : Text2SpeechClient)
    (input_path output_path speaker language : string) (instruct : option string)
    (total i : nat) (text_files : list string) (results : list JVal) : M (list JVal) :=
  match text_files with
  | [] => ret results
  | name :: rest =>
      results' <- batch_speak_body fuel client input_path output_path speaker language
                    instruct total i name results ;;
      batch_speak_loop fuel client input_path output_path speaker language instruct
        total (S i) rest results'
  end.

(** [cmd_batch_speak]; the value is the final [results] list, which the
    source keeps in a local variable. *)
Definition cmd_batch_speak (fuel : nat) (input_dir output_dir speaker language : string)
    (instruct : option string) : M (list JVal) :=
  let client := new_client API_BASE in
  mkdir output_dir ;;;
  text_files <- glob_txt input_dir ;;
  print ("Found " ++ str_of_nat (List.length text_files) ++ " files to process") ;;;
  results <- batch_speak_loop fuel client input_dir output_dir speaker language instruct
               (List.length text_files) 1 text_files [] ;;
  let report_file := path_join output_dir "batch_report.json" in
  write_file report_file (json_dumps rt (JArr results)) ;;;
  print (nl ++ "Complete: " ++ str_of_nat (count_success results) ++ "/"
         ++ str_of_nat (List.length results) ++ " successful") ;;;
  print ("Report: " ++ report_file) ;;;
  ret results.

(** The suite under [try:] in the loop of [cmd_batch_clone]. *)
Definition batch_clone_try (fuel : nat) (client : Text2SpeechClient)
    (output_path reference_audio : string) (ref_text : option string)
    (language name text : string) (results : list JVal) : M (list JVal) :=
  job_id <- voice_clone client text reference_audio language ref_text false None ;;
  print ("  → " ++ py_str job_id) ;;;
  status <- wait_for_completion fuel client job_id default_poll_interval
              default_timeout None ;;
  ok <- has_audio status ;;
  if ok then
    let out_file := path_join output_path (stem name ++ ".wav") in
    url <- subscript status "audio_url" ;;
    download_audio client url out_file ;;;
    print ("  ✓ " ++ stem name ++ ".wav") ;;;
    ret (results ++ [JObj [("file", JStr name); ("status", JStr "success")]])%list
  else
    error <- dict_get status "error" (JStr "Unknown") ;;
    print ("  ✗ " ++ py_str error) ;;;
    ret (results ++ [JObj [("file", JStr name); ("status", JStr "failed");
                           ("error", error)]])%list.

(** The body of the [for] loop of [cmd_batch_clone]. *)
Definition batch_clone_body (fuel : nat) (client : Text2SpeechClient)
    (input_path output_path reference_audio : string) (ref_text : option string)
    (language : string) (total i : nat) (name : string) (results : list JVal)
    : M (list JVal) :=
  print (nl ++ "[" ++ str_of_nat i ++ "/" ++ str_of_nat total ++ "] " ++ name) ;;;
  content <- read_text (path_join input_path name) ;;
  let text := strip content in
  if String.eqb text "" then
    print "  ⚠ Empty file" ;;;
    ret results
  else
    try_except
      (batch_clone_try fuel client output_path reference_audio ref_text language
         name text results)
      (batch_except name results).

Fixpoint batch_clone_loop (fuel : nat) (client : Text2SpeechClient)
    (input_path output_path reference_audio : string) (ref_text : option string)
    (language : string) (total i : nat) (text_files : list string)
    (results : list JVal) : M (list JVal) :=
  match text_files with
  | [] => ret results
  | name :: rest =>
      results' <- batch_clone_body fuel client input_path output_path reference_audio
                    ref_text language total i name results ;;
      batch_clone_loop fuel client input_path output_path reference_audio ref_text
        language total (S i) rest results'
  end.

(** [cmd_batch_clone]; the value is the final [results] list. *)
Definition cmd_batch_clone (fuel : nat) (input_dir output_dir reference_audio : string)
    (ref_text : option string) (language : string) : M (list JVal) :=
  let client := new_client API_BASE in
  mkdir output_dir ;;;
  found <- path_exists reference_audio ;;
  (if found then ret tt
   else eprint ("✗ Reference audio not found: " ++ reference_audio) ;;; sys_exit 1) ;;;
  text_files <- glob_txt input_dir ;;
  print ("Cloning voice from: " ++ reference_audio) ;;;
  print ("Processing " ++ str_of_nat (List.length text_files) ++ " files") ;;;
  results <- batch_clone_loop fuel client input_dir output_dir reference_audio ref_text
               language (List.length text_files) 1 text_files [] ;;
  print (nl ++ "Complete: " ++ str_of_nat (count_success results) ++ "/"
         ++ str_of_nat (List.length results) ++ " successful") ;;;
  ret results.

End Client.

(** ** The rest of the client and of the commands *)

(** More of Python the remaining commands rely on: [json.load], and the
    exceptions the built-ins raise on values they do not accept. *)
Record Builtins : Type := {
  (** [json.load(f)] for a file that holds [text]: the value, or the text
      of the decoding error *)
  json_loads : string -> string + JVal;
  (** the exception of [len(v)] on a value without length *)
  len_error : JVal -> Exn;
  (** the exception of [v[:n]] on a value that is neither list nor str *)
  slice_error : JVal -> Exn;
  (** the exception of [for x in v] on a value that cannot be iterated *)
  iter_error : JVal -> Exn;
  (** the exception of [', '.join(v)] when [v] is no iterable of str *)
  join_error : JVal -> Exn
}.

(** The characters (code points) of a string, each with its UTF-8 bytes. *)
Fixpoint chars_of (s : string) : list string :=
  match s with
  | EmptyString => []
  | String a r =>
      let rest := chars_of r in
      match r, rest with
      | String b _, c :: cs =>
          if is_cont b then String a c :: cs else String a "" :: rest
      | _, _ => String a "" :: rest
      end
  end.

(** The items [for x in v] runs through, for a value that can be iterated:
    the elements of a list, the characters of a str, the keys of a dict. *)
Definition items_of (v : JVal) : option (list JVal) :=
  match v with
  | JArr xs => Some xs
  | JStr s => Some (map JStr (chars_of s))
  | JObj kvs => Some (map (fun kv => JStr (fst kv)) kvs)
  | _ => None
  end.

Fixpoint all_str (xs : list JVal) : option (list string) :=
  match xs with
  | [] => Some []
  | JStr s :: rest =>
      match all_str rest with
      | Some ss => Some (s :: ss)
      | None => None
      end
  | _ :: _ => None
  end.

(** [for x in xs: body(x)] *)
Fixpoint for_each {A : Type} (xs : list A) (body : A -> M unit) : M unit :=
  match xs with
  | [] => ret tt
  | x :: rest => body x ;;; for_each rest body
  end.

Section Tools.

Variable rt : Runtime.
Variable bi : Builtins.

(** [len(v)] *)
Definition py_len (v : JVal) : M nat :=
  match v with
  | JArr xs => ret (List.length xs)
  | JStr s => ret (List.length (chars_of s))
  | JObj kvs => ret (List.length kvs)
  | _ => reraise (len_error bi v)
  end.

(** [v[:n]] *)
Definition py_head (n : nat) (v : JVal) : M JVal :=
  match v with
  | JArr xs => ret (JArr (firstn n xs))
  | JStr s => ret (JStr (take_chars n s))
  | _ => reraise (slice_error bi v)
  end.

(** The items of [for x in v]. *)
Definition py_iter (v : JVal) : M (list JVal) :=
  match items_of v with
  | Some xs => ret xs
  | None => reraise (iter_error bi v)
  end.

(** [sep.join(v)] *)
Definition py_join (sep : string) (v : JVal) : M string :=
  match items_of v with
  | Some xs =>
      match all_str xs with
      | Some ss => ret (String.concat sep ss)
      | None => reraise (join_error bi v)
      end
  | None => reraise (join_error bi v)
  end.

Definition health_check (self : Text2SpeechClient) : M JVal :=
  try_except
    (resp <- http (GET (base_url self ++ "/health")) ;;
     json_of resp)
    (fun e => ret (JObj [("error", JStr (exn_msg e)); ("status", JStr "unavailable")])).

Definition get_speakers (self : Text2SpeechClient) : M JVal :=
  resp <- http (GET (base_url self ++ "/meta/speakers")) ;;
  raise_for_status resp ;;;
  json_of resp.

Definition get_languages (self : Text2SpeechClient) : M JVal :=
  resp <- http (GET (base_url self ++ "/meta/languages")) ;;
  raise_for_status resp ;;;
  json_of resp.

Definition get_models (self : Text2SpeechClient) : M JVal :=
  resp <- http (GET (base_url self ++ "/meta/models")) ;;
  raise_for_status resp ;;;
  json_of resp.

Definition encode_audio (self : Text2SpeechClient) (audio_path : string) : M JVal :=
  f <- open_read audio_path ;;
  resp <- http (POST_multipart (base_url self ++ "/tokenizer/encode") [("audio", f)] []) ;;
  raise_for_status resp ;;;
  json_of resp.

Definition decode_tokens (self : Text2SpeechClient) (tokens : JVal)
    (output_path : string) : M unit :=
  resp <- http (POST_json (base_url self ++ "/tokenizer/decode")
                  (JObj [("tokens", tokens)])) ;;
  raise_for_status resp ;;;
  write_file output_path (content resp).

Definition cmd_encode (audio : string) (output : option string) : M unit :=
  let client := new_client API_BASE in
  print ("Encoding: " ++ audio) ;;;
  result <- encode_audio client audio ;;
  count <- subscript rt result "count" ;;
  print ("✓ Tokens: " ++ py_str rt count) ;;;
  match if_set output with
  | Some o =>
      write_file o (json_dumps rt result) ;;;
      print ("Saved: " ++ o)
  | None => print (json_dumps rt result)
  end.

(** [data.get("tokens", data) if isinstance(data, dict) else data] *)
Definition tokens_in (data : JVal) : JVal :=
  match data with
  | JObj kvs => match assoc "tokens" kvs with Some t => t | None => data end
  | _ => data
  end.

Definition cmd_decode (tokens_file output : string) : M unit :=
  let client := new_client API_BASE in
  print ("Decoding: " ++ tokens_file) ;;;
  text <- open_read tokens_file ;;
  data <- match json_loads bi text with
          | inl msg => raise JSONDecodeError msg
          | inr v => ret v
          end ;;
  let tokens := tokens_in data in
  decode_tokens client tokens output ;;;
  print ("✓ Saved: " ++ output).

(** The suite under [try:] in [cmd_status]. *)
Definition cmd_status_try (client : Text2SpeechClient) : M unit :=
  speakers <- get_speakers client ;;
  n <- py_len speakers ;;
  print (nl ++ "Speakers (" ++ str_of_nat n ++ "):") ;;;
  first <- py_head 5 speakers ;;
  shown <- py_iter first ;;
  for_each shown
    (fun s =>
       name <- subscript rt s "name" ;;
       description <- subscript rt s "description" ;;
       short <- py_head 50 description ;;
       print ("  - " ++ py_str rt name ++ ": " ++ py_str rt short ++ "...")) ;;;
  n' <- py_len speakers ;;
  (if (5 <? n')%nat then print ("  ... and " ++ str_of_nat (n' - 5) ++ " more")
   else ret tt) ;;;
  models <- get_models client ;;
  print (nl ++ "Models:") ;;;
  listed <- py_iter models ;;
  for_each listed
    (fun m =>
       loaded <- subscript rt m "loaded" ;;
       let status := if truthy loaded then "✓" else "○" in
       name <- subscript rt m "name" ;;
       print ("  " ++ status ++ " " ++ py_str rt name)).

Definition cmd_status : M unit :=
  let client := new_client API_BASE in
  health <- health_check client ;;
  print "=== Text2Speech Service Status ===" ;;;
  print ("API: " ++ API_BASE) ;;;
  status <- dict_get rt health "status" (JStr "unknown") ;;
  print ("Status: " ++ py_str rt status) ;;;
  version <- dict_get rt health "version" (JStr "unknown") ;;
  print ("Version: " ++ py_str rt version) ;;;
  gpu <- dict_get rt health "gpu_available" (JBool false) ;;
  print ("GPU: " ++ py_str rt gpu) ;;;
  mock <- dict_get rt health "mock_mode" (JBool false) ;;
  print ("Mock Mode: " ++ py_str rt mock) ;;;
  status' <- dict_get rt health "status" JNull ;;
  if is_str "ok" status' then
    try_except (cmd_status_try client)
      (fun e => print (nl ++ "Error fetching metadata: " ++ exn_msg e))
  else ret tt.

Definition cmd_speakers : M unit :=
  let client := new_client API_BASE in
  speakers <- get_speakers client ;;
  print "=== Available Speakers ===" ;;;
  listed <- py_iter speakers ;;
  for_each listed
    (fun s =>
       name <- subscript rt s "name" ;;
       print (nl ++ py_str rt name) ;;;
       description <- subscript rt s "description" ;;
       print ("  Description: " ++ py_str rt description) ;;;
       languages <- subscript rt s "languages" ;;
       joined <- py_join ", " languages ;;
       print ("  Languages: " ++ joined)).

Definition cmd_languages : M unit :=
  let client := new_client API_BASE in
  languages <- get_languages client ;;
  print "=== Supported Languages ===" ;;;
  listed <- py_iter languages ;;
  for_each listed
    (fun lang =>
       code <- subscript rt lang "code" ;;
       name <- subscript rt lang "name" ;;
       print ("  " ++ py_str rt code ++ ": " ++ py_str rt name)).

End Tools.

(** ** Reading traces *)

(** The status dict a status request delivers, when it delivers one: the
    exchange went through, the HTTP status is no error and the body is JSON. *)
Definition fetched (rep : Reply) : option JVal :=
  match answer rep with
  | inr resp =>
      let c := status_code resp in
      if (400 <=? c) && (c <? 600) then None
      else match resp_json resp with
           | inr v => Some v
           | inl _ => None
           end
  | inl _ => None
  end.

(** [status["status"]], when [status] is a dict that has it *)
Definition status_field (status : JVal) : option JVal :=
  match status with
  | JObj kvs => assoc "status" kvs
  | _ => None
  end.

Definition is_terminal (status : JVal) : bool :=
  match status_field status with
  | Some s => in_terminal s
  | None => false
  end.

Definition is_pending (status : JVal) : bool :=
  match status_field status with
  | Some s => negb (in_terminal s)
  | None => false
  end.

(** The statuses the polls of a trace delivered, in order. *)
Definition polled (tr : list Event) : list JVal :=
  flat_map (fun e => match e with
                     | EvRequest _ rep =>
                         match fetched rep with Some st => [st] | None => [] end
                     | _ => []
                     end) tr.

(** The statuses the progress callback was handed, in order. *)
Definition observed (tr : list Event) : list JVal :=
  flat_map (fun e => match e with EvCallback st => [st] | _ => [] end) tr.

Definition is_write (e : Event) : bool :=
  match e with EvWrite _ _ => true | _ => false end.

(** The events a callback leaves in the trace when handed [status]. *)
Definition callback_events (cb : option Callback) (status : JVal) : list Event :=
  match cb with
  | Some f =>
      EvCallback status :: map (fun p => EvPrint (fst p) (snd p)) (cb_prints (f status))
  | None => []
  end.

(** A callback that, handed [status], returns normally and leaves the dict
    as it found it. *)
Definition passive (cb : option Callback) (status : JVal) : Prop :=
  match cb with
  | Some f => cb_raises (f status) = None /\ cb_leaves (f status) = status
  | None => True
  end.

(** [s in text] *)
Definition contains (s text : string) : bool :=
  match index 0 s text with Some _ => true | None => false end.

(** ** The URL resolution the specification describes *)

(** Scheme and host of [url]. *)
Definition url_origin (url : string) : string :=
  match index 0 "://" url with
  | Some i =>
      substring 0 (i + 3) url
      ++ upto_slash (substring (i + 3) (String.length url - (i + 3)) url)
  | None => url
  end.

(** Following the specification's words: an absolute URL unchanged, a path
    starting with [/] appended to the origin of the base URL, a bare
    relative path appended to the base URL. *)
Definition resolve_by_origin (base audio_url : string) : string :=
  if startswith "/" audio_url then url_origin base ++ audio_url
  else if startswith "http" audio_url then audio_url
  else base ++ "/" ++ audio_url.

(** ** Sample runtime and worlds *)

Definition sample_runtime : Runtime :=
  {| py_repr := fun _ => "<value>";
     json_dumps := fun _ => "<json>";
     subscript_msg := fun _ => "object is not subscriptable";
     attribute_msg := fun _ name => "object has no attribute '" ++ name ++ "'";
     int_times_100 := fun v => match v with
                                | JNum q => inr (Z.quot (Qnum q * 100) (Zpos (Qden q)))
                                | JBool _ => inr 100
                                | _ => inl (mkExn ValueError "invalid literal for int()")
                                end |}.

Definition ok_json (v : JVal) : Reply :=
  {| latency := 20;
     answer := inr {| status_code := 200; reason := "OK"; resp_url := "";
                      resp_json := inr v; content := "" |} |}.

Definition ok_bytes (data : string) : Reply :=
  {| latency := 20;
     answer := inr {| status_code := 200; reason := "OK"; resp_url := "";
                      resp_json := inl "Expecting value: line 1 column 1 (char 0)";
                      content := data |} |}.

Definition is_post (req : Request) : bool :=
  match req with GET _ => false | _ => true end.

Definition url_of (req : Request) : string :=
  match req with
  | GET u => u
  | POST_json u _ => u
  | POST_multipart u _ _ => u
  end.

(** A service that accepts every submission as job [j1], answers every
    status request with [status] and serves [RIFF] for anything else. *)
Definition service (status : JVal) : Z -> list Event -> Request -> Reply :=
  fun _ _ req =>
    if is_post req then ok_json (JObj [("job_id", JStr "j1")])
    else if endswith "/status" (url_of req) then ok_json status
    else ok_bytes "RIFF".

Definition world_of (srv : Z -> list Event -> Request -> Reply)
    (fs : list (string * string)) : World :=
  {| now := 0; net := srv; files := fs; dirs := []; write_error := fun _ => None;
     trace := [] |}.

Definition processing : JVal := JObj [("status", JStr "processing"); ("progress", JNum (1 # 2))].
Definition completed : JVal :=
  JObj [("status", JStr "completed"); ("audio_url", JStr "/files/j1.wav")].
Definition completed_bare : JVal := JObj [("status", JStr "completed")].

(** A service whose job completes on the [n]-th status request (counting
    from 0). *)
Definition service_after (n : nat) : Z -> list Event -> Request -> Reply :=
  fun _ history req =>
    if is_post req then ok_json (JObj [("job_id", JStr "j1")])
    else if endswith "/status" (url_of req) then
      if (n <=? List.length (filter (fun e => match e with
                                              | EvRequest (GET _) _ => true
                                              | _ => false
                                              end) history))%nat
      then ok_json completed else ok_json processing
    else ok_bytes "RIFF".

(** A callback that raises whatever it is handed. *)
Definition failing_callback : Callback :=
  fun status =>
    {| cb_prints := []; cb_elapsed := 0; cb_leaves := status;
       cb_raises := Some (mkExn ValueError "boom") |}.

(** A callback that overwrites the status it is handed: it leaves a dict
    that says [processing]. *)
Definition relabelling_callback : Callback :=
  fun status =>
    {| cb_prints := []; cb_elapsed := 0;
       cb_leaves := JObj [("status", JStr "processing")]; cb_raises := None |}.

(** A service as [service completed], but one that takes 400 seconds to
    answer a status request. *)
Definition slow_service : Z -> list Event -> Request -> Reply :=
  fun _ _ req =>
    if is_post req then ok_json (JObj [("job_id", JStr "j1")])
    else if endswith "/status" (url_of req) then
      {| latency := 400000; answer := answer (ok_json completed) |}
    else ok_bytes "RIFF".

(** A callback that prints a dot and returns. *)
Definition dot_callback : Callback :=
  fun status =>
    {| cb_prints := [(Stdout, ".")]; cb_elapsed := 0; cb_leaves := status;
       cb_raises := None |}.

(** ** Vocabulary of the properties *)

(** From here on [++] reads as list concatenation unless marked. *)
Open Scope list_scope.

(** *** Framing *)

(** [extends ok w w']: [w'] is [w] some steps later. The service and the
    write oracle are the same, the clock has not gone back, the trace has
    only grown, and files outside [ok] are untouched. *)
Record extends (ok : string -> bool) (w w' : World) : Prop := {
  ext_net : net w' = net w;
  ext_write_error : write_error w' = write_error w;
  ext_now : now w <= now w';
  ext_trace : exists tr, trace w' = trace w ++ tr;
  ext_files : forall p, ok p = false -> assoc p (files w') = assoc p (files w)
}.

Definition settled {A : Type} (o : Outcome A) : Prop :=
  match o with
  | Val _ | Raise _ => True
  | Exit _ | OutOfFuel => False
  end.

(** A computation that returns or raises, and only extends the world. *)
Definition tame {A : Type} (ok : string -> bool) (m : M A) : Prop :=
  forall w, settled (fst (m w)) /\ extends ok w (snd (m w)).

(** What a computation returns, when it returns. *)
Definition yields {A : Type} (P : A -> Prop) (m : M A) : Prop :=
  forall w, match fst (m w) with Val a => P a | _ => True end.

(** *** Polling *)

(** The reply the next status request will get in [w], and the world once
    it has arrived. *)
Definition next_reply (rt : Runtime) (self : Text2SpeechClient) (job_id : JVal)
    (w : World) : Reply :=
  net w (now w) (on_wire (trace w)) (status_request rt self job_id).

Definition after_poll (rt : Runtime) (self : Text2SpeechClient) (job_id : JVal)
    (w : World) : World :=
  log (EvRequest (status_request rt self job_id) (next_reply rt self job_id w))
      (advance (latency (next_reply rt self job_id w)) w).

Definition run_callback (cb : option Callback) (status : JVal) : M JVal :=
  match cb with
  | Some f => call_callback f status
  | None => ret status
  end.

(** The world a callback leaves. *)
Definition after_callback (cb : option Callback) (status : JVal) (w : World) : World :=
  snd (run_callback cb status w).

(** The world after the [time.sleep] that ends a round. *)
Definition slept (ms : Z) (w : World) : World :=
  log (EvSleep ms) (advance (Z.to_N ms) w).

Definition timeout_error (rt : Runtime) (job_id : JVal) : Exn :=
  mkExn TimeoutError ("Job " ++ py_str rt job_id ++ " timeout")%string.

(** The exception [v[key]] raises when it raises. *)
Definition subscript_error (rt : Runtime) (v : JVal) (key : string) : Exn :=
  match v with
  | JObj _ => mkExn KeyError ("'" ++ key ++ "'")%string
  | _ => mkExn TypeError (subscript_msg rt v)
  end.

(** [ends_at_terminal cb tr out]: wherever the events [tr] of a run show a
    request answered by a terminal status (with a callback that let it
    through), only the callback's own events follow, and the run returned
    that status. *)
Definition ends_at_terminal (cb : option Callback) (tr : list Event)
    (out : Outcome JVal) : Prop :=
  forall pre req rep st post,
    tr = pre ++ EvRequest req rep :: post ->
    fetched rep = Some st ->
    is_terminal st = true ->
    passive cb st ->
    out = Val st /\ post = callback_events cb st.

(** Two worlds the service cannot tell apart. *)
Definition same_view (w v : World) : Prop :=
  now w = now v /\ net w = net v /\ on_wire (trace w) = on_wire (trace v).

Definition unobtrusive (f : Callback) : Prop :=
  forall st, cb_raises (f st) = None /\ cb_leaves (f st) = st /\ cb_elapsed (f st) = 0%N.

(** *** Commands *)

(** The world after [print(text)]. *)
Definition printed (text : string) (w : World) : World :=
  log (EvPrint Stdout (text ++ nl)%string) w.

(** A completed status with no usable [audio_url]. *)
Definition completed_no_audio (status : JVal) : bool :=
  match status with
  | JObj kvs =>
      match assoc "status" kvs with
      | Some s =>
          is_str "completed" s
          && negb (truthy (match assoc "audio_url" kvs with Some a => a | None => JNull end))
      | None => false
      end
  | _ => false
  end.

(** [status.get('error', 'Unknown')] *)
Definition error_of (status : JVal) : JVal :=
  match status with
  | JObj kvs => match assoc "error" kvs with Some e => e | None => JStr "Unknown" end
  | _ => JStr "Unknown"
  end.

(** The line the failure branch writes to [stderr]. *)
Definition failure_line (rt : Runtime) (status : JVal) : Event :=
  EvPrint Stderr (("✗ Failed: " ++ py_str rt (error_of status)) ++ nl)%string.

(** *** Batch loops *)

(** Paths the batch loops write artifacts to. *)
Definition is_wav (path : string) : bool := endswith ".wav" path.

(** [name] is there to be read in [w], and is no artifact path. *)
Definition text_input (input_path : string) (w : World) (name : string) : Prop :=
  (exists raw, assoc (path_join input_path name) (files w) = Some raw)
  /\ is_wav (path_join input_path name) = false.

(** The file [name] holds more than white space. *)
Definition nonempty_in (input_path : string) (w : World) (name : string) : bool :=
  match assoc (path_join input_path name) (files w) with
  | Some raw => negb (String.eqb (strip raw) "")
  | None => false
  end.

(** [r["file"]] of a result record *)
Definition record_file (r : JVal) : option string :=
  match r with
  | JObj kvs => match assoc "file" kvs with Some (JStr n) => Some n | _ => None end
  | _ => None
  end.

(** The file names of a result list, in order. *)
Definition record_names (results : list JVal) : list string :=
  flat_map (fun r => match record_file r with Some n => [n] | None => [] end) results.

(** [r] is [results] with one more record, for [name]. *)
Definition one_more (name : string) (results r : list JVal) : Prop :=
  exists rec, r = results ++ [rec] /\ record_file rec = Some name.

(** The world in which the loop body, having printed its header and read
    the file, decides what to do. *)
Definition at_file (input_path : string) (total i : nat) (name : string) (w : World)
    : World :=
  log (EvOpen (path_join input_path name))
    (printed (nl ++ "[" ++ str_of_nat i ++ "/" ++ str_of_nat total ++ "] " ++ name) w).

(** Width of the white-space character at the head of [l], or 0. *)
Definition width_at (l : list ascii) : nat :=
  ws_width (map nat_of_ascii (firstn 3 l)).

(** [l] is white space from end to end. *)
Inductive Blank : list ascii -> Prop :=
| Blank_nil : Blank []
| Blank_step l k : width_at l = S k -> Blank (skipn (S k) l) -> Blank l.

(** The text the loops take from a file that holds [raw]. *)
Definition text_of (raw : string) : string := strip (universal_newlines raw).

(** What the listing of [input_dir] yields in a batch run: it is taken
    once [output_dir] has been created. *)
Definition listed (input_dir output_dir : string) (w : World) : list string :=
  txt_files input_dir (add_dir output_dir w).

(** Every listed entry is a regular file. *)
Definition readable_inputs (input_dir output_dir : string) (w : World) : Prop :=
  forall name,
    In name (listed input_dir output_dir w) ->
    exists raw, assoc (path_join input_dir name) (files w) = Some raw.

(** The non-empty text files among the listed entries, in the order the
    loops visit them. *)
Definition inputs_with_text (input_dir output_dir : string) (w : World) : list string :=
  filter (nonempty_in input_dir w) (listed input_dir output_dir w).

(** Neither a file nor a directory is at [path]. *)
Definition missing (w : World) (path : string) : Prop :=
  assoc path (files w) = None /\ is_dir w path = false.

(** The shape the two loop bodies share; [attempt] is the suite under
    [try:], given the file name, its text and [results]. *)
Definition shared_body (attempt : string -> string -> list JVal -> M (list JVal))
    (input_path : string) (total i : nat) (name : string) (results : list JVal)
    : M (list JVal) :=
  print (nl ++ "[" ++ str_of_nat i ++ "/" ++ str_of_nat total ++ "] " ++ name)%string ;;;
  content <- read_text (path_join input_path name) ;;
  if String.eqb (strip content) "" then
    print "  ⚠ Empty file" ;;;
    ret results
  else try_except (attempt name (strip content) results) (batch_except name results).

Fixpoint shared_loop (attempt : string -> string -> list JVal -> M (list JVal))
    (input_path : string) (total i : nat) (text_files : list string)
    (results : list JVal) : M (list JVal) :=
  match text_files with
  | [] => ret results
  | name :: rest =>
      results' <- shared_body attempt input_path total i name results ;;
      shared_loop attempt input_path total (S i) rest results'
  end.

(** *** Requests in general *)

(** The reply [req] gets when sent in [w], and the world once it is in. *)
Definition reply_to (req : Request) (w : World) : Reply :=
  net w (now w) (on_wire (trace w)) req.

Definition after_request (req : Request) (w : World) : World :=
  log (EvRequest req (reply_to req w)) (advance (latency (reply_to req w)) w).

(** The response a reply carries past [raise_for_status]: the exchange went
    through and the HTTP status is no error. *)
Definition delivered (rep : Reply) : option Response :=
  match answer rep with
  | inr resp =>
      if (400 <=? status_code resp) && (status_code resp <? 600) then None
      else Some resp
  | inl _ => None
  end.

(** The job id a reply to a submission carries: delivered, a JSON dict,
    with a [job_id]. *)
Definition job_of (rep : Reply) : option JVal :=
  match delivered rep with
  | Some resp =>
      match resp_json resp with
      | inr (JObj kvs) => assoc "job_id" kvs
      | _ => None
      end
  | None => None
  end.

(** What [health_check] returns in place of a failure. *)
Definition degraded (msg : string) : JVal :=
  JObj [("error", JStr msg); ("status", JStr "unavailable")].

Fixpoint slashes (k : nat) : string :=
  match k with
  | O => EmptyString
  | S k' => String "/" (slashes k')
  end.

(** What one event of a run of [wait_for_completion] may be: a status
    request for the job, a sleep of the poll interval, or the callback and
    its prints. *)
Definition polling_event (rt : Runtime) (self : Text2SpeechClient) (job_id : JVal)
    (poll_interval : Z) (e : Event) : Prop :=
  match e with
  | EvRequest req _ => req = status_request rt self job_id
  | EvSleep ms => ms = poll_interval
  | EvCallback _ => True
  | EvPrint _ _ => True
  | _ => False
  end.

(** Where the events [tr] of a run show a poll that delivered no status,
    the run raised and that request is its last event. *)
Definition stops_at_failure (tr : list Event) (out : Outcome JVal) : Prop :=
  forall pre req rep post,
    tr = pre ++ EvRequest req rep :: post ->
    fetched rep = None ->
    (exists e, out = Raise e) /\ post = [].

(** A status that sends the commands down their failure branch: a dict
    with a [status] that is not [completed], or without a usable
    [audio_url]. *)
Definition lacks_audio (status : JVal) : bool :=
  match status with
  | JObj kvs =>
      match assoc "status" kvs with
      | Some s =>
          negb (is_str "completed" s
                && truthy (match assoc "audio_url" kvs with Some a => a | None => JNull end))
      | None => false
      end
  | _ => false
  end.

(** A completed status whose [audio_url] is the non-empty string [url]. *)
Definition offers_audio (status : JVal) (url : string) : Prop :=
  exists kvs,
    status = JObj kvs
    /\ assoc "status" kvs = Some (JStr "completed")
    /\ assoc "audio_url" kvs = Some (JStr url)
    /\ url <> ""%string.

(** The record the batch loops append for a job that ended without audio. *)
Definition failed_record (name : string) (status : JVal) : JVal :=
  JObj [("file", JStr name); ("status", JStr "failed"); ("error", error_of status)].

(** The artifact of a success record is on disk in [w]. *)
Definition artifact_present (output_path : string) (w : World) (r : JVal) : Prop :=
  is_success r = true ->
  exists name data,
    record_file r = Some name
    /\ assoc (path_join output_path (stem name ++ ".wav")) (files w) = Some data.

(** [r["output"]] of a result record *)
Definition record_output (r : JVal) : option string :=
  match r with
  | JObj kvs => match assoc "output" kvs with Some (JStr p) => Some p | _ => None end
  | _ => None
  end.

(** The same for [cmd_batch_speak], whose success records name the
    artifact in [output]. *)
Definition artifact_recorded (output_path : string) (w : World) (r : JVal) : Prop :=
  is_success r = true ->
  exists name data,
    record_file r = Some name
    /\ record_output r = Some (path_join output_path (stem name ++ ".wav"))
    /\ assoc (path_join output_path (stem name ++ ".wav")) (files w) = Some data.

(** Every file of [w] is still there in [w']. *)
Definition files_kept (w w' : World) : Prop :=
  forall p data, assoc p (files w) = Some data -> exists data', assoc p (files w') = Some data'.

(** [r] is [results] with one more record, which satisfies [Q] in [w]. *)
Definition one_more_on_disk (Q : World -> JVal -> Prop) (results : list JVal)
    (r : list JVal) (w : World) : Prop :=
  exists rec, r = results ++ [rec] /\ Q w rec.

(** The line that sums up a batch run. *)
Definition summary_line (results : list JVal) : string :=
  (nl ++ "Complete: " ++ str_of_nat (count_success results) ++ "/"
   ++ str_of_nat (List.length results) ++ " successful")%string.

(** What a computation returns and the world it returns in, when it
    returns. *)
Definition yields_in {A : Type} (P : A -> World -> Prop) (m : M A) : Prop :=
  forall w, match m w with (Val a, w') => P a w' | _ => True end.

(** No file that exists is lost. *)
Definition keeps_files {A : Type} (m : M A) : Prop :=
  forall w, files_kept w (snd (m w)).

(** What [health_check] returns for a reply. *)
Definition health_of (rep : Reply) : JVal :=
  match answer rep with
  | inl msg => degraded msg
  | inr resp =>
      match resp_json resp with
      | inl msg => degraded msg
      | inr body => body
      end
  end.

(** The requests of [cmd_encode] and [cmd_decode]. *)
Definition encode_request (data : string) : Request :=
  POST_multipart (API_BASE ++ "/tokenizer/encode")%string [("audio", data)] [].

Definition decode_request (tokens : JVal) : Request :=
  POST_json (API_BASE ++ "/tokenizer/decode")%string (JObj [("tokens", tokens)]).

(** [result["count"]], when [result] is a dict that has it. *)
Definition count_of (result : JVal) : option JVal :=
  match result with
  | JObj kvs => assoc "count" kvs
  | _ => None
  end.

(** A computation that sends nothing. *)
Definition offline {A : Type} (m : M A) : Prop :=
  forall w, on_wire (trace (snd (m w))) = on_wire (trace w).

(** The line [cmd_languages] prints for an entry, when the entry is a dict
    with [code] and [name]. *)
Definition language_line (rt : Runtime) (lang : JVal) : option string :=
  match lang with
  | JObj kvs =>
      match assoc "code" kvs, assoc "name" kvs with
      | Some code, Some name => Some ("  " ++ py_str rt code ++ ": " ++ py_str rt name)%string
      | _, _ => None
      end
  | _ => None
  end.

(** The body of the loop of [cmd_languages]. *)
Definition language_body (rt : Runtime) (lang : JVal) : M unit :=
  code <- subscript rt lang "code" ;;
  name <- subscript rt lang "name" ;;
  print ("  " ++ py_str rt code ++ ": " ++ py_str rt name)%string.

(** The world after the lines have been printed, first to last. *)
Definition printed_all (lines : list string) (w : World) : World :=
  fold_left (fun v line => printed line v) lines w.

(** A visible ASCII character (U+0021..U+007E). *)
Definition visible (a : ascii) : bool :=
  ((33 <=? nat_of_ascii a) && (nat_of_ascii a <=? 126))%nat.

(** [s] holds a visible ASCII character. *)
Fixpoint has_visible (s : string) : bool :=
  match s with
  | EmptyString => false
  | String a r => visible a || has_visible r
  end.

(** ASCII white space: space, tab, newline, vertical tab, form feed,
    carriage return and the separators U+001C..U+001F. *)
Fixpoint ascii_blank (s : string) : bool :=
  match s with
  | EmptyString => true
  | String a r => is_ws1 (nat_of_ascii a) && ascii_blank r
  end.

(** What a tokenizer may answer, and a service that answers it to every
    upload, serving [RIFF] for anything else. *)
Definition sample_tokens : JVal :=
  JObj [("tokens", JArr [JNum 1; JNum 2]); ("count", JNum 2)].

Definition tokenizer : Z -> list Event -> Request -> Reply :=
  fun _ _ req =>
    match req with
    | POST_multipart _ _ _ => ok_json sample_tokens
    | _ => ok_bytes "RIFF"
    end.

(** A service that answers every request with a list of languages whose
    second entry lacks its [name]. *)
Definition sample_languages : JVal :=
  JArr [JObj [("code", JStr "en"); ("name", JStr "English")];
        JObj [("code", JStr "zh")];
        JObj [("code", JStr "fr"); ("name", JStr "French")]].

Definition catalogue : Z -> list Event -> Request -> Reply :=
  fun _ _ _ => ok_json sample_languages.

(** A sample of what a [Builtins] can be. *)
Definition sample_builtins : Builtins :=
  {| json_loads := fun text =>
       if String.eqb text "<json>" then inr sample_tokens
       else if String.eqb text "[1, 2]" then inr (JArr [JNum 1; JNum 2])
       else inl "Expecting value: line 1 column 1 (char 0)";
     len_error := fun _ => mkExn TypeError "object has no len()";
     slice_error := fun _ => mkExn TypeError "object is not subscriptable";
     iter_error := fun _ => mkExn TypeError "object is not iterable";
     join_error := fun _ => mkExn TypeError "can only join an iterable" |}.

(** *** More sample services *)

Definition failed_status : JVal :=
  JObj [("status", JStr "failed"); ("error", JStr "GPU out of memory")].

(** A service whose status endpoint answers [processing] until, from the
    [n]-th status request on (counting from 0), it answers HTTP 503. *)
Definition service_breaking_at (n : nat) : Z -> list Event -> Request -> Reply :=
  fun _ history req =>
    if is_post req then ok_json (JObj [("job_id", JStr "j1")])
    else if (n <=? List.length (filter (fun e => match e with
                                                 | EvRequest (GET _) _ => true
                                                 | _ => false
                                                 end) history))%nat
    then {| latency := 20;
            answer := inr {| status_code := 503; reason := "Service Unavailable";
                             resp_url := url_of req;
                             resp_json := inl "Expecting value: line 1 column 1 (char 0)";
                             content := "" |} |}
    else ok_json processing.

(** A service whose second submission fails with HTTP 500; everything else
    as [service completed]. *)
Definition service_failing_second : Z -> list Event -> Request -> Reply :=
  fun t history req =>
    if is_post req
       && (List.length (filter (fun e => match e with
                                         | EvRequest r _ => is_post r
                                         | _ => false
                                         end) history) =? 1)%nat
    then {| latency := 20;
            answer := inr {| status_code := 500; reason := "Internal Server Error";
                             resp_url := url_of req;
                             resp_json := inl "Expecting value: line 1 column 1 (char 0)";
                             content := "" |} |}
    else service completed t history req.

(** Two text files and, between them in the listing, a directory named
    like one. *)
Definition texts_and_a_directory : list (string * string) :=
  [("in/a.txt", "first"); ("in/b.txt/notes", "x"); ("in/c.txt", "third")].

Definition four_texts : list (string * string) :=
  [("in/c.txt", "third"); ("in/a.txt", "first"); ("in/blank.txt", (" " ++ nl)%string);
   ("in/b.txt", "second"); ("ref.wav", "RIFF")].

(** ** Framing: what every operation leaves alone *)

Lemma is_dir_log e w path : is_dir (log e w) path = is_dir w path.
Proof. reflexivity. Qed.

Lemma extends_refl ok w : extends ok w w.
Proof.
  constructor; try reflexivity; try lia.
  exists []. now rewrite app_nil_r.
Qed.

Lemma extends_trans ok w1 w2 w3 :
  extends ok w1 w2 -> extends ok w2 w3 -> extends ok w1 w3.
Proof.
  intros [n1 e1 t1 [tr1 h1] f1] [n2 e2 t2 [tr2 h2] f2]. constructor.
  - congruence.
  - congruence.
  - lia.
  - exists (tr1 ++ tr2). rewrite h2, h1. now rewrite app_assoc.
  - intros p Hp. rewrite f2, f1; auto.
Qed.

Lemma extends_log ok e w : extends ok w (log e w).
Proof.
  constructor; simpl; try reflexivity; try lia. now exists [e].
Qed.

Lemma extends_advance ok d w : extends ok w (advance d w).
Proof.
  constructor; simpl; try reflexivity; try lia.
  exists []. now rewrite app_nil_r.
Qed.

Lemma assoc_filter_neq {A : Type} (p q : string) (l : list (string * A)) :
  p <> q ->
  assoc p (filter (fun kv => negb (String.eqb (fst kv) q)) l) = assoc p l.
Proof.
  intros Hpq. induction l as [|[k v] l IH]; simpl; auto.
  destruct (String.eqb_spec k q) as [->|Hk]; simpl.
  - destruct (String.eqb_spec p q); [contradiction|]. exact IH.
  - destruct (String.eqb p k); auto.
Qed.

Lemma extends_store (ok : string -> bool) path data w :
  ok path = true -> extends ok w (store path data w).
Proof.
  intros Hok. constructor; simpl; try reflexivity; try lia.
  - exists []. now rewrite app_nil_r.
  - intros p Hp. destruct (String.eqb_spec p path) as [->|Hne].
    + congruence.
    + now apply assoc_filter_neq.
Qed.

Lemma tame_ret {A} ok (a : A) : tame ok (ret a).
Proof. intros w. split; [exact I | apply extends_refl]. Qed.

Lemma tame_raise {A} ok c msg : tame ok (@raise A c msg).
Proof. intros w. split; [exact I | apply extends_refl]. Qed.

Lemma tame_bind {A B} ok (m : M A) (k : A -> M B) :
  tame ok m -> (forall a, tame ok (k a)) -> tame ok (bind m k).
Proof.
  intros Hm Hk w. unfold bind. specialize (Hm w).
  destruct (m w) as [[a| | |] w1]; simpl in *; destruct Hm as [Hs He];
    try contradiction; [|split; auto].
  destruct (Hk a w1) as [Hs' He']. split; auto.
  eapply extends_trans; eauto.
Qed.

Lemma tame_try {A} ok (m : M A) (h : Exn -> M A) :
  tame ok m -> (forall e, tame ok (h e)) -> tame ok (try_except m h).
Proof.
  intros Hm Hh w. unfold try_except. specialize (Hm w).
  destruct (m w) as [[a|e| |] w1]; simpl in *; destruct Hm as [Hs He];
    try contradiction; [split; auto|].
  destruct (Hh e w1) as [Hs' He']. split; auto.
  eapply extends_trans; eauto.
Qed.

Lemma tame_emit ok e : tame ok (emit e).
Proof. intros w. split; [exact I | apply extends_log]. Qed.

Lemma tame_print ok text : tame ok (print text).
Proof. apply tame_emit. Qed.

Lemma tame_open_read ok path : tame ok (open_read path).
Proof.
  intros w. unfold open_read. destruct (assoc path (files w)); simpl.
  - split; [exact I | apply extends_log].
  - destruct (is_dir w path); split; first [exact I | apply extends_refl].
Qed.

Lemma tame_write_file (ok : string -> bool) path data :
  ok path = true -> tame ok (write_file path data).
Proof.
  intros Hok w. unfold write_file. destruct (write_error w path); simpl.
  - split; [exact I | apply extends_refl].
  - split; [exact I|].
    eapply extends_trans; [apply extends_store; eauto | apply extends_log].
Qed.

Lemma tame_http ok req : tame ok (http req).
Proof.
  intros w. unfold http.
  assert (extends ok w (log (EvRequest req (net w (now w) (on_wire (trace w)) req))
                          (advance (latency (net w (now w) (on_wire (trace w)) req)) w))).
  { eapply extends_trans; [apply extends_advance | apply extends_log]. }
  destruct (answer _); simpl; auto.
Qed.

Lemma tame_raise_for_status ok resp : tame ok (raise_for_status resp).
Proof.
  unfold raise_for_status.
  destruct (_ && _); [apply tame_raise|].
  destruct (_ && _); [apply tame_raise | apply tame_ret].
Qed.

Lemma tame_json_of ok resp : tame ok (json_of resp).
Proof.
  unfold json_of. destruct (resp_json resp); [apply tame_raise | apply tame_ret].
Qed.

Lemma tame_time_sleep ok ms : tame ok (time_sleep ms).
Proof.
  intros w. unfold time_sleep. destruct (ms <? 0); simpl.
  - split; [exact I | apply extends_refl].
  - split; [exact I|].
    eapply extends_trans; [apply extends_advance | apply extends_log].
Qed.

Lemma fold_log_trace (l : list (Stream * string)) w :
  trace (fold_left (fun w' p => log (EvPrint (fst p) (snd p)) w') l w)
  = trace w ++ map (fun p => EvPrint (fst p) (snd p)) l.
Proof.
  revert w. induction l as [|p l IH]; intros w; simpl.
  - now rewrite app_nil_r.
  - rewrite IH. simpl. now rewrite <- app_assoc.
Qed.

Lemma fold_log_now (l : list (Stream * string)) w :
  now (fold_left (fun w' p => log (EvPrint (fst p) (snd p)) w') l w) = now w.
Proof. revert w. induction l; intros w; simpl; auto. now rewrite IHl. Qed.

Lemma fold_log_net (l : list (Stream * string)) w :
  net (fold_left (fun w' p => log (EvPrint (fst p) (snd p)) w') l w) = net w.
Proof. revert w. induction l; intros w; simpl; auto. now rewrite IHl. Qed.

Lemma fold_log_extends ok (l : list (Stream * string)) w :
  extends ok w (fold_left (fun w' p => log (EvPrint (fst p) (snd p)) w') l w).
Proof.
  revert w. induction l as [|p l IH]; intros w; simpl.
  - apply extends_refl.
  - eapply extends_trans; [apply extends_log | apply IH].
Qed.

Lemma tame_call_callback ok cb status : tame ok (call_callback cb status).
Proof.
  intros w. unfold call_callback.
  assert (extends ok w
            (advance (cb_elapsed (cb status))
               (fold_left (fun w' p => log (EvPrint (fst p) (snd p)) w')
                  (cb_prints (cb status)) (log (EvCallback status) w)))).
  { eapply extends_trans; [apply extends_log|].
    eapply extends_trans; [apply fold_log_extends | apply extends_advance]. }
  destruct (cb_raises (cb status)); simpl; auto.
Qed.

Create HintDb tame.
#[local] Hint Resolve tame_ret tame_raise tame_emit tame_print tame_open_read tame_http
  tame_raise_for_status tame_json_of tame_time_sleep tame_call_callback : tame.

Ltac tame_step :=
  lazymatch goal with
  | |- tame _ (bind _ _) => apply tame_bind; [|intros ?]
  | |- tame _ (try_except _ _) => apply tame_try; [|intros ?]
  | |- _ => solve [auto with tame]
  end.

Section Framing.

Variable rt : Runtime.

Lemma tame_subscript ok v key : tame ok (subscript rt v key).
Proof.
  unfold subscript. destruct v; try apply tame_raise.
  destruct (assoc key kvs); [apply tame_ret | apply tame_raise].
Qed.

Lemma tame_dict_get ok v key d : tame ok (dict_get rt v key d).
Proof.
  unfold dict_get. destruct v; try apply tame_raise. apply tame_ret.
Qed.

Lemma tame_job_id_of ok resp : tame ok (job_id_of rt resp).
Proof.
  unfold job_id_of. repeat tame_step. apply tame_subscript.
Qed.

Lemma tame_custom_voice ok self text speaker language instruct :
  tame ok (custom_voice rt self text speaker language instruct).
Proof. unfold custom_voice. repeat tame_step. apply tame_job_id_of. Qed.

Lemma tame_voice_clone ok self text audio language ref_text x instruct :
  tame ok (voice_clone rt self text audio language ref_text x instruct).
Proof. unfold voice_clone. repeat tame_step. apply tame_job_id_of. Qed.

Lemma tame_get_job_status ok self job_id : tame ok (get_job_status rt self job_id).
Proof. unfold get_job_status. repeat tame_step. Qed.

Lemma tame_download_audio (ok : string -> bool) self url out :
  ok out = true -> tame ok (download_audio rt self url out).
Proof.
  intros Hok. unfold download_audio.
  destruct url; try apply tame_raise.
  repeat tame_step. now apply tame_write_file.
Qed.

Lemma tame_has_audio ok status : tame ok (has_audio rt status).
Proof.
  unfold has_audio. apply tame_bind; [apply tame_subscript|intros s].
  destruct (is_str _ s); [|apply tame_ret].
  apply tame_bind; [apply tame_dict_get | intros; apply tame_ret].
Qed.

End Framing.

(** ** The polling loop, one round at a time *)

Section Polling.

Variable rt : Runtime.
Variable self : Text2SpeechClient.
Variable job_id : JVal.

Lemma get_job_status_fetched w st :
  fetched (next_reply rt self job_id w) = Some st ->
  get_job_status rt self job_id w = (Val st, after_poll rt self job_id w).
Proof.
  unfold fetched, get_job_status, bind, http, after_poll, next_reply.
  destruct (answer _) as [msg|resp]; [discriminate|].
  unfold raise_for_status.
  destruct ((400 <=? status_code resp) && (status_code resp <? 600)) eqn:E; [discriminate|].
  apply andb_false_iff in E.
  destruct ((400 <=? status_code resp) && (status_code resp <? 500)) eqn:E1.
  { apply andb_true_iff in E1. destruct E as [E|E]; lia. }
  destruct ((500 <=? status_code resp) && (status_code resp <? 600)) eqn:E2.
  { apply andb_true_iff in E2. destruct E as [E|E]; lia. }
  unfold json_of, ret. destruct (resp_json resp); [discriminate|].
  now intros [= ->].
Qed.

Lemma get_job_status_failed w :
  fetched (next_reply rt self job_id w) = None ->
  exists e, get_job_status rt self job_id w = (Raise e, after_poll rt self job_id w).
Proof.
  unfold fetched, get_job_status, bind, http, after_poll, next_reply.
  destruct (answer _) as [msg|resp]; [eexists; reflexivity|].
  unfold raise_for_status.
  destruct ((400 <=? status_code resp) && (status_code resp <? 600)) eqn:E.
  - intros _.
    destruct ((400 <=? status_code resp) && (status_code resp <? 500)) eqn:E1;
      [eexists; reflexivity|].
    destruct ((500 <=? status_code resp) && (status_code resp <? 600)) eqn:E2;
      [eexists; reflexivity|].
    apply andb_true_iff in E. apply andb_false_iff in E1, E2. lia.
  - apply andb_false_iff in E.
    destruct ((400 <=? status_code resp) && (status_code resp <? 500)) eqn:E1.
    { apply andb_true_iff in E1. destruct E as [E|E]; lia. }
    destruct ((500 <=? status_code resp) && (status_code resp <? 600)) eqn:E2.
    { apply andb_true_iff in E2. destruct E as [E|E]; lia. }
    unfold json_of, ret, raise. destruct (resp_json resp); [|discriminate].
    intros _. eexists; reflexivity.
Qed.

Lemma after_callback_trace cb status w :
  trace (after_callback cb status w) = trace w ++ callback_events cb status.
Proof.
  unfold after_callback, run_callback, callback_events.
  destruct cb as [f|]; simpl; [|now rewrite app_nil_r].
  unfold call_callback.
  destruct (cb_raises (f status)); simpl; rewrite fold_log_trace; simpl;
    now rewrite <- app_assoc.
Qed.

Lemma run_callback_passive cb status w :
  passive cb status ->
  run_callback cb status w = (Val status, after_callback cb status w).
Proof.
  unfold after_callback, run_callback, passive.
  destruct cb as [f|]; [|reflexivity].
  unfold call_callback. intros [-> ->]. reflexivity.
Qed.

Lemma run_callback_cases cb status w :
  (exists st', run_callback cb status w = (Val st', after_callback cb status w))
  \/ (exists e, run_callback cb status w = (Raise e, after_callback cb status w)
                /\ ~ passive cb status).
Proof.
  unfold after_callback, run_callback, passive.
  destruct cb as [f|]; [|left; eexists; reflexivity].
  unfold call_callback. destruct (cb_raises (f status)) eqn:E; simpl.
  - right. eexists. split; [reflexivity|]. intros [H _]. discriminate.
  - left. eexists. reflexivity.
Qed.

Lemma tame_run_callback ok cb status : tame ok (run_callback cb status).
Proof. destruct cb; simpl; auto with tame. Qed.

Lemma subscript_status st w :
  subscript rt st "status" w =
  (match status_field st with
   | Some s => Val s
   | None => Raise (subscript_error rt st "status")
   end, w).
Proof.
  unfold subscript, status_field, subscript_error.
  destruct st; try reflexivity.
  destruct (assoc "status" kvs); reflexivity.
Qed.

(** One round of the loop, spelled out. *)
Lemma wait_loop_S fuel start poll_interval timeout cb w :
  wait_loop rt (S fuel) self start job_id poll_interval timeout cb w =
  if now w - start <? timeout then
    match get_job_status rt self job_id w with
    | (Val st, w1) =>
        match run_callback cb st w1 with
        | (Val st', w2) =>
            match status_field st' with
            | Some s =>
                if in_terminal s then (Val st', w2)
                else if poll_interval <? 0 then
                  (Raise (mkExn ValueError "sleep length must be non-negative"), w2)
                else wait_loop rt fuel self start job_id poll_interval timeout cb
                       (slept poll_interval w2)
            | None => (Raise (subscript_error rt st' "status"), w2)
            end
        | (Raise e, w2) => (Raise e, w2)
        | (Exit c, w2) => (Exit c, w2)
        | (OutOfFuel, w2) => (OutOfFuel, w2)
        end
    | (Raise e, w1) => (Raise e, w1)
    | (Exit c, w1) => (Exit c, w1)
    | (OutOfFuel, w1) => (OutOfFuel, w1)
    end
  else (Raise (timeout_error rt job_id), w).
Proof.
  cbn [wait_loop]. unfold bind at 1. unfold time_time.
  destruct (now w - start <? timeout); [|reflexivity].
  unfold bind at 1.
  destruct (get_job_status rt self job_id w) as [[st|e|c|] w1]; try reflexivity.
  unfold bind at 1. fold (run_callback cb st).
  destruct (run_callback cb st w1) as [[st'|e|c|] w2]; try reflexivity.
  unfold bind at 1. rewrite subscript_status.
  destruct (status_field st') as [s|]; [|reflexivity].
  destruct (in_terminal s); [reflexivity|].
  unfold bind at 1, time_sleep, slept.
  destruct (poll_interval <? 0); reflexivity.
Qed.

(** With a positive poll interval the loop ends within
    [timeout / poll_interval] rounds, however the service behaves. *)
Lemma wait_loop_tame ok start poll_interval timeout cb :
  0 < poll_interval ->
  forall fuel w,
    timeout - (now w - start) <= Z.of_nat fuel * poll_interval ->
    settled (fst (wait_loop rt (S fuel) self start job_id poll_interval timeout cb w))
    /\ extends ok w
         (snd (wait_loop rt (S fuel) self start job_id poll_interval timeout cb w)).
Proof.
  intros Hpi. induction fuel as [|fuel IH]; intros w Hrem; rewrite wait_loop_S.
  - destruct (Z.ltb_spec (now w - start) timeout); [lia|].
    split; [exact I | apply extends_refl].
  - destruct (Z.ltb_spec (now w - start) timeout);
      [|split; [exact I | apply extends_refl]].
    destruct (tame_get_job_status rt ok self job_id w) as [Hs He].
    destruct (get_job_status rt self job_id w) as [[st|e|c|] w1]; simpl in Hs, He;
      try contradiction; [|split; [exact I | assumption]].
    destruct (tame_run_callback ok cb st w1) as [Hs2 He2].
    destruct (run_callback cb st w1) as [[st'|e|c|] w2]; simpl in Hs2, He2;
      try contradiction;
      [|split; [exact I | eapply extends_trans; eauto]].
    assert (He12 : extends ok w w2) by (eapply extends_trans; eauto).
    destruct (status_field st') as [s|]; [|split; [exact I | assumption]].
    destruct (in_terminal s); [split; [exact I | assumption]|].
    destruct (Z.ltb_spec poll_interval 0); [lia|].
    assert (Hsl : extends ok w2 (slept poll_interval w2)).
    { unfold slept. eapply extends_trans; [apply extends_advance | apply extends_log]. }
    destruct (IH (slept poll_interval w2)) as [Hs3 He3].
    { pose proof (ext_now _ _ _ He12). unfold slept; simpl. lia. }
    split; [assumption|].
    eapply extends_trans; [exact He12|]. eapply extends_trans; eauto.
Qed.

Lemma tame_wait_default ok fuel cb :
  (300 < fuel)%nat ->
  tame ok (wait_for_completion rt fuel self job_id default_poll_interval
             default_timeout cb).
Proof.
  intros Hfuel w. unfold wait_for_completion, bind, time_time.
  destruct fuel as [|fuel]; [lia|].
  apply wait_loop_tame; unfold default_poll_interval, default_timeout; lia.
Qed.

(** *** The shape of a run's trace *)

Lemma app_cons_split {A} (pre post l : list A) (x a : A) :
  pre ++ x :: post = a :: l ->
  (pre = [] /\ x = a /\ post = l)
  \/ (exists pre', pre = a :: pre' /\ pre' ++ x :: post = l).
Proof.
  destruct pre as [|b pre]; simpl; intros [= ? ?]; subst; [left | right; eexists]; auto.
Qed.

Lemma split_past (pre post a b : list Event) (x : Event) :
  forallb (fun e => negb (is_request e)) a = true ->
  is_request x = true ->
  pre ++ x :: post = a ++ b ->
  exists pre', pre' ++ x :: post = b.
Proof.
  revert pre. induction a as [|e a IH]; simpl; intros pre Ha Hx Heq.
  - now exists pre.
  - apply andb_true_iff in Ha. destruct Ha as [He Ha].
    apply app_cons_split in Heq. destruct Heq as [(_ & -> & _)|(pre' & _ & Heq)].
    + rewrite Hx in He. discriminate.
    + eauto.
Qed.

Lemma callback_events_quiet cb st :
  forallb (fun e => negb (is_request e)) (callback_events cb st) = true.
Proof.
  destruct cb as [f|]; simpl; [|reflexivity].
  induction (cb_prints (f st)); simpl; auto.
Qed.

Lemma ends_nil cb out : ends_at_terminal cb [] out.
Proof. intros [|? ?] ? ? ? ? H; discriminate. Qed.

Lemma ends_skip cb e tr out :
  is_request e = false -> ends_at_terminal cb tr out -> ends_at_terminal cb (e :: tr) out.
Proof.
  intros He H pre req rep st post Heq. symmetry in Heq.
  apply app_cons_split in Heq. destruct Heq as [(_ & <- & _)|(pre' & _ & Heq)].
  - discriminate.
  - eapply H; eauto.
Qed.

(** A round whose poll delivered [st0], followed by [rest]. *)
Lemma ends_round cb req0 rep0 st0 rest out :
  fetched rep0 = Some st0 ->
  (is_terminal st0 = true -> passive cb st0 -> out = Val st0 /\ rest = []) ->
  ends_at_terminal cb rest out ->
  ends_at_terminal cb (EvRequest req0 rep0 :: callback_events cb st0 ++ rest) out.
Proof.
  intros Hf Hhead Hrest pre req rep st post Heq Hfe Hte Hpa. symmetry in Heq.
  apply app_cons_split in Heq. destruct Heq as [(_ & Hx & ->)|(pre' & _ & Heq)].
  - injection Hx as -> ->. rewrite Hf in Hfe. injection Hfe as <-.
    destruct (Hhead Hte Hpa) as [-> ->]. now rewrite app_nil_r.
  - apply split_past in Heq; [|apply callback_events_quiet|reflexivity].
    destruct Heq as [pre'' Heq]. eapply Hrest; eauto.
Qed.

(** A round whose poll delivered nothing. *)
Lemma ends_failed cb req0 rep0 out :
  fetched rep0 = None -> ends_at_terminal cb [EvRequest req0 rep0] out.
Proof.
  intros Hf pre req rep st post Heq Hfe. symmetry in Heq.
  apply app_cons_split in Heq. destruct Heq as [(_ & Hx & _)|(pre' & _ & Heq)].
  - injection Hx as -> ->. congruence.
  - destruct pre'; discriminate.
Qed.

Lemma after_poll_trace w :
  trace (after_poll rt self job_id w)
  = trace w ++ [EvRequest (status_request rt self job_id) (next_reply rt self job_id w)].
Proof. reflexivity. Qed.

Lemma is_terminal_field st s :
  status_field st = Some s -> is_terminal st = in_terminal s.
Proof. unfold is_terminal. now intros ->. Qed.

Lemma wait_loop_ends start poll_interval timeout cb fuel :
  forall w out w',
    wait_loop rt fuel self start job_id poll_interval timeout cb w = (out, w') ->
    exists tr, trace w' = trace w ++ tr /\ ends_at_terminal cb tr out.
Proof.
  induction fuel as [|fuel IH]; intros w out w' H.
  { injection H as <- <-. exists []. split; [now rewrite app_nil_r | apply ends_nil]. }
  rewrite wait_loop_S in H.
  destruct (now w - start <? timeout).
  2:{ injection H as <- <-. exists []. split; [now rewrite app_nil_r | apply ends_nil]. }
  destruct (fetched (next_reply rt self job_id w)) as [st0|] eqn:Hf.
  2:{ destruct (get_job_status_failed w Hf) as [e He]. rewrite He in H.
      injection H as <- <-. eexists. split; [apply after_poll_trace|].
      now apply ends_failed. }
  rewrite (get_job_status_fetched w st0 Hf) in H.
  pose proof (after_callback_trace cb st0 (after_poll rt self job_id w)) as Htr.
  rewrite after_poll_trace, <- app_assoc in Htr. simpl in Htr.
  destruct (run_callback_cases cb st0 (after_poll rt self job_id w)) as [[st' Hcb]|[e [Hcb Hnp]]];
    rewrite Hcb in H.
  2:{ injection H as <- <-. eexists. split; [exact Htr|].
      rewrite <- (app_nil_r (callback_events cb st0)).
      apply ends_round; auto using ends_nil. intros _ Hpa. contradiction. }
  assert (Hsame : passive cb st0 -> st' = st0).
  { intros Hpa. rewrite (run_callback_passive cb st0 (after_poll rt self job_id w) Hpa) in Hcb.
    now injection Hcb. }
  destruct (status_field st') as [s|] eqn:Hsf.
  2:{ injection H as <- <-. eexists. split; [exact Htr|].
      rewrite <- (app_nil_r (callback_events cb st0)).
      apply ends_round; auto using ends_nil. intros Hte Hpa.
      rewrite <- (Hsame Hpa) in Hte. unfold is_terminal in Hte.
      rewrite Hsf in Hte. discriminate. }
  destruct (in_terminal s) eqn:Hterm.
  { injection H as <- <-. eexists. split; [exact Htr|].
    rewrite <- (app_nil_r (callback_events cb st0)).
    apply ends_round; auto using ends_nil. intros _ Hpa.
    now rewrite (Hsame Hpa). }
  assert (Hno : is_terminal st0 = true -> passive cb st0 -> False).
  { intros Hte Hpa. rewrite <- (Hsame Hpa) in Hte.
    rewrite (is_terminal_field _ _ Hsf) in Hte. congruence. }
  destruct (poll_interval <? 0).
  { injection H as <- <-. eexists. split; [exact Htr|].
    rewrite <- (app_nil_r (callback_events cb st0)).
    apply ends_round; auto using ends_nil. intros Hte Hpa.
    destruct (Hno Hte Hpa). }
  apply IH in H. destruct H as (tr & Htr' & Hends).
  exists (EvRequest (status_request rt self job_id) (next_reply rt self job_id w)
            :: callback_events cb st0 ++ EvSleep poll_interval :: tr).
  split.
  - rewrite Htr'. unfold slept. simpl. rewrite Htr.
    rewrite <- app_assoc. simpl. rewrite <- app_assoc. reflexivity.
  - apply ends_round; auto.
    + intros Hte Hpa. destruct (Hno Hte Hpa).
    + now apply ends_skip.
Qed.

(** *** What the callback gets to see *)

Lemma observed_app a b : observed (a ++ b) = observed a ++ observed b.
Proof. apply flat_map_app. Qed.

Lemma polled_app a b : polled (a ++ b) = polled a ++ polled b.
Proof. apply flat_map_app. Qed.

Lemma observed_callback_events f st : observed (callback_events (Some f) st) = [st].
Proof.
  simpl. f_equal. induction (cb_prints (f st)); simpl; auto.
Qed.

Lemma polled_callback_events cb st : polled (callback_events cb st) = [].
Proof.
  destruct cb as [f|]; simpl; auto. induction (cb_prints (f st)); simpl; auto.
Qed.

Lemma wait_loop_observed start poll_interval timeout f fuel :
  forall w out w',
    wait_loop rt fuel self start job_id poll_interval timeout (Some f) w = (out, w') ->
    exists tr, trace w' = trace w ++ tr /\ observed tr = polled tr.
Proof.
  induction fuel as [|fuel IH]; intros w out w' H.
  { injection H as <- <-. exists []. split; [now rewrite app_nil_r | reflexivity]. }
  rewrite wait_loop_S in H.
  destruct (now w - start <? timeout).
  2:{ injection H as <- <-. exists []. split; [now rewrite app_nil_r | reflexivity]. }
  destruct (fetched (next_reply rt self job_id w)) as [st0|] eqn:Hf.
  2:{ destruct (get_job_status_failed w Hf) as [e He]. rewrite He in H.
      injection H as <- <-. eexists. split; [apply after_poll_trace|].
      simpl. now rewrite Hf. }
  rewrite (get_job_status_fetched w st0 Hf) in H.
  pose proof (after_callback_trace (Some f) st0 (after_poll rt self job_id w)) as Htr.
  rewrite after_poll_trace, <- app_assoc in Htr.
  assert (Hround : observed ([EvRequest (status_request rt self job_id) (next_reply rt self job_id w)]
                             ++ callback_events (Some f) st0)
                   = polled ([EvRequest (status_request rt self job_id) (next_reply rt self job_id w)]
                             ++ callback_events (Some f) st0)).
  { rewrite observed_app, polled_app, observed_callback_events, polled_callback_events.
    simpl. now rewrite Hf. }
  destruct (run_callback_cases (Some f) st0 (after_poll rt self job_id w)) as [[st' Hcb]|[e [Hcb _]]];
    rewrite Hcb in H.
  2:{ injection H as <- <-. eauto. }
  destruct (status_field st') as [s|]; [|injection H as <- <-; eauto].
  destruct (in_terminal s); [injection H as <- <-; eauto|].
  destruct (poll_interval <? 0); [injection H as <- <-; eauto|].
  apply IH in H. destruct H as (tr & Htr' & Hobs).
  exists (([EvRequest (status_request rt self job_id) (next_reply rt self job_id w)]
            ++ callback_events (Some f) st0) ++ EvSleep poll_interval :: tr).
  split.
  - rewrite Htr'. unfold slept. simpl trace. rewrite Htr.
    rewrite <- !app_assoc. reflexivity.
  - rewrite observed_app, polled_app, Hround. simpl. now rewrite Hobs.
Qed.

(** *** A callback that keeps out of the way changes nothing *)

Lemma on_wire_app a b : on_wire (a ++ b) = on_wire a ++ on_wire b.
Proof. apply filter_app. Qed.

Lemma on_wire_quiet l :
  forallb (fun e => negb (is_request e)) l = true -> on_wire l = [].
Proof.
  induction l as [|e l IH]; simpl; auto.
  intros H. apply andb_true_iff in H. destruct H as [He Hl].
  destruct (is_request e); [discriminate | auto].
Qed.

Lemma same_view_poll w v : same_view w v -> next_reply rt self job_id w = next_reply rt self job_id v.
Proof. intros (Hn & Hs & Ht). unfold next_reply. now rewrite Hn, Hs, Ht. Qed.

Lemma same_view_after_poll w v : same_view w v -> same_view (after_poll rt self job_id w) (after_poll rt self job_id v).
Proof.
  intros Hv. pose proof (same_view_poll w v Hv) as Hr.
  destruct Hv as (Hn & Hs & Ht). unfold same_view, after_poll. simpl.
  rewrite !on_wire_app, Hr, Hn, Hs, Ht. auto.
Qed.

Lemma same_view_callback f st w v :
  unobtrusive f -> same_view w v -> same_view (after_callback (Some f) st w) v.
Proof.
  intros Hf (Hn & Hs & Ht). destruct (Hf st) as (Hr & Hl & He).
  unfold same_view. rewrite after_callback_trace, on_wire_app.
  rewrite (on_wire_quiet _ (callback_events_quiet (Some f) st)), app_nil_r.
  unfold after_callback, run_callback, call_callback. rewrite Hr, He. simpl.
  rewrite fold_log_now, fold_log_net. simpl. repeat split; auto. lia.
Qed.

Lemma same_view_slept ms w v : same_view w v -> same_view (slept ms w) (slept ms v).
Proof.
  intros (Hn & Hs & Ht). unfold same_view, slept. simpl.
  rewrite !on_wire_app, Hn, Hs, Ht. auto.
Qed.

Lemma wait_loop_unobtrusive start poll_interval timeout f fuel :
  unobtrusive f ->
  forall w v,
    same_view w v ->
    fst (wait_loop rt fuel self start job_id poll_interval timeout (Some f) w)
    = fst (wait_loop rt fuel self start job_id poll_interval timeout None v)
    /\ same_view
         (snd (wait_loop rt fuel self start job_id poll_interval timeout (Some f) w))
         (snd (wait_loop rt fuel self start job_id poll_interval timeout None v)).
Proof.
  intros Hf. induction fuel as [|fuel IH]; intros w v Hv.
  { simpl. auto. }
  rewrite !wait_loop_S.
  assert (Hn : now w = now v) by apply Hv. rewrite Hn.
  destruct (now v - start <? timeout); [|simpl; auto].
  pose proof (same_view_poll w v Hv) as Hr.
  pose proof (same_view_after_poll w v Hv) as Hv1.
  destruct (fetched (next_reply rt self job_id w)) as [st|] eqn:Hfe.
  2:{ destruct (get_job_status_failed w Hfe) as [e He].
      rewrite Hr in Hfe. destruct (get_job_status_failed v Hfe) as [e' He'].
      rewrite He, He'. simpl. split; auto.
      revert He He'. unfold get_job_status, bind, http. fold (next_reply rt self job_id w) (next_reply rt self job_id v).
      rewrite Hr. destruct (answer (next_reply rt self job_id v)); [congruence|].
      destruct (raise_for_status r _) as [[| | |] ?] eqn:E1;
        destruct (raise_for_status r (log _ (advance _ v))) as [[| | |] ?] eqn:E2;
        unfold raise_for_status in E1, E2;
        repeat (destruct (_ && _) in E1, E2); unfold raise, ret in E1, E2;
        try congruence;
        unfold json_of, raise, ret; destruct (resp_json r); congruence. }
  rewrite (get_job_status_fetched w st Hfe).
  rewrite Hr in Hfe. rewrite (get_job_status_fetched v st Hfe).
  assert (Hpa : passive (Some f) st) by (destruct (Hf st) as (? & ? & ?); split; auto).
  rewrite (run_callback_passive (Some f) st _ Hpa). simpl run_callback. unfold ret.
  pose proof (same_view_callback f st _ _ Hf Hv1) as Hv2.
  destruct (status_field st) as [s|]; [|simpl; auto].
  destruct (in_terminal s); [simpl; auto|].
  destruct (poll_interval <? 0); [simpl; auto|].
  apply IH. now apply same_view_slept.
Qed.

(** *** A service that never reports a terminal status *)

Lemma wait_loop_times_out start poll_interval timeout cb srv :
  0 < poll_interval ->
  (forall t h,
      t - start < timeout ->
      exists st,
        fetched (srv t h (status_request rt self job_id)) = Some st
        /\ is_pending st = true /\ passive cb st) ->
  forall fuel w,
    net w = srv ->
    timeout - (now w - start) <= Z.of_nat fuel * poll_interval ->
    fst (wait_loop rt (S fuel) self start job_id poll_interval timeout cb w)
    = Raise (timeout_error rt job_id).
Proof.
  intros Hpi Hsrv. induction fuel as [|fuel IH]; intros w Hnet Hrem; rewrite wait_loop_S.
  - destruct (Z.ltb_spec (now w - start) timeout); [lia | reflexivity].
  - destruct (Z.ltb_spec (now w - start) timeout) as [Hlt|]; [|reflexivity].
    destruct (Hsrv (now w) (on_wire (trace w)) Hlt) as (st & Hfe & Hpe & Hpa).
    rewrite <- Hnet in Hfe. fold (next_reply rt self job_id w) in Hfe.
    rewrite (get_job_status_fetched w st Hfe).
    rewrite (run_callback_passive cb st _ Hpa).
    unfold is_pending in Hpe. destruct (status_field st) as [s|]; [|discriminate].
    destruct (in_terminal s); [discriminate|].
    destruct (Z.ltb_spec poll_interval 0); [lia|].
    apply IH.
    + destruct (tame_run_callback (fun _ => false) cb st (after_poll rt self job_id w)) as [_ He].
      fold (after_callback cb st (after_poll rt self job_id w)) in He.
      unfold slept. simpl. rewrite (ext_net _ _ _ He). exact Hnet.
    + destruct (tame_run_callback (fun _ => false) cb st (after_poll rt self job_id w)) as [_ He].
      fold (after_callback cb st (after_poll rt self job_id w)) in He.
      pose proof (ext_now _ _ _ He) as Hnow.
      unfold slept, after_poll in *. cbn [now log advance] in *.
      rewrite Z2N.id by lia. rewrite Nat2Z.inj_succ in Hrem. lia.
Qed.

End Polling.

(** ** Properties of [wait_for_completion] *)

(** C1, as the code has it. Whenever a poll of [wait_for_completion] is
    answered by a status whose [status] field is [completed], [failed] or
    [cancelled], and there is no progress callback or the callback returns
    normally and leaves the dict as it found it, the call returns that very
    status at once: the loop in that state yields it after the one request,
    and in the trace of any run nothing follows such a poll but the
    callback's own events, so no further status request is issued. *)
Theorem wait_returns_at_terminal_poll :
  forall rt self job_id poll_interval timeout cb,
    (forall fuel start w st,
        now w - start < timeout ->
        fetched (next_reply rt self job_id w) = Some st ->
        is_terminal st = true ->
        passive cb st ->
        wait_loop rt (S fuel) self start job_id poll_interval timeout cb w
        = (Val st, after_callback cb st (after_poll rt self job_id w)))
    /\ (forall fuel w out w' pre req rep st post,
           wait_for_completion rt fuel self job_id poll_interval timeout cb w = (out, w') ->
           trace w' = trace w ++ pre ++ EvRequest req rep :: post ->
           fetched rep = Some st ->
           is_terminal st = true ->
           passive cb st ->
           out = Val st /\ post = callback_events cb st).
Proof.
  intros rt self job_id poll_interval timeout cb. split.
  - intros fuel start w st Hnow Hfe Hte Hpa. rewrite wait_loop_S.
    destruct (Z.ltb_spec (now w - start) timeout); [|lia].
    rewrite (get_job_status_fetched rt self job_id w st Hfe).
    rewrite (run_callback_passive cb st _ Hpa).
    unfold is_terminal in Hte. destruct (status_field st); [|discriminate].
    now rewrite Hte.
  - intros fuel w out w' pre req rep st post Hrun Htr Hfe Hte Hpa.
    unfold wait_for_completion, bind, time_time in Hrun.
    apply wait_loop_ends in Hrun. destruct Hrun as (tr & Htr' & Hends).
    rewrite Htr' in Htr. apply app_inv_head in Htr.
    eapply Hends; eauto.
Qed.

Lemma wait_returns_at_terminal_poll_witness :
  let client := new_client API_BASE in
  let job := JStr "j1" in
  let w0 := world_of (service completed) [] in
  let w1 := world_of (service_after 1) [] in
  let first_round :=
    [EvRequest (status_request sample_runtime client job) (ok_json processing);
     EvCallback processing; EvPrint Stdout "."; EvSleep 1000] in
  wait_loop sample_runtime 1 client 0 job 1000 300000 None w0
  = (Val completed, after_callback None completed (after_poll sample_runtime client job w0))
  /\ fst (wait_for_completion sample_runtime 5 client job 1000 300000
            (Some dot_callback) w1) = Val completed
  /\ trace (snd (wait_for_completion sample_runtime 5 client job 1000 300000
                   (Some dot_callback) w1))
     = first_round
         ++ EvRequest (status_request sample_runtime client job) (ok_json completed)
         :: callback_events (Some dot_callback) completed.
Proof.
  intros client job w0 w1 first_round.
  destruct (wait_returns_at_terminal_poll sample_runtime client job 1000 300000 None)
    as [Hstep _].
  destruct (wait_returns_at_terminal_poll sample_runtime client job 1000 300000
              (Some dot_callback)) as [_ Hrun].
  split; [|split].
  - apply Hstep; [reflexivity | reflexivity | reflexivity | exact I].
  - destruct (wait_for_completion sample_runtime 5 client job 1000 300000
                (Some dot_callback) w1) as [out w'] eqn:E.
    assert (Htr : trace w' = trace w1 ++ first_round
                    ++ EvRequest (status_request sample_runtime client job)
                         (ok_json completed)
                    :: callback_events (Some dot_callback) completed).
    { apply (f_equal (fun r => trace (snd r))) in E. simpl in E. rewrite <- E.
      vm_compute. reflexivity. }
    destruct (Hrun 5%nat w1 out w' first_round _ _ completed _ E Htr) as [Hout _];
      [reflexivity | reflexivity | split; reflexivity | exact Hout].
  - vm_compute. reflexivity.
Defined.

(** C1 as stated fails: the terminal test reads the dict after the
    callback has had it. With a callback that overwrites the status, every
    poll is answered [completed] and yet the loop polls on, three times in
    all, until the deadline ends it with the timeout error. *)
Lemma terminal_poll_need_not_return :
  let client := new_client API_BASE in
  let w := world_of (service completed) [] in
  let r := wait_for_completion sample_runtime 5 client (JStr "j1") 1000 2500
             (Some relabelling_callback) w in
  is_terminal completed = true
  /\ polled (trace (snd r)) = [completed; completed; completed]
  /\ fst r = Raise (mkExn TimeoutError "Job j1 timeout").
Proof. vm_compute. repeat split; reflexivity. Qed.

(** C10. With a timeout of zero or less, [wait_for_completion] raises the
    timeout error and leaves the world exactly as it found it: the deadline
    is tested before the first poll, so no status request is sent and the
    progress callback is never called. *)
Theorem wait_nonpositive_timeout :
  forall rt self job_id poll_interval timeout cb fuel w,
    timeout <= 0 ->
    wait_for_completion rt (S fuel) self job_id poll_interval timeout cb w
    = (Raise (mkExn TimeoutError ("Job " ++ py_str rt job_id ++ " timeout")%string), w).
Proof.
  intros rt self job_id poll_interval timeout cb fuel w Hto.
  unfold wait_for_completion, bind, time_time. rewrite wait_loop_S.
  destruct (Z.ltb_spec (now w - now w) timeout); [lia | reflexivity].
Qed.

Lemma wait_nonpositive_timeout_witness :
  let w := world_of (service completed) [] in
  0 <= 0
  /\ wait_for_completion sample_runtime 1 (new_client API_BASE) (JStr "j1") 1000 0
       (Some dot_callback) w
     = (Raise (mkExn TimeoutError "Job j1 timeout"), w).
Proof.
  intros w. split; [lia|].
  apply (wait_nonpositive_timeout sample_runtime (new_client API_BASE) (JStr "j1")
           1000 0 (Some dot_callback) 0%nat w).
  lia.
Defined.

(** C9, as the code has it. With a progress callback, every run of
    [wait_for_completion] hands the callback exactly the statuses its polls
    delivered, one call per delivered status and in order, the terminal one
    included. A callback that returns normally, leaves the status dict as
    it found it and takes no time changes neither the outcome nor what the
    service gets to see; nothing shields the loop from a callback that does
    otherwise. *)
Theorem callback_once_per_poll :
  forall rt self job_id poll_interval timeout f fuel w,
    (exists tr,
        trace (snd (wait_for_completion rt fuel self job_id poll_interval timeout
                      (Some f) w)) = trace w ++ tr
        /\ observed tr = polled tr)
    /\ (unobtrusive f ->
        fst (wait_for_completion rt fuel self job_id poll_interval timeout (Some f) w)
        = fst (wait_for_completion rt fuel self job_id poll_interval timeout None w)
        /\ same_view
             (snd (wait_for_completion rt fuel self job_id poll_interval timeout
                     (Some f) w))
             (snd (wait_for_completion rt fuel self job_id poll_interval timeout
                     None w))).
Proof.
  intros rt self job_id poll_interval timeout f fuel w. split.
  - unfold wait_for_completion, bind, time_time.
    destruct (wait_loop rt fuel self (now w) job_id poll_interval timeout (Some f) w)
      as [out w'] eqn:E.
    apply wait_loop_observed in E. exact E.
  - intros Hf. unfold wait_for_completion, bind, time_time.
    apply wait_loop_unobtrusive; [exact Hf|]. repeat split.
Qed.

Lemma callback_once_per_poll_witness :
  let client := new_client API_BASE in
  let w := world_of (service_after 1) [] in
  let with_cb := wait_for_completion sample_runtime 5 client (JStr "j1") 1000 300000
                   (Some dot_callback) w in
  let without := wait_for_completion sample_runtime 5 client (JStr "j1") 1000 300000
                   None w in
  unobtrusive dot_callback
  /\ observed (trace (snd with_cb)) = [processing; completed]
  /\ fst with_cb = fst without
  /\ same_view (snd with_cb) (snd without).
Proof.
  intros client w with_cb without.
  assert (Hf : unobtrusive dot_callback) by (intros st; repeat split).
  destruct (callback_once_per_poll sample_runtime client (JStr "j1") 1000 300000
              dot_callback 5%nat w) as [_ Hsame].
  destruct (Hsame Hf) as [Hout Hview].
  split; [exact Hf|]. split; [vm_compute; reflexivity|]. split; assumption.
Defined.

(** C9 as stated fails: a callback that raises ends the loop on the spot,
    where the same call without a callback returns the completed status. *)
Lemma callback_can_change_outcome :
  let client := new_client API_BASE in
  let w := world_of (service completed) [] in
  fst (wait_for_completion sample_runtime 5 client (JStr "j1") 1000 300000
         (Some failing_callback) w) = Raise (mkExn ValueError "boom")
  /\ fst (wait_for_completion sample_runtime 5 client (JStr "j1") 1000 300000 None w)
     = Val completed
  /\ fst (wait_for_completion sample_runtime 5 client (JStr "j1") 1000 300000
            (Some failing_callback) w)
     <> fst (wait_for_completion sample_runtime 5 client (JStr "j1") 1000 300000 None w).
Proof.
  intros client w. split; [vm_compute; reflexivity|].
  split; [vm_compute; reflexivity|]. vm_compute. discriminate.
Qed.

(** ** Running commands step by step *)

Lemma bind_val {A B} (m : M A) (k : A -> M B) w a w1 :
  m w = (Val a, w1) -> bind m k w = k a w1.
Proof. unfold bind. now intros ->. Qed.

Lemma bind_raise {A B} (m : M A) (k : A -> M B) w e w1 :
  m w = (Raise e, w1) -> bind m k w = (Raise e, w1).
Proof. unfold bind. now intros ->. Qed.

Lemma bind_exit {A B} (m : M A) (k : A -> M B) w c w1 :
  m w = (Exit c, w1) -> bind m k w = (Exit c, w1).
Proof. unfold bind. now intros ->. Qed.

Lemma bind_print {B} text (k : unit -> M B) w :
  bind (print text) k w = k tt (printed text w).
Proof. reflexivity. Qed.

Section Commands.

Variable rt : Runtime.

Lemma has_audio_completed_no_audio status w :
  completed_no_audio status = true -> has_audio rt status w = (Val false, w).
Proof.
  unfold completed_no_audio, has_audio, bind, subscript, dict_get, ret.
  destruct status; try discriminate.
  destruct (assoc "status" kvs) as [s|]; [|discriminate].
  intros H. apply andb_true_iff in H. destruct H as [-> H].
  apply negb_true_iff in H. now rewrite H.
Qed.

Lemma dict_get_error status w :
  completed_no_audio status = true ->
  dict_get rt status "error" (JStr "Unknown") w = (Val (error_of status), w).
Proof. destruct status; try discriminate. reflexivity. Qed.

(** The [if ... else ...] that closes the single-job commands, on a
    completed status without audio. *)
Lemma closing_branch_fails status output w (client : Text2SpeechClient) :
  completed_no_audio status = true ->
  (ok <- has_audio rt status ;;
   if ok then
     url <- subscript rt status "audio_url" ;;
     download_audio rt client url output ;;;
     print ("✓ Saved: " ++ output)%string
   else
     error <- dict_get rt status "error" (JStr "Unknown") ;;
     eprint ("✗ Failed: " ++ py_str rt error)%string ;;;
     sys_exit 1) w
  = (Exit 1, log (failure_line rt status) w).
Proof.
  intros H. erewrite bind_val by (apply has_audio_completed_no_audio; exact H).
  cbv beta iota.
  erewrite bind_val by (apply dict_get_error; exact H).
  reflexivity.
Qed.


(** C7, as the code has it. When the wait returns a completed status that
    carries no usable [audio_url], [cmd_speak], [cmd_design] and [cmd_clone]
    fall into the general failure branch: they write
    [✗ Failed: <status.get('error', 'Unknown')>] to [stderr] and leave with
    exit code 1, and that line is the last thing they do: no download. *)
Theorem completed_without_audio_fails :
  forall fuel status,
    completed_no_audio status = true ->
    (forall text speaker output language instruct w id w1 w2,
        custom_voice rt (new_client API_BASE) text speaker language instruct
          (printed ("Text: " ++ take_chars 60 text ++ "...")
             (printed ("Generating speech with speaker: " ++ speaker) w))
        = (Val id, w1) ->
        wait_for_completion rt fuel (new_client API_BASE) id default_poll_interval
          default_timeout (Some (show_progress rt))
          (printed ("Job ID: " ++ py_str rt id) w1)
        = (Val status, w2) ->
        cmd_speak rt fuel text speaker output language instruct w
        = (Exit 1, log (failure_line rt status) (printed "" w2)))
    /\ (forall text description output language w id w1 w2,
           voice_design rt (new_client API_BASE) text description language
             (printed ("Text: " ++ take_chars 60 text ++ "...")
                (printed ("Designing voice: " ++ description) w))
           = (Val id, w1) ->
           wait_for_completion rt fuel (new_client API_BASE) id default_poll_interval
             default_timeout None (printed ("Job ID: " ++ py_str rt id) w1)
           = (Val status, w2) ->
           cmd_design rt fuel text description output language w
           = (Exit 1, log (failure_line rt status) w2))
    /\ (forall audio text output ref_text x_vector_only instruct timbre language
               w id w1 w2,
           cmd_clone_submit rt (new_client API_BASE) audio text ref_text x_vector_only
             instruct timbre language w
           = (Val id, w1) ->
           wait_for_completion rt fuel (new_client API_BASE) id default_poll_interval
             default_timeout None
             (printed ("Job ID: " ++ py_str rt id)
                (printed ("Text: " ++ take_chars 60 text ++ "...") w1))
           = (Val status, w2) ->
           cmd_clone rt fuel audio text output ref_text x_vector_only instruct timbre
             language w
           = (Exit 1, log (failure_line rt status) w2)).
Proof.
  intros fuel status Hst. split; [|split].
  - intros text speaker output language instruct w id w1 w2 Hsub Hwait.
    unfold cmd_speak. rewrite !bind_print.
    erewrite bind_val by exact Hsub. rewrite bind_print.
    erewrite bind_val by exact Hwait. rewrite bind_print.
    now apply closing_branch_fails.
  - intros text description output language w id w1 w2 Hsub Hwait.
    unfold cmd_design. rewrite !bind_print.
    erewrite bind_val by exact Hsub. rewrite bind_print.
    erewrite bind_val by exact Hwait.
    now apply closing_branch_fails.
  - intros audio text output ref_text x_vector_only instruct timbre language
           w id w1 w2 Hsub Hwait.
    unfold cmd_clone.
    erewrite bind_val by exact Hsub. rewrite !bind_print.
    erewrite bind_val by exact Hwait.
    now apply closing_branch_fails.
Qed.

End Commands.



Lemma completed_without_audio_fails_witness :
  let client := new_client API_BASE in
  let w := world_of (service completed_bare) [] in
  completed_no_audio completed_bare = true
  /\ fst (cmd_design sample_runtime 5 "hello" "warm" "out.wav" "Auto" w) = Exit 1
  /\ fst (cmd_speak sample_runtime 5 "hello" "vivian" "out.wav" "Auto" None w) = Exit 1.
Proof.
  intros client w.
  destruct (completed_without_audio_fails sample_runtime 5 completed_bare eq_refl)
    as (Hspeak & Hdesign & _).
  split; [reflexivity|]. split.
  - erewrite (Hdesign "hello" "warm" "out.wav" "Auto" w (JStr "j1")).
    + reflexivity.
    + vm_compute. reflexivity.
    + vm_compute. reflexivity.
  - erewrite (Hspeak "hello" "vivian" "out.wav" "Auto" None w (JStr "j1")).
    + reflexivity.
    + vm_compute. reflexivity.
    + vm_compute. reflexivity.
Defined.

(** C7 as stated fails: on a completed status without [audio_url] the
    command reports [Unknown], and nothing it prints mentions
    [no audio produced]. *)
Lemma completed_without_audio_says_unknown :
  let r := cmd_design sample_runtime 5 "hello" "warm" "out.wav" "Auto"
             (world_of (service completed_bare) []) in
  fst r = Exit 1
  /\ filter (fun e => match e with EvPrint Stderr _ => true | _ => false end)
       (trace (snd r))
     = [EvPrint Stderr ("✗ Failed: Unknown" ++ nl)%string]
  /\ forallb (fun e => match e with
                       | EvPrint _ text => negb (contains "no audio produced" text)
                       | _ => true
                       end) (trace (snd r)) = true.
Proof. vm_compute. repeat split; reflexivity. Qed.

(** ** Submissions and downloads *)

(** C5, as the code has it. When nothing is at the path of the reference
    audio, neither a file nor a directory, [voice_clone] raises
    [FileNotFoundError] and leaves the world as it is, so no request is
    sent; [cmd_clone] (without a timbre) exits with code 1 before any
    request; [cmd_batch_clone] first creates the output directory, raising
    [OSError] with nothing done when that fails, and then, the path still
    being empty, exits with code 1 before any request. Nothing checks
    whether a field is empty: the request is sent as given. *)
Theorem missing_audio_fails_before_network :
  forall rt audio w,
    missing w audio ->
    (forall self text language ref_text x_vector_only instruct,
        voice_clone rt self text audio language ref_text x_vector_only instruct w
        = (Raise (mkExn FileNotFoundError
                    ("[Errno 2] No such file or directory: '" ++ audio ++ "'")%string), w))
    /\ (forall fuel text output ref_text x_vector_only instruct timbre language,
           if_set timbre = None ->
           exists w',
             cmd_clone rt fuel audio text output ref_text x_vector_only instruct timbre
               language w = (Exit 1, w')
             /\ on_wire (trace w') = on_wire (trace w))
    /\ (forall fuel input_dir output_dir ref_text language,
           missing (add_dir output_dir w) audio ->
           match write_error w output_dir with
           | Some msg =>
               cmd_batch_clone rt fuel input_dir output_dir audio ref_text language w
               = (Raise (mkExn OSError msg), w)
           | None =>
               exists w',
                 cmd_batch_clone rt fuel input_dir output_dir audio ref_text language w
                 = (Exit 1, w')
                 /\ on_wire (trace w') = on_wire (trace w)
           end).
Proof.
  intros rt audio w [Hfile Hdir]. split; [|split].
  - intros. unfold voice_clone, bind, open_read. now rewrite Hfile, Hdir.
  - intros fuel text output ref_text x_vector_only instruct timbre language Ht.
    assert (Hsub : cmd_clone_submit rt (new_client API_BASE) audio text ref_text
                     x_vector_only instruct timbre language w
                   = (Exit 1, log (EvPrint Stderr
                                     (("✗ Audio file not found: " ++ audio) ++ nl)%string)
                                (printed ("Cloning from: " ++ audio) w))).
    { unfold cmd_clone_submit. rewrite Ht. rewrite bind_print.
      unfold bind, path_exists, printed. rewrite is_dir_log. cbn [files log].
      rewrite Hfile, Hdir. reflexivity. }
    eexists. split.
    + unfold cmd_clone. erewrite bind_exit by exact Hsub. reflexivity.
    + cbn [trace log printed]. rewrite !on_wire_app. simpl. now rewrite !app_nil_r.
  - intros fuel input_dir output_dir ref_text language [Hfile' Hdir'].
    unfold cmd_batch_clone, bind, mkdir, path_exists.
    destruct (write_error w output_dir); [reflexivity|].
    rewrite is_dir_log. cbn [files log].
    rewrite Hfile', Hdir'. eexists. split; [reflexivity|].
    cbn [trace log add_dir]. rewrite !on_wire_app. simpl. now rewrite !app_nil_r.
Qed.

Lemma missing_audio_fails_before_network_witness :
  let w := world_of (service completed) [] in
  missing w "ref.wav"
  /\ voice_clone sample_runtime (new_client API_BASE) "hello" "ref.wav" "Auto" None
       false None w
     = (Raise (mkExn FileNotFoundError
                 "[Errno 2] No such file or directory: 'ref.wav'"), w)
  /\ (exists w',
         cmd_batch_clone sample_runtime 5 "in" "out" "ref.wav" None "Auto" w
         = (Exit 1, w')
         /\ on_wire (trace w') = on_wire (trace w)).
Proof.
  intros w.
  assert (Hm : missing w "ref.wav") by (split; reflexivity).
  destruct (missing_audio_fails_before_network sample_runtime "ref.wav" w Hm)
    as (Hclone & _ & Hbatch).
  split; [exact Hm|]. split; [apply Hclone|].
  assert (Hm' : missing (add_dir "out" w) "ref.wav") by (split; reflexivity).
  exact (Hbatch 5%nat "in" "out" None "Auto" Hm').
Defined.

(** C5 as stated fails: a submission with an empty text is sent to the
    service like any other. *)
Lemma empty_text_is_submitted :
  let r := custom_voice sample_runtime (new_client API_BASE) "" "vivian" "Auto" None
             (world_of (service completed) []) in
  fst r = Val (JStr "j1")
  /\ trace (snd r)
     = [EvRequest
          (POST_json "https://mc.agaii.org/TTS/api/v1/tts/custom-voice"
             (JObj [("text", JStr ""); ("speaker", JStr "vivian");
                    ("language", JStr "Auto")]))
          (ok_json (JObj [("job_id", JStr "j1")]))].
Proof. vm_compute. split; reflexivity. Qed.

(** C6, as the code has it. [download_audio] calls [self.session.get]
    once, and the URL it hands over is: the base URL (as the client keeps
    it, trailing slashes stripped, path included) followed by the audio URL
    when that starts with [/]; the audio URL unchanged when it starts with
    [http]; the base URL, a slash and the audio URL otherwise. What becomes
    of the call (a response, or a failure such as a URL the session
    refuses) is the reply [rep]. *)
Theorem download_fetches_resolved_url :
  forall rt base audio_url output_path w,
    let self := new_client base in
    let url :=
      if startswith "/" audio_url then (rstrip_char "/" base ++ audio_url)%string
      else if startswith "http" audio_url then audio_url
      else (rstrip_char "/" base ++ "/" ++ audio_url)%string in
    exists rep,
      on_wire (trace (snd (download_audio rt self (JStr audio_url) output_path w)))
      = on_wire (trace w) ++ [EvRequest (GET url) rep].
Proof.
  intros rt base audio_url output_path w self url.
  exists (net w (now w) (on_wire (trace w)) (GET url)).
  assert (Hurl : resolve_audio_url self audio_url = url).
  { unfold resolve_audio_url, url, self. simpl.
    destruct (startswith "/" audio_url); auto.
    destruct (startswith "http" audio_url); auto. }
  unfold download_audio. rewrite Hurl. unfold bind, http.
  destruct (answer (net w (now w) (on_wire (trace w)) (GET url))) as [msg|resp];
    [simpl; now rewrite on_wire_app|].
  unfold raise_for_status.
  destruct (_ && _); [simpl; now rewrite on_wire_app|].
  destruct (_ && _); [simpl; now rewrite on_wire_app|].
  unfold ret, write_file. cbn [write_error log advance].
  destruct (write_error w output_path); simpl; rewrite !on_wire_app; simpl;
    rewrite ?app_nil_r; reflexivity.
Qed.

(** C6 as stated fails: a URL starting with [/] is appended to the whole
    base URL, not to its scheme and host. *)
Lemma slash_url_keeps_base_path :
  resolve_audio_url (new_client API_BASE) "/files/j1.wav"
  = "https://mc.agaii.org/TTS/api/v1/files/j1.wav"
  /\ resolve_by_origin API_BASE "/files/j1.wav" = "https://mc.agaii.org/files/j1.wav"
  /\ resolve_audio_url (new_client API_BASE) "/files/j1.wav"
     <> resolve_by_origin API_BASE "/files/j1.wav".
Proof. vm_compute. repeat split; try reflexivity. discriminate. Qed.

(** ** Text mode and white space *)

Ltac bool_facts H :=
  repeat (rewrite ?orb_true_iff, ?andb_true_iff, ?Nat.leb_le, ?Nat.eqb_eq in H).

Lemma eqb_code a n :
  (n < 256)%nat -> Ascii.eqb a (ascii_of_nat n) = Nat.eqb (nat_of_ascii a) n.
Proof.
  intros Hn. destruct (Ascii.eqb_spec a (ascii_of_nat n)) as [->|Hne].
  - rewrite nat_ascii_embedding by exact Hn. symmetry. apply Nat.eqb_refl.
  - symmetry. apply Nat.eqb_neq. intros H. apply Hne. rewrite <- H.
    symmetry. apply ascii_nat_embedding.
Qed.

Lemma width_ws1 a r : is_ws1 (nat_of_ascii a) = true -> width_at (a :: r) = 1%nat.
Proof. intros H. unfold width_at. cbn [firstn map ws_width]. now rewrite H. Qed.

Lemma width_other a r :
  is_ws1 (nat_of_ascii a) = false ->
  width_at (a :: r)
  = match r with
    | d :: r1 =>
        if is_ws2 (nat_of_ascii a) (nat_of_ascii d) then 2%nat
        else match r1 with
             | e :: _ =>
                 if is_ws3 (nat_of_ascii a) (nat_of_ascii d) (nat_of_ascii e) then 3%nat
                 else 0%nat
             | [] => 0%nat
             end
    | [] => 0%nat
    end.
Proof.
  intros H. unfold width_at. destruct r as [|d [|e r2]]; cbn [firstn map ws_width];
    rewrite H; reflexivity.
Qed.

Lemma Blank_ws1 a r : is_ws1 (nat_of_ascii a) = true -> (Blank (a :: r) <-> Blank r).
Proof.
  intros H. split.
  - intros Hb. inversion Hb as [|l k Hw Hr]; subst.
    rewrite (width_ws1 _ _ H) in Hw. injection Hw as <-. exact Hr.
  - intros Hb. apply (Blank_step (a :: r) 0); [now apply width_ws1 | exact Hb].
Qed.

Lemma Blank_other a r :
  is_ws1 (nat_of_ascii a) = false ->
  (Blank (a :: r)
   <-> (exists d r1, r = d :: r1
                     /\ is_ws2 (nat_of_ascii a) (nat_of_ascii d) = true /\ Blank r1)
       \/ (exists d e r2, r = d :: e :: r2
                          /\ is_ws2 (nat_of_ascii a) (nat_of_ascii d) = false
                          /\ is_ws3 (nat_of_ascii a) (nat_of_ascii d) (nat_of_ascii e) = true
                          /\ Blank r2)).
Proof.
  intros H. split.
  - intros Hb. inversion Hb as [|l k Hw Hr]; subst.
    rewrite (width_other _ _ H) in Hw.
    destruct r as [|d r1]; [discriminate|].
    destruct (is_ws2 (nat_of_ascii a) (nat_of_ascii d)) eqn:E2.
    + injection Hw as <-. left. exists d, r1. auto.
    + destruct r1 as [|e r2]; [discriminate|].
      destruct (is_ws3 (nat_of_ascii a) (nat_of_ascii d) (nat_of_ascii e)) eqn:E3;
        [|discriminate].
      injection Hw as <-. right. exists d, e, r2. auto.
  - intros [(d & r1 & -> & E2 & Hb)|(d & e & r2 & -> & E2 & E3 & Hb)].
    + apply (Blank_step _ 1); [|exact Hb]. rewrite (width_other _ _ H). now rewrite E2.
    + apply (Blank_step _ 2); [|exact Hb]. rewrite (width_other _ _ H).
      now rewrite E2, E3.
Qed.

Lemma ws2_no_newline c d : is_ws2 c d = true -> d <> 10%nat /\ d <> 13%nat.
Proof. intros H. unfold is_ws2 in H. bool_facts H. lia. Qed.

Lemma ws3_no_newline c d e :
  is_ws3 c d e = true -> (d <> 10 /\ d <> 13 /\ e <> 10 /\ e <> 13)%nat.
Proof. intros H. unfold is_ws3 in H. bool_facts H. lia. Qed.

Lemma newlines_plain a r :
  nat_of_ascii a <> 13%nat -> newlines (a :: r) = a :: newlines r.
Proof.
  intros H. cbn [newlines]. rewrite eqb_code by lia.
  apply Nat.eqb_neq in H. now rewrite H.
Qed.

Lemma newlines_head r d t :
  newlines r = d :: t ->
  nat_of_ascii d <> 10%nat ->
  nat_of_ascii d <> 13%nat /\ exists r1, r = d :: r1 /\ t = newlines r1.
Proof.
  destruct r as [|a r1]; [discriminate|]. intros Hn Hd.
  destruct (Nat.eq_dec (nat_of_ascii a) 13) as [Ha|Ha].
  - exfalso. cbn [newlines] in Hn. rewrite eqb_code in Hn by lia.
    apply Nat.eqb_eq in Ha. rewrite Ha in Hn.
    destruct r1 as [|b r2].
    + injection Hn as <- _. now rewrite nat_ascii_embedding in Hd by lia.
    + rewrite eqb_code in Hn by lia.
      destruct (Nat.eqb_spec (nat_of_ascii b) 10) as [Hb|Hb].
      * rewrite newlines_plain in Hn by lia. injection Hn as <- _. contradiction.
      * injection Hn as <- _. now rewrite nat_ascii_embedding in Hd by lia.
  - rewrite newlines_plain in Hn by exact Ha. injection Hn as -> <-.
    split; [exact Ha|]. now exists r1.
Qed.

Lemma Blank_newlines n :
  forall l, (List.length l <= n)%nat -> (Blank (newlines l) <-> Blank l).
Proof.
  induction n as [|n IH]; intros l Hlen.
  { destruct l; [reflexivity | simpl in Hlen; lia]. }
  destruct l as [|a r]; [reflexivity|]. cbn [List.length] in Hlen.
  assert (IHr : Blank (newlines r) <-> Blank r) by (apply IH; lia).
  assert (Hlf : is_ws1 (nat_of_ascii (ascii_of_nat 10)) = true) by reflexivity.
  destruct (Nat.eq_dec (nat_of_ascii a) 13) as [Ha|Ha].
  - assert (Hws : is_ws1 (nat_of_ascii a) = true) by (rewrite Ha; reflexivity).
    rewrite (Blank_ws1 a r Hws).
    cbn [newlines]. rewrite eqb_code by lia.
    apply Nat.eqb_eq in Ha. rewrite Ha.
    destruct r as [|b r2].
    + rewrite (Blank_ws1 _ [] Hlf). reflexivity.
    + rewrite eqb_code by lia. destruct (nat_of_ascii b =? 10)%nat; [exact IHr|].
      rewrite (Blank_ws1 _ _ Hlf). exact IHr.
  - rewrite newlines_plain by exact Ha.
    destruct (is_ws1 (nat_of_ascii a)) eqn:Hws.
    + rewrite !(Blank_ws1 a _ Hws). exact IHr.
    + rewrite !(Blank_other a _ Hws). split.
      * intros [(d & t & Hn & E2 & Hb)|(d & e & t & Hn & E2 & E3 & Hb)].
        -- destruct (ws2_no_newline _ _ E2) as [Hd _].
           destruct (newlines_head _ _ _ Hn Hd) as (_ & r1 & -> & ->).
           left. exists d, r1. repeat split; auto.
           apply (IH r1); [simpl in Hlen; lia | exact Hb].
        -- destruct (ws3_no_newline _ _ _ E3) as (Hd & _ & He & _).
           destruct (newlines_head _ _ _ Hn Hd) as (_ & r1 & -> & Hn1).
           symmetry in Hn1.
           destruct (newlines_head _ _ _ Hn1 He) as (_ & r2 & -> & ->).
           right. exists d, e, r2. repeat split; auto.
           apply (IH r2); [simpl in Hlen; lia | exact Hb].
      * intros [(d & r1 & -> & E2 & Hb)|(d & e & r2 & -> & E2 & E3 & Hb)].
        -- destruct (ws2_no_newline _ _ E2) as [_ Hd].
           left. exists d, (newlines r1). rewrite newlines_plain by exact Hd.
           repeat split; auto. apply (IH r1); [simpl in Hlen; lia | exact Hb].
        -- destruct (ws3_no_newline _ _ _ E3) as (_ & Hd & _ & He).
           right. exists d, e, (newlines r2).
           rewrite newlines_plain by exact Hd. rewrite newlines_plain by exact He.
           repeat split; auto. apply (IH r2); [simpl in Hlen; lia | exact Hb].
Qed.

Lemma drop_ws_Blank fuel :
  forall l, (List.length l <= fuel)%nat -> (drop_ws ws_width fuel l = [] <-> Blank l).
Proof.
  induction fuel as [|fuel IH]; intros l Hlen.
  { destruct l; [|simpl in Hlen; lia]. split; [constructor | reflexivity]. }
  cbn [drop_ws]. fold (width_at l).
  destruct (width_at l) as [|k] eqn:Hw.
  - split.
    + intros ->. constructor.
    + intros Hb. inversion Hb as [|l' k' Hw' _]; subst; [reflexivity | congruence].
  - assert (Hs : (List.length (skipn (S k) l) <= fuel)%nat).
    { rewrite length_skipn. lia. }
    rewrite (IH _ Hs). split.
    + intros Hb. now apply (Blank_step l k).
    + intros Hb. inversion Hb as [|l' k' Hw' Hr]; subst; [discriminate|].
      rewrite Hw in Hw'. injection Hw' as <-. exact Hr.
Qed.

Lemma drop_ws_stuck fuel :
  forall l, (List.length l <= fuel)%nat -> width_at (drop_ws ws_width fuel l) = 0%nat.
Proof.
  induction fuel as [|fuel IH]; intros l Hlen.
  { destruct l; [reflexivity | simpl in Hlen; lia]. }
  cbn [drop_ws]. fold (width_at l).
  destruct (width_at l) as [|k] eqn:Hw; [exact Hw|].
  apply IH. rewrite length_skipn. lia.
Qed.

Lemma width_prefix a b : width_at a <> 0%nat -> width_at (a ++ b) <> 0%nat.
Proof.
  unfold width_at.
  destruct a as [|x [|y [|z a]]]; cbn [app firstn map ws_width]; try congruence.
  - destruct (is_ws1 (nat_of_ascii x)); [discriminate | congruence].
  - destruct (is_ws1 (nat_of_ascii x)); [discriminate|].
    destruct (is_ws2 (nat_of_ascii x) (nat_of_ascii y)); [discriminate | congruence].
Qed.

Lemma rev_consumed fuel :
  forall r, drop_ws ws_width_rev fuel r = [] -> r <> [] -> width_at (rev r) <> 0%nat.
Proof.
  induction fuel as [|fuel IH]; intros r H Hne; [contradiction|].
  cbn [drop_ws] in H.
  destruct (ws_width_rev (map nat_of_ascii (firstn 3 r))) as [|k] eqn:Hw;
    [contradiction|].
  destruct (skipn (S k) r) as [|x r'] eqn:Hs.
  - clear H IH. unfold width_at.
    destruct r as [|e [|d [|c r3]]]; [contradiction| | |];
      cbn [firstn map ws_width_rev] in Hw; cbn [rev app firstn map ws_width].
    + destruct (is_ws1 (nat_of_ascii e)); discriminate.
    + destruct (is_ws1 (nat_of_ascii e)) eqn:E1.
      { injection Hw as <-. discriminate. }
      destruct (is_ws2 (nat_of_ascii d) (nat_of_ascii e)) eqn:E2; [|discriminate].
      destruct (is_ws1 (nat_of_ascii d)); discriminate.
    + destruct (is_ws1 (nat_of_ascii e)) eqn:E1.
      { injection Hw as <-. discriminate. }
      destruct (is_ws2 (nat_of_ascii d) (nat_of_ascii e)) eqn:E2.
      { injection Hw as <-. discriminate. }
      destruct (is_ws3 (nat_of_ascii c) (nat_of_ascii d) (nat_of_ascii e)) eqn:E3;
        [|discriminate].
      injection Hw as <-. cbn [skipn] in Hs. subst r3.
      cbn [rev app firstn map ws_width]. rewrite ?E3.
      destruct (is_ws1 (nat_of_ascii c)); [discriminate|].
      destruct (is_ws2 (nat_of_ascii c) (nat_of_ascii d)); discriminate.
  - rewrite <- (firstn_skipn (S k) r), Hs, rev_app_distr.
    apply width_prefix. apply IH; [exact H | discriminate].
Qed.

Lemma strip_empty_iff s : strip s = ""%string <-> Blank (list_ascii_of_string s).
Proof.
  unfold strip. set (l := list_ascii_of_string s).
  pose proof (drop_ws_Blank (List.length l) l (Nat.le_refl _)) as Hb.
  pose proof (drop_ws_stuck (List.length l) l (Nat.le_refl _)) as Hstuck.
  set (l1 := drop_ws ws_width (List.length l) l) in *.
  split.
  - intros H. apply Hb.
    apply (f_equal list_ascii_of_string) in H.
    rewrite list_ascii_of_string_of_list_ascii in H. cbn in H.
    apply (f_equal (@rev ascii)) in H. rewrite rev_involutive in H. cbn in H.
    destruct l1 as [|x l1']; [reflexivity|]. exfalso.
    apply (rev_consumed _ _ H).
    + intros Hr. apply (f_equal (@rev ascii)) in Hr. rewrite rev_involutive in Hr.
      discriminate.
    + rewrite rev_involutive. exact Hstuck.
  - intros H. apply Hb in H. rewrite H. reflexivity.
Qed.

(** Whether a file reads as empty does not depend on its line endings. *)
Lemma text_of_empty raw : String.eqb (text_of raw) "" = String.eqb (strip raw) "".
Proof.
  assert (H : text_of raw = ""%string <-> strip raw = ""%string).
  { unfold text_of. rewrite !strip_empty_iff. unfold universal_newlines.
    rewrite list_ascii_of_string_of_list_ascii.
    apply (Blank_newlines _ _ (Nat.le_refl _)). }
  destruct (String.eqb_spec (text_of raw) ""), (String.eqb_spec (strip raw) "");
    tauto.
Qed.

(** ** The batch loops *)

Lemma yields_bind {A B} (P : B -> Prop) (m : M A) (k : A -> M B) :
  (forall a, yields P (k a)) -> yields P (bind m k).
Proof.
  intros Hk w. unfold bind. destruct (m w) as [[a|e|c|] w1]; simpl; auto.
  apply Hk.
Qed.

Lemma yields_ret {A} (P : A -> Prop) (a : A) : P a -> yields P (ret a).
Proof. intros H w. exact H. Qed.

Lemma length_append (a b : string) :
  String.length (a ++ b) = (String.length a + String.length b)%nat.
Proof. induction a; simpl; auto. Qed.

Lemma substring_all (b : string) : substring 0 (String.length b) b = b.
Proof. induction b; simpl; auto. now rewrite IHb. Qed.

Lemma substring_append_tail (a b : string) :
  substring (String.length a) (String.length b) (a ++ b) = b.
Proof. induction a; simpl; auto. apply substring_all. Qed.

Lemma endswith_append (a p : string) : endswith p (a ++ p) = true.
Proof.
  unfold endswith. rewrite length_append. apply andb_true_iff. split.
  - apply Nat.leb_le. lia.
  - replace (String.length a + String.length p - String.length p)%nat
      with (String.length a) by lia.
    rewrite substring_append_tail. apply String.eqb_refl.
Qed.

Lemma append_assoc (a b c : string) : ((a ++ b) ++ c = a ++ (b ++ c))%string.
Proof. induction a; simpl; auto. now rewrite IHa. Qed.

Lemma is_wav_artifact output_path name :
  is_wav (path_join output_path (stem name ++ ".wav")) = true.
Proof.
  unfold is_wav, path_join.
  rewrite <- (append_assoc "/" (stem name) ".wav").
  rewrite <- (append_assoc output_path ("/" ++ stem name) ".wav").
  apply endswith_append.
Qed.

Lemma record_names_app a b : record_names (a ++ b) = record_names a ++ record_names b.
Proof. apply flat_map_app. Qed.

Lemma one_more_names name results r :
  one_more name results r ->
  record_names r = record_names results ++ [name]
  /\ List.length r = S (List.length results).
Proof.
  intros (rec & -> & Hrec). split.
  - rewrite record_names_app. simpl. now rewrite Hrec.
  - rewrite length_app. simpl. lia.
Qed.

Section BatchLoop.

Variable rt : Runtime.
Variable fuel : nat.
Variable client : Text2SpeechClient.
Hypothesis enough_fuel : (300 < fuel)%nat.

Lemma tame_closing output_path name results status
    (success : JVal) :
  tame is_wav
    (ok <- has_audio rt status ;;
     if ok then
       url <- subscript rt status "audio_url" ;;
       download_audio rt client url (path_join output_path (stem name ++ ".wav")) ;;;
       print ("  ✓ " ++ stem name ++ ".wav")%string ;;;
       ret (results ++ [success])
     else
       error <- dict_get rt status "error" (JStr "Unknown") ;;
       print ("  ✗ " ++ py_str rt error)%string ;;;
       ret (results ++ [JObj [("file", JStr name); ("status", JStr "failed");
                              ("error", error)]])).
Proof.
  apply tame_bind; [apply tame_has_audio|intros ok]. destruct ok.
  - apply tame_bind; [apply tame_subscript|intros url].
    apply tame_bind; [apply tame_download_audio, is_wav_artifact|intros _].
    repeat tame_step.
  - apply tame_bind; [apply tame_dict_get|intros error]. repeat tame_step.
Qed.

Lemma yields_closing output_path name results status (success : JVal) :
  record_file success = Some name ->
  yields (one_more name results)
    (ok <- has_audio rt status ;;
     if ok then
       url <- subscript rt status "audio_url" ;;
       download_audio rt client url (path_join output_path (stem name ++ ".wav")) ;;;
       print ("  ✓ " ++ stem name ++ ".wav")%string ;;;
       ret (results ++ [success])
     else
       error <- dict_get rt status "error" (JStr "Unknown") ;;
       print ("  ✗ " ++ py_str rt error)%string ;;;
       ret (results ++ [JObj [("file", JStr name); ("status", JStr "failed");
                              ("error", error)]])).
Proof.
  intros Hrec. apply yields_bind. intros ok. destruct ok.
  - repeat (apply yields_bind; intros ?). apply yields_ret. now exists success.
  - repeat (apply yields_bind; intros ?). apply yields_ret. eexists. split; reflexivity.
Qed.

Lemma tame_batch_speak_try output_path speaker language instruct name text results :
  tame is_wav
    (batch_speak_try rt fuel client output_path speaker language instruct name text
       results).
Proof.
  unfold batch_speak_try.
  apply tame_bind; [apply tame_custom_voice|intros id].
  apply tame_bind; [apply tame_print|intros _].
  apply tame_bind; [now apply tame_wait_default|intros status].
  apply tame_closing.
Qed.

Lemma yields_batch_speak_try output_path speaker language instruct name text results :
  yields (one_more name results)
    (batch_speak_try rt fuel client output_path speaker language instruct name text
       results).
Proof.
  unfold batch_speak_try. do 3 (apply yields_bind; intros ?).
  now apply yields_closing.
Qed.

Lemma tame_batch_clone_try output_path reference_audio ref_text language name text
    results :
  tame is_wav
    (batch_clone_try rt fuel client output_path reference_audio ref_text language name
       text results).
Proof.
  unfold batch_clone_try.
  apply tame_bind; [apply tame_voice_clone|intros id].
  apply tame_bind; [apply tame_print|intros _].
  apply tame_bind; [now apply tame_wait_default|intros status].
  apply tame_closing.
Qed.

Lemma yields_batch_clone_try output_path reference_audio ref_text language name text
    results :
  yields (one_more name results)
    (batch_clone_try rt fuel client output_path reference_audio ref_text language name
       text results).
Proof.
  unfold batch_clone_try. do 3 (apply yields_bind; intros ?).
  now apply yields_closing.
Qed.

End BatchLoop.

(** *** The shape the two loops share *)

Section SharedLoop.

(** The suite under [try:], given the file name, its text and [results]. *)
Variable attempt : string -> string -> list JVal -> M (list JVal).
Variable input_path : string.
Variable total : nat.

Lemma shared_body_at_file i name results w raw :
  assoc (path_join input_path name) (files w) = Some raw ->
  shared_body attempt input_path total i name results w =
  (if String.eqb (text_of raw) "" then
     print "  ⚠ Empty file" ;;; ret results
   else try_except (attempt name (text_of raw) results) (batch_except name results))
    (at_file input_path total i name w).
Proof.
  intros Hraw. unfold shared_body. rewrite bind_print.
  unfold bind at 1, read_text, bind, open_read. cbn [files printed log].
  now rewrite Hraw.
Qed.

Lemma extends_at_file ok i name w : extends ok w (at_file input_path total i name w).
Proof.
  unfold at_file, printed.
  eapply extends_trans; apply extends_log.
Qed.

Lemma shared_body_empty i name results w raw :
  assoc (path_join input_path name) (files w) = Some raw ->
  strip raw = ""%string ->
  shared_body attempt input_path total i name results w
  = (Val results, printed "  ⚠ Empty file" (at_file input_path total i name w)).
Proof.
  intros Hraw Hempty. rewrite (shared_body_at_file _ _ _ _ _ Hraw).
  rewrite text_of_empty, Hempty. reflexivity.
Qed.

Lemma shared_body_error i name results w raw e w2 :
  assoc (path_join input_path name) (files w) = Some raw ->
  strip raw <> ""%string ->
  attempt name (text_of raw) results (at_file input_path total i name w) = (Raise e, w2) ->
  shared_body attempt input_path total i name results w
  = (Val (results ++ [error_record name e]), printed ("  ✗ " ++ exn_msg e) w2).
Proof.
  intros Hraw Hne Hatt. rewrite (shared_body_at_file _ _ _ _ _ Hraw).
  apply String.eqb_neq in Hne. rewrite text_of_empty, Hne.
  unfold try_except. rewrite Hatt. reflexivity.
Qed.

Hypothesis attempt_tame :
  forall name text results, tame is_wav (attempt name text results).
Hypothesis attempt_yields :
  forall name text results, yields (one_more name results) (attempt name text results).

Lemma shared_body_spec i name results w raw :
  assoc (path_join input_path name) (files w) = Some raw ->
  exists res w',
    shared_body attempt input_path total i name results w = (Val res, w')
    /\ extends is_wav w w'
    /\ (if String.eqb (strip raw) "" then res = results else one_more name results res).
Proof.
  intros Hraw. rewrite (shared_body_at_file _ _ _ _ _ Hraw).
  pose proof (extends_at_file is_wav i name w) as Hat.
  rewrite text_of_empty.
  destruct (String.eqb (strip raw) "") eqn:E.
  - eexists _, _. split; [reflexivity|]. split; [|reflexivity].
    eapply extends_trans; [exact Hat | apply extends_log].
  - unfold try_except.
    destruct (attempt_tame name (text_of raw) results (at_file input_path total i name w))
      as [Hs He].
    pose proof (attempt_yields name (text_of raw) results
                  (at_file input_path total i name w)) as Hy.
    destruct (attempt name (text_of raw) results (at_file input_path total i name w))
      as [[res|e|c|] w2]; simpl in Hs, He, Hy; try contradiction.
    + eexists _, _. split; [reflexivity|]. split; [|exact Hy].
      eapply extends_trans; eauto.
    + eexists _, _. split; [reflexivity|]. split.
      * eapply extends_trans; [exact Hat|].
        eapply extends_trans; [exact He | apply extends_log].
      * eexists. split; reflexivity.
Qed.

Lemma text_input_extends w w' name :
  extends is_wav w w' -> text_input input_path w name -> text_input input_path w' name.
Proof.
  intros He [[raw Hraw] Hwav]. split; auto.
  exists raw. now rewrite (ext_files _ _ _ He _ Hwav).
Qed.

Lemma nonempty_in_extends w w' name :
  extends is_wav w w' -> text_input input_path w name ->
  nonempty_in input_path w' name = nonempty_in input_path w name.
Proof.
  intros He [_ Hwav]. unfold nonempty_in. now rewrite (ext_files _ _ _ He _ Hwav).
Qed.

Lemma shared_loop_spec text_files :
  forall i results w,
    Forall (text_input input_path w) text_files ->
    exists res w',
      shared_loop attempt input_path total i text_files results w = (Val res, w')
      /\ extends is_wav w w'
      /\ record_names res
         = record_names results ++ filter (nonempty_in input_path w) text_files
      /\ List.length res
         = (List.length results
            + List.length (filter (nonempty_in input_path w) text_files))%nat.
Proof.
  induction text_files as [|name rest IH]; intros i results w Hall.
  { exists results, w. simpl. rewrite app_nil_r, Nat.add_0_r.
    split; [reflexivity|]. split; [apply extends_refl|]. split; reflexivity. }
  inversion Hall as [|? ? Hname Hrest]; subst.
  destruct Hname as [[raw Hraw] Hwav].
  destruct (shared_body_spec i name results w raw Hraw) as (res1 & w1 & Hbody & He1 & Hres1).
  assert (Hrest1 : Forall (text_input input_path w1) rest).
  { eapply Forall_impl; [|exact Hrest]. intros n. now apply text_input_extends. }
  destruct (IH (S i) res1 w1 Hrest1) as (res & w' & Hloop & He2 & Hnames & Hlen).
  exists res, w'. cbn [shared_loop]. erewrite bind_val by exact Hbody.
  split; [exact Hloop|]. split; [eapply extends_trans; eauto|].
  assert (Hfilter : filter (nonempty_in input_path w1) rest
                    = filter (nonempty_in input_path w) rest).
  { apply filter_ext_in. intros n Hn. apply nonempty_in_extends; auto.
    rewrite Forall_forall in Hrest. auto. }
  rewrite Hfilter in Hnames, Hlen.
  assert (Hne : nonempty_in input_path w name = negb (String.eqb (strip raw) "")).
  { unfold nonempty_in. now rewrite Hraw. }
  cbn [filter]. rewrite Hne.
  destruct (String.eqb (strip raw) ""); cbn [negb].
  - subst res1. auto.
  - apply one_more_names in Hres1. destruct Hres1 as [Hn1 Hl1].
    rewrite Hnames, Hlen, Hn1, Hl1. rewrite <- app_assoc. simpl. split; [reflexivity|lia].
Qed.

End SharedLoop.

(** *** What the directory listing yields *)

Lemma insert_sorted_In x n l : In n (insert_sorted x l) -> n = x \/ In n l.
Proof.
  induction l as [|y r IH]; simpl.
  - intros [<-|[]]. now left.
  - destruct (String.leb x y); simpl.
    + intros [<-|H]; auto.
    + intros [<-|H]; auto. destruct (IH H); auto.
Qed.

Lemma sorted_In n l : In n (fold_right insert_sorted [] l) -> In n l.
Proof.
  induction l as [|x l IH]; simpl; auto.
  intros H. apply insert_sorted_In in H. destruct H as [->|H]; auto.
Qed.

Lemma prefix_split (a s : string) :
  String.prefix a s = true ->
  s = (a ++ substring (String.length a) (String.length s - String.length a) s)%string.
Proof.
  revert s. induction a as [|c a IH]; intros s.
  - intros _. simpl. rewrite Nat.sub_0_r. now rewrite substring_all.
  - destruct s as [|d s]; simpl; [discriminate|].
    destruct (ascii_dec c d) as [->|]; [|discriminate].
    intros H. f_equal. now apply IH.
Qed.

Lemma In_assoc {A} (p : string) (v : A) (l : list (string * A)) :
  In (p, v) l -> exists v', assoc p l = Some v'.
Proof.
  induction l as [|[k x] l IH]; simpl; [intros []|].
  intros [H|H]; destruct (String.eqb_spec p k); eauto.
  injection H as -> _. contradiction.
Qed.

Lemma substring_split (s : string) (k : nat) :
  (k <= String.length s)%nat ->
  s = (substring 0 k s ++ substring k (String.length s - k) s)%string.
Proof.
  revert k. induction s as [|c s IH]; intros k Hk; simpl in *.
  - destruct k; [reflexivity | lia].
  - destruct k; simpl.
    + now rewrite substring_all.
    + f_equal. apply IH. lia.
Qed.

Lemma endswith_split (p s : string) :
  endswith p s = true -> exists a, s = (a ++ p)%string.
Proof.
  unfold endswith. intros H. apply andb_true_iff in H. destruct H as [Hle Heq].
  apply Nat.leb_le in Hle. apply String.eqb_eq in Heq.
  exists (substring 0 (String.length s - String.length p) s).
  rewrite (substring_split s (String.length s - String.length p)) at 1 by lia.
  f_equal. rewrite <- Heq at 3. f_equal. lia.
Qed.

Lemma append_tail_inj (a b x y : string) :
  (a ++ x = b ++ y)%string -> String.length x = String.length y -> x = y.
Proof.
  revert b. induction a as [|c a IH]; intros b; simpl.
  - destruct b; simpl; auto. intros -> H. simpl in H. rewrite length_append in H. lia.
  - destruct b as [|d b]; simpl.
    + intros <- H. simpl in H. rewrite length_append in H. lia.
    + intros [= _ H] Hlen. now apply (IH b).
Qed.

Lemma txt_is_not_wav dir n : endswith ".txt" n = true -> is_wav (path_join dir n) = false.
Proof.
  intros H. apply endswith_split in H. destruct H as [a ->].
  unfold is_wav. destruct (endswith ".wav" _) eqn:E; auto.
  apply endswith_split in E. destruct E as [b Hb].
  unfold path_join in Hb.
  rewrite <- (append_assoc "/" a ".txt") in Hb.
  rewrite <- (append_assoc dir ("/" ++ a) ".txt") in Hb.
  apply append_tail_inj in Hb; [discriminate | reflexivity].
Qed.

Lemma txt_files_ends dir w n : In n (txt_files dir w) -> endswith ".txt" n = true.
Proof.
  unfold txt_files. intros Hn.
  apply sorted_In, nodup_In, in_flat_map in Hn.
  destruct Hn as (path & _ & Hn).
  destruct (entry_name dir path) as [m|]; [|destruct Hn].
  destruct (endswith ".txt" m) eqn:Htxt; [|destruct Hn].
  now destruct Hn as [<-|[]].
Qed.

Lemma readable_text_inputs input_dir output_dir w :
  readable_inputs input_dir output_dir w ->
  Forall (text_input input_dir w) (listed input_dir output_dir w).
Proof.
  intros Hall. apply Forall_forall. intros n Hn. split; [now apply Hall|].
  apply txt_is_not_wav. eapply txt_files_ends. exact Hn.
Qed.

(** *** The two loops, through the shared shape *)

Section Batch.

Variable rt : Runtime.
Variable fuel : nat.
Variable client : Text2SpeechClient.
Variables input_path output_path : string.

Lemma batch_speak_loop_shared speaker language instruct total text_files :
  forall i results w,
    batch_speak_loop rt fuel client input_path output_path speaker language instruct
      total i text_files results w
    = shared_loop
        (batch_speak_try rt fuel client output_path speaker language instruct)
        input_path total i text_files results w.
Proof.
  induction text_files as [|name rest IH]; intros i results w; [reflexivity|].
  cbn [batch_speak_loop shared_loop]. unfold bind.
  change (batch_speak_body rt fuel client input_path output_path speaker language
            instruct total i name results w)
    with (shared_body
            (batch_speak_try rt fuel client output_path speaker language instruct)
            input_path total i name results w).
  destruct (shared_body _ _ _ _ _ _ w) as [[res|e|c|] w1]; auto.
Qed.

Lemma batch_clone_loop_shared reference_audio ref_text language total text_files :
  forall i results w,
    batch_clone_loop rt fuel client input_path output_path reference_audio ref_text
      language total i text_files results w
    = shared_loop
        (batch_clone_try rt fuel client output_path reference_audio ref_text language)
        input_path total i text_files results w.
Proof.
  induction text_files as [|name rest IH]; intros i results w; [reflexivity|].
  cbn [batch_clone_loop shared_loop]. unfold bind.
  change (batch_clone_body rt fuel client input_path output_path reference_audio
            ref_text language total i name results w)
    with (shared_body
            (batch_clone_try rt fuel client output_path reference_audio ref_text language)
            input_path total i name results w).
  destruct (shared_body _ _ _ _ _ _ w) as [[res|e|c|] w1]; auto.
Qed.

Hypothesis enough_fuel : (300 < fuel)%nat.

Lemma batch_speak_loop_spec speaker language instruct total text_files i results w :
  Forall (text_input input_path w) text_files ->
  exists res w',
    batch_speak_loop rt fuel client input_path output_path speaker language instruct
      total i text_files results w = (Val res, w')
    /\ extends is_wav w w'
    /\ record_names res
       = record_names results ++ filter (nonempty_in input_path w) text_files
    /\ List.length res
       = (List.length results
          + List.length (filter (nonempty_in input_path w) text_files))%nat.
Proof.
  intros Hall. rewrite batch_speak_loop_shared.
  apply shared_loop_spec; auto.
  - intros. now apply tame_batch_speak_try.
  - intros. apply yields_batch_speak_try.
Qed.

Lemma batch_clone_loop_spec reference_audio ref_text language total text_files i
    results w :
  Forall (text_input input_path w) text_files ->
  exists res w',
    batch_clone_loop rt fuel client input_path output_path reference_audio ref_text
      language total i text_files results w = (Val res, w')
    /\ extends is_wav w w'
    /\ record_names res
       = record_names results ++ filter (nonempty_in input_path w) text_files
    /\ List.length res
       = (List.length results
          + List.length (filter (nonempty_in input_path w) text_files))%nat.
Proof.
  intros Hall. rewrite batch_clone_loop_shared.
  apply shared_loop_spec; auto.
  - intros. now apply tame_batch_clone_try.
  - intros. apply yields_batch_clone_try.
Qed.

End Batch.

Lemma cmd_batch_speak_spec rt fuel input_dir output_dir speaker language instruct w :
  (300 < fuel)%nat ->
  write_error w output_dir = None ->
  write_error w (path_join output_dir "batch_report.json") = None ->
  readable_inputs input_dir output_dir w ->
  exists res w',
    cmd_batch_speak rt fuel input_dir output_dir speaker language instruct w
    = (Val res, w')
    /\ record_names res = inputs_with_text input_dir output_dir w
    /\ List.length res = List.length (inputs_with_text input_dir output_dir w).
Proof.
  intros Hfuel Hdir Hreport Hall. unfold cmd_batch_speak.
  unfold bind at 1, mkdir. rewrite Hdir.
  unfold bind at 1, glob_txt.
  change (txt_files input_dir (log (EvMkdir output_dir) (add_dir output_dir w)))
    with (listed input_dir output_dir w).
  rewrite bind_print.
  set (w1 := printed _ (log (EvMkdir output_dir) (add_dir output_dir w))).
  destruct (batch_speak_loop_spec rt fuel (new_client API_BASE) input_dir output_dir
              Hfuel speaker language instruct
              (List.length (listed input_dir output_dir w)) (listed input_dir output_dir w)
              1%nat [] w1 (readable_text_inputs _ _ _ Hall))
    as (res & w2 & Hloop & He & Hnames & Hlen).
  erewrite bind_val by exact Hloop.
  unfold bind at 1, write_file.
  rewrite (ext_write_error _ _ _ He). cbn [write_error w1 printed log add_dir].
  rewrite Hreport.
  rewrite !bind_print. eexists _, _. split; [reflexivity|]. auto.
Qed.

Lemma cmd_batch_clone_spec rt fuel input_dir output_dir reference_audio ref_text
    language w x :
  (300 < fuel)%nat ->
  write_error w output_dir = None ->
  assoc reference_audio (files w) = Some x ->
  readable_inputs input_dir output_dir w ->
  exists res w',
    cmd_batch_clone rt fuel input_dir output_dir reference_audio ref_text language w
    = (Val res, w')
    /\ record_names res = inputs_with_text input_dir output_dir w
    /\ List.length res = List.length (inputs_with_text input_dir output_dir w).
Proof.
  intros Hfuel Hdir Href Hall. unfold cmd_batch_clone.
  unfold bind at 1, mkdir. rewrite Hdir.
  unfold bind at 1, path_exists. cbn [files log add_dir]. rewrite Href.
  unfold bind at 1, ret. unfold bind at 1, glob_txt.
  change (txt_files input_dir (log (EvMkdir output_dir) (add_dir output_dir w)))
    with (listed input_dir output_dir w).
  rewrite !bind_print.
  set (w1 := printed _ (printed _ (log (EvMkdir output_dir) (add_dir output_dir w)))).
  destruct (batch_clone_loop_spec rt fuel (new_client API_BASE) input_dir output_dir
              Hfuel reference_audio ref_text language
              (List.length (listed input_dir output_dir w)) (listed input_dir output_dir w)
              1%nat [] w1 (readable_text_inputs _ _ _ Hall))
    as (res & w2 & Hloop & He & Hnames & Hlen).
  erewrite bind_val by exact Hloop.
  rewrite !bind_print. eexists _, _. split; [reflexivity|]. auto.
Qed.

(** ** Properties of the batch commands *)




(** C8. In both batch loops a text file that holds nothing but white space
    ends its iteration at once: [results] is returned as it was, the trace
    gains the header line, the read and the [Empty file] line and nothing
    else, so no request is sent. Over a whole loop such a file is absent
    from the names in [results], whose length is the number of files with
    content. *)
Theorem empty_files_are_skipped :
  forall rt fuel client input_path output_path total i name results w raw,
    assoc (path_join input_path name) (files w) = Some raw ->
    strip raw = ""%string ->
    let w' := printed "  ⚠ Empty file" (at_file input_path total i name w) in
    (forall speaker language instruct,
        batch_speak_body rt fuel client input_path output_path speaker language
          instruct total i name results w = (Val results, w'))
    /\ (forall reference_audio ref_text language,
           batch_clone_body rt fuel client input_path output_path reference_audio
             ref_text language total i name results w = (Val results, w'))
    /\ on_wire (trace w') = on_wire (trace w)
    /\ files w' = files w
    /\ ((300 < fuel)%nat ->
        forall text_files,
          Forall (text_input input_path w) text_files ->
          (forall speaker language instruct, exists res w2,
              batch_speak_loop rt fuel client input_path output_path speaker language
                instruct total 1 text_files [] w = (Val res, w2)
              /\ ~ In name (record_names res)
              /\ List.length res
                 = List.length (filter (nonempty_in input_path w) text_files))
          /\ (forall reference_audio ref_text language, exists res w2,
                 batch_clone_loop rt fuel client input_path output_path reference_audio
                   ref_text language total 1 text_files [] w = (Val res, w2)
                 /\ ~ In name (record_names res)
                 /\ List.length res
                    = List.length (filter (nonempty_in input_path w) text_files))).
Proof.
  intros rt fuel client input_path output_path total i name results w raw Hraw Hempty w'.
  assert (Hskip : forall l, ~ In name (filter (nonempty_in input_path w) l)).
  { intros l Hin. apply filter_In in Hin. destruct Hin as [_ Hne].
    unfold nonempty_in in Hne. rewrite Hraw, Hempty in Hne. discriminate. }
  split; [|split; [|split; [|split]]].
  - intros speaker language instruct.
    change (batch_speak_body rt fuel client input_path output_path speaker language
              instruct total i name results w)
      with (shared_body
              (batch_speak_try rt fuel client output_path speaker language instruct)
              input_path total i name results w).
    eapply shared_body_empty; eauto.
  - intros reference_audio ref_text language.
    change (batch_clone_body rt fuel client input_path output_path reference_audio
              ref_text language total i name results w)
      with (shared_body
              (batch_clone_try rt fuel client output_path reference_audio ref_text
                 language)
              input_path total i name results w).
    eapply shared_body_empty; eauto.
  - unfold w', printed, at_file, printed. cbn [trace log].
    rewrite !on_wire_app. simpl. now rewrite !app_nil_r.
  - reflexivity.
  - intros Hfuel text_files Hall. split.
    + intros speaker language instruct.
      destruct (batch_speak_loop_spec rt fuel client input_path output_path Hfuel
                  speaker language instruct total text_files 1%nat [] w Hall)
        as (res & w2 & Hloop & _ & Hnames & Hlen).
      exists res, w2. split; [exact Hloop|]. simpl in Hnames, Hlen.
      rewrite Hnames. auto.
    + intros reference_audio ref_text language.
      destruct (batch_clone_loop_spec rt fuel client input_path output_path Hfuel
                  reference_audio ref_text language total text_files 1%nat [] w Hall)
        as (res & w2 & Hloop & _ & Hnames & Hlen).
      exists res, w2. split; [exact Hloop|]. simpl in Hnames, Hlen.
      rewrite Hnames. auto.
Qed.

Lemma empty_files_are_skipped_witness :
  let w := world_of (service completed) four_texts in
  let client := new_client API_BASE in
  assoc (path_join "in" "blank.txt") (files w) = Some (" " ++ nl)%string
  /\ strip (" " ++ nl)%string = ""%string
  /\ batch_speak_body sample_runtime 301 client "in" "out" "vivian" "Auto" None 4 2
       "blank.txt" [] w
     = (Val [], printed "  ⚠ Empty file" (at_file "in" 4 2 "blank.txt" w))
  /\ (exists res w2,
         batch_speak_loop sample_runtime 301 client "in" "out" "vivian" "Auto" None 4 1
           ["a.txt"; "b.txt"; "blank.txt"; "c.txt"] [] w = (Val res, w2)
         /\ ~ In "blank.txt" (record_names res)
         /\ List.length res = 3%nat).
Proof.
  intros w client.
  destruct (empty_files_are_skipped sample_runtime 301 client "in" "out" 4 2 "blank.txt"
              [] w (" " ++ nl)%string eq_refl eq_refl)
    as (Hspeak & _ & _ & _ & Hloop).
  split; [reflexivity|]. split; [reflexivity|]. split; [apply Hspeak|].
  assert (Hfuel : (300 < 301)%nat) by lia.
  assert (Hall : Forall (text_input "in" w) ["a.txt"; "b.txt"; "blank.txt"; "c.txt"]).
  { repeat constructor; eexists; reflexivity. }
  destruct (Hloop Hfuel _ Hall) as [Hs _].
  destruct (Hs "vivian" "Auto" None) as (res & w2 & Hrun & Hno & Hlen).
  exists res, w2. split; [exact Hrun|]. split; [exact Hno|]. exact Hlen.
Defined.

(** C4, on the code. [cmd_batch_speak] writes [batch_report.json] and
    records the output path of each success; on the same input
    [cmd_batch_clone] writes the artifact only, no report, and its success
    record has no [output] entry. *)
Lemma batch_clone_leaves_no_report :
  let w := world_of (service completed) [("in/a.txt", "hi"); ("ref.wav", "RIFF")] in
  let speak := cmd_batch_speak sample_runtime 301 "in" "out" "vivian" "Auto" None w in
  let clone := cmd_batch_clone sample_runtime 301 "in" "out" "ref.wav" None "Auto" w in
  fst speak = Val [JObj [("file", JStr "a.txt"); ("status", JStr "success");
                         ("output", JStr "out/a.wav")]]
  /\ filter is_write (trace (snd speak))
     = [EvWrite "out/a.wav" "RIFF"; EvWrite "out/batch_report.json" "<json>"]
  /\ fst clone = Val [JObj [("file", JStr "a.txt"); ("status", JStr "success")]]
  /\ filter is_write (trace (snd clone)) = [EvWrite "out/a.wav" "RIFF"]
  /\ assoc "out/batch_report.json" (files (snd clone)) = None.
Proof. vm_compute. repeat split; reflexivity. Qed.

(** ** More on the client *)

Lemma http_run req w :
  http req w =
  (match answer (reply_to req w) with
   | inl msg => Raise (mkExn ConnectionError msg)
   | inr resp => Val resp
   end, after_request req w).
Proof.
  unfold http, reply_to, after_request. destruct (answer _); reflexivity.
Qed.

Lemma raise_for_status_cases resp w :
  (if (400 <=? status_code resp) && (status_code resp <? 600)
   then exists e, raise_for_status resp w = (Raise e, w)
   else raise_for_status resp w = (Val tt, w)).
Proof.
  unfold raise_for_status.
  destruct ((400 <=? status_code resp) && (status_code resp <? 600)) eqn:E.
  - destruct ((400 <=? status_code resp) && (status_code resp <? 500)) eqn:E1;
      [eexists; reflexivity|].
    destruct ((500 <=? status_code resp) && (status_code resp <? 600)) eqn:E2;
      [eexists; reflexivity|].
    apply andb_true_iff in E. apply andb_false_iff in E1, E2. lia.
  - apply andb_false_iff in E.
    destruct ((400 <=? status_code resp) && (status_code resp <? 500)) eqn:E1.
    { apply andb_true_iff in E1. destruct E as [E|E]; lia. }
    destruct ((500 <=? status_code resp) && (status_code resp <? 600)) eqn:E2.
    { apply andb_true_iff in E2. destruct E as [E|E]; lia. }
    reflexivity.
Qed.

(** A request followed by [raise_for_status]: either the response is
    delivered to what comes next, or the whole raises, with the request made
    in both cases. *)
Lemma checked_request_delivered {A} req (k : Response -> M A) w resp :
  delivered (reply_to req w) = Some resp ->
  (r <- http req ;; raise_for_status r ;;; k r) w = k resp (after_request req w).
Proof.
  unfold delivered. intros H. unfold bind at 1. rewrite http_run.
  destruct (answer (reply_to req w)) as [msg|r]; [discriminate|].
  pose proof (raise_for_status_cases r (after_request req w)) as Hc.
  destruct ((400 <=? status_code r) && (status_code r <? 600)); [discriminate|].
  injection H as ->. unfold bind. now rewrite Hc.
Qed.

Lemma checked_request_failed {A} req (k : Response -> M A) w :
  delivered (reply_to req w) = None ->
  exists e, (r <- http req ;; raise_for_status r ;;; k r) w
            = (Raise e, after_request req w).
Proof.
  unfold delivered. intros H. unfold bind at 1. rewrite http_run.
  destruct (answer (reply_to req w)) as [msg|r]; [eexists; reflexivity|].
  pose proof (raise_for_status_cases r (after_request req w)) as Hc.
  destruct ((400 <=? status_code r) && (status_code r <? 600)); [|discriminate].
  destruct Hc as [e He]. exists e. unfold bind. now rewrite He.
Qed.

Lemma files_after_request req w : files (after_request req w) = files w.
Proof. reflexivity. Qed.

Lemma on_wire_after_request req w :
  on_wire (trace (after_request req w))
  = on_wire (trace w) ++ [EvRequest req (reply_to req w)].
Proof. unfold after_request. cbn [trace log advance]. now rewrite on_wire_app. Qed.

Lemma assoc_store_same path data w : assoc path (files (store path data w)) = Some data.
Proof. cbn [files store assoc]. now rewrite String.eqb_refl. Qed.

Lemma assoc_store_other path data w p :
  p <> path -> assoc p (files (store path data w)) = assoc p (files w).
Proof.
  intros Hne. cbn [files store assoc]. destruct (String.eqb_spec p path); [contradiction|].
  now apply assoc_filter_neq.
Qed.

(** X1. The base URL a client keeps never ends in a slash: it is the URL
    it was given minus all its trailing slashes, so stripping again changes
    nothing and every endpoint URL has exactly the one slash the code puts
    between base and path. *)
Theorem base_url_has_no_trailing_slash :
  forall url,
    endswith "/" (base_url (new_client url)) = false
    /\ (exists k, url = (base_url (new_client url) ++ slashes k)%string)
    /\ new_client (base_url (new_client url)) = new_client url.
Proof.
  intros url. cbn [base_url new_client].
  assert (Hno : forall u a, rstrip_char "/" u <> (a ++ "/")%string).
  { induction u as [|c r IH]; intros a; cbn [rstrip_char].
    - destruct a; discriminate.
    - destruct (String.eqb_spec (rstrip_char "/" r) "") as [Hr|Hr]; cbn [andb].
      + destruct (Ascii.eqb_spec c "/") as [->|Hc].
        * destruct a; discriminate.
        * rewrite Hr. destruct a as [|d a]; cbn [append].
          -- intros [= ->]. contradiction.
          -- intros [= _ H]. destruct a; discriminate.
      + destruct a as [|d a]; cbn [append].
        * intros [= _ H]. contradiction.
        * intros [= _ H]. now apply (IH a). }
  assert (Hsplit : forall u, exists k, u = (rstrip_char "/" u ++ slashes k)%string).
  { induction u as [|c r [k IH]]; cbn [rstrip_char].
    - now exists 0%nat.
    - destruct (String.eqb_spec (rstrip_char "/" r) "") as [Hr|Hr]; cbn [andb].
      + destruct (Ascii.eqb_spec c "/") as [->|Hc].
        * exists (S k). rewrite Hr in IH. cbn [append] in *. cbn [slashes]. now f_equal.
        * exists k. cbn [append]. now f_equal.
      + exists k. cbn [append]. now f_equal. }
  assert (Hidem : forall u, rstrip_char "/" (rstrip_char "/" u) = rstrip_char "/" u).
  { induction u as [|c r IH]; cbn [rstrip_char]; auto.
    destruct (String.eqb_spec (rstrip_char "/" r) "") as [Hr|Hr]; cbn [andb].
    - destruct (Ascii.eqb_spec c "/") as [->|Hc]; auto.
      cbn [rstrip_char]. rewrite IH, Hr. cbn [String.eqb andb].
      destruct (Ascii.eqb_spec c "/"); [contradiction | reflexivity].
    - cbn [rstrip_char]. rewrite IH.
      destruct (String.eqb_spec (rstrip_char "/" r) ""); [contradiction|]. reflexivity. }
  split; [|split].
  - destruct (endswith "/" (rstrip_char "/" url)) eqn:E; auto.
    apply endswith_split in E. destruct E as [a Ha]. destruct (Hno url a Ha).
  - apply Hsplit.
  - unfold new_client. cbn [base_url]. now rewrite Hidem.
Qed.

Lemma submit_run rt req w :
  snd ((resp <- http req ;; job_id_of rt resp) w) = after_request req w
  /\ forall id,
       fst ((resp <- http req ;; job_id_of rt resp) w) = Val id
       <-> job_of (reply_to req w) = Some id.
Proof.
  unfold job_id_of, job_of.
  destruct (delivered (reply_to req w)) as [resp|] eqn:Hd.
  - rewrite (checked_request_delivered req _ w resp Hd).
    unfold bind, json_of, subscript, raise, ret.
    destruct (resp_json resp) as [msg|[| | | | |kvs]]; cbn [fst snd];
      try (split; [reflexivity | intros id; split; discriminate]).
    destruct (assoc "job_id" kvs) as [v|]; cbn [fst snd].
    + split; [reflexivity|]. intros id. split; intros [= ->]; reflexivity.
    + split; [reflexivity | intros id; split; discriminate].
  - destruct (checked_request_failed req
                (fun r => body <- json_of r ;; subscript rt body "job_id") w Hd)
      as [e He].
    rewrite He. cbn [fst snd]. split; [reflexivity | intros id; split; discriminate].
Qed.

(** X2. Every submission method sends exactly one request, a POST to its
    endpoint under the base URL, and changes nothing else, whatever the
    answer: there is no retry. It returns a job id exactly when the answer
    came through with a non-error status and a JSON object holding
    [job_id]; [voice_clone] first opens the reference audio. *)
Theorem submission_sends_one_request :
  forall rt self w,
    let sent (endpoint : string) (r : Outcome JVal * World) (w0 : World) : Prop :=
      exists req,
        is_post req = true
        /\ url_of req = (base_url self ++ endpoint)%string
        /\ snd r = after_request req w0
        /\ forall id, fst r = Val id <-> job_of (reply_to req w0) = Some id in
    (forall text speaker language instruct,
        sent "/tts/custom-voice"
          (custom_voice rt self text speaker language instruct w) w)
    /\ (forall text instruct language,
           sent "/tts/voice-design" (voice_design rt self text instruct language w) w)
    /\ (forall text timbre language instruct,
           sent "/tts/custom-voice"
             (voice_clone_with_timbre rt self text timbre language instruct w) w)
    /\ (forall design_text design_instruct clone_texts design_language clone_language,
           sent "/tts/voice-design-clone"
             (voice_design_clone rt self design_text design_instruct clone_texts
                design_language clone_language w) w)
    /\ (forall text audio language ref_text x_vector_only instruct data,
           assoc audio (files w) = Some data ->
           sent "/tts/voice-clone"
             (voice_clone rt self text audio language ref_text x_vector_only instruct w)
             (log (EvOpen audio) w)).
Proof.
  intros rt self w sent. unfold sent.
  split; [|split; [|split; [|split]]]; intros.
  - eexists. split; [|split; [|apply submit_run]]; reflexivity.
  - eexists. split; [|split; [|apply submit_run]]; reflexivity.
  - eexists. split; [|split; [|apply submit_run]]; reflexivity.
  - eexists. split; [|split; [|apply submit_run]]; reflexivity.
  - unfold voice_clone. unfold bind at 1 3, open_read. rewrite H.
    eexists. split; [|split; [|apply submit_run]]; reflexivity.
Qed.

Lemma submission_sends_one_request_witness :
  let w := world_of (service completed) [("ref.wav", "RIFF")] in
  let r := voice_clone sample_runtime (new_client API_BASE) "hello" "ref.wav" "Auto" None
             false None w in
  assoc "ref.wav" (files w) = Some "RIFF"%string
  /\ exists req,
       url_of req = "https://mc.agaii.org/TTS/api/v1/tts/voice-clone"%string
       /\ snd r = after_request req (log (EvOpen "ref.wav") w)
       /\ (fst r = Val (JStr "j1")
           <-> job_of (reply_to req (log (EvOpen "ref.wav") w)) = Some (JStr "j1")).
Proof.
  intros w r.
  destruct (submission_sends_one_request sample_runtime (new_client API_BASE) w)
    as (_ & _ & _ & _ & Hclone).
  destruct (Hclone "hello"%string "ref.wav"%string "Auto"%string None false None
              "RIFF"%string eq_refl)
    as (req & Hpost & Hurl & Hworld & Hid).
  split; [reflexivity|]. exists req. split; [exact Hurl|]. split; [exact Hworld|].
  apply Hid.
Defined.

Lemma fetch_and_write req out w :
  let r := (resp <- http req ;; raise_for_status resp ;;; write_file out (content resp)) w in
  on_wire (trace (snd r)) = on_wire (trace w) ++ [EvRequest req (reply_to req w)]
  /\ match delivered (reply_to req w) with
     | None => (exists e, fst r = Raise e) /\ files (snd r) = files w
     | Some resp =>
         match write_error w out with
         | Some msg => fst r = Raise (mkExn OSError msg) /\ files (snd r) = files w
         | None =>
             fst r = Val tt
             /\ assoc out (files (snd r)) = Some (content resp)
             /\ forall p, p <> out -> assoc p (files (snd r)) = assoc p (files w)
         end
     end.
Proof.
  intros r. subst r.
  destruct (delivered (reply_to req w)) as [resp|] eqn:Hd.
  - rewrite (checked_request_delivered req _ w resp Hd).
    unfold write_file. cbn [write_error after_request log advance].
    destruct (write_error w out) as [msg|]; cbn [fst snd].
    + split; [apply on_wire_after_request | split; reflexivity].
    + split.
      * cbn [trace log store]. rewrite on_wire_app. simpl. rewrite app_nil_r.
        apply on_wire_after_request.
      * split; [reflexivity|]. split; [apply assoc_store_same|].
        intros p Hp. cbn [files log]. now rewrite assoc_store_other.
  - destruct (checked_request_failed req (fun r => write_file out (content r)) w Hd)
      as [e He].
    rewrite He. cbn [fst snd]. split; [apply on_wire_after_request|].
    split; [now exists e | reflexivity].
Qed.

(** X3. [download_audio] sends one GET and writes the output file only
    once the response has passed [raise_for_status]: on a transport
    failure or an HTTP error status it raises and leaves every file as it
    was; otherwise the output path holds exactly [resp.content] and no
    other file changes (an unwritable path raises [OSError], again with no
    file changed). *)
Theorem download_writes_only_on_success :
  forall rt self url output_path w,
    let req := GET (resolve_audio_url self url) in
    let r := download_audio rt self (JStr url) output_path w in
    on_wire (trace (snd r)) = on_wire (trace w) ++ [EvRequest req (reply_to req w)]
    /\ match delivered (reply_to req w) with
       | None => (exists e, fst r = Raise e) /\ files (snd r) = files w
       | Some resp =>
           match write_error w output_path with
           | Some msg => fst r = Raise (mkExn OSError msg) /\ files (snd r) = files w
           | None =>
               fst r = Val tt
               /\ assoc output_path (files (snd r)) = Some (content resp)
               /\ forall p, p <> output_path ->
                            assoc p (files (snd r)) = assoc p (files w)
           end
       end.
Proof. intros. apply fetch_and_write. Qed.

(** X4. [decode_tokens] sends one POST with the body [{"tokens": tokens}]
    to [/tokenizer/decode] and writes the response bytes verbatim to the
    output path, and only once the response has passed [raise_for_status]:
    on a failure it raises and no file is touched. *)
Theorem decode_writes_response_verbatim :
  forall self tokens output_path w,
    let req := POST_json (base_url self ++ "/tokenizer/decode")%string
                 (JObj [("tokens", tokens)]) in
    let r := decode_tokens self tokens output_path w in
    on_wire (trace (snd r)) = on_wire (trace w) ++ [EvRequest req (reply_to req w)]
    /\ match delivered (reply_to req w) with
       | None => (exists e, fst r = Raise e) /\ files (snd r) = files w
       | Some resp =>
           match write_error w output_path with
           | Some msg => fst r = Raise (mkExn OSError msg) /\ files (snd r) = files w
           | None =>
               fst r = Val tt
               /\ assoc output_path (files (snd r)) = Some (content resp)
               /\ forall p, p <> output_path ->
                            assoc p (files (snd r)) = assoc p (files w)
           end
       end.
Proof. intros. apply fetch_and_write. Qed.

(** X5. [health_check] never raises. It sends one GET to [/health] and
    returns the JSON body whatever the HTTP status is (there is no
    [raise_for_status]); when the exchange fails or the body is no JSON it
    returns [{"error": <message>, "status": "unavailable"}]. *)
Theorem health_check_never_raises :
  forall self w,
    let req := GET (base_url self ++ "/health")%string in
    health_check self w
    = (Val (match answer (reply_to req w) with
            | inl msg => degraded msg
            | inr resp =>
                match resp_json resp with
                | inl msg => degraded msg
                | inr body => body
                end
            end), after_request req w).
Proof.
  intros self w req. unfold health_check, try_except, bind. rewrite http_run.
  fold req. destruct (answer (reply_to req w)) as [msg|resp]; [reflexivity|].
  unfold json_of. destruct (resp_json resp); reflexivity.
Qed.

(** ** More on the polling loop *)

Section PollingRounds.

Variable rt : Runtime.
Variable self : Text2SpeechClient.
Variable job_id : JVal.

(** What one round of the loop can come to. *)
Lemma wait_loop_round fuel start poll_interval timeout cb w out w' :
  wait_loop rt (S fuel) self start job_id poll_interval timeout cb w = (out, w') ->
  (timeout <= now w - start /\ out = Raise (timeout_error rt job_id) /\ w' = w)
  \/ (now w - start < timeout
      /\ ((fetched (next_reply rt self job_id w) = None
           /\ w' = after_poll rt self job_id w
           /\ exists e, out = Raise e)
          \/ exists st0,
               fetched (next_reply rt self job_id w) = Some st0
               /\ ((w' = after_callback cb st0 (after_poll rt self job_id w)
                    /\ settled out)
                   \/ (0 <= poll_interval
                       /\ wait_loop rt fuel self start job_id poll_interval timeout cb
                            (slept poll_interval
                               (after_callback cb st0 (after_poll rt self job_id w)))
                          = (out, w'))))).
Proof.
  rewrite wait_loop_S. intros H.
  destruct (Z.ltb_spec (now w - start) timeout) as [Hlt|Hge].
  2:{ left. injection H as <- <-. auto. }
  right. split; [exact Hlt|].
  destruct (fetched (next_reply rt self job_id w)) as [st0|] eqn:Hf.
  2:{ left. destruct (get_job_status_failed rt self job_id w Hf) as [e He].
      rewrite He in H. injection H as <- <-. eauto. }
  right. exists st0. split; [reflexivity|].
  rewrite (get_job_status_fetched rt self job_id w st0 Hf) in H.
  destruct (run_callback_cases cb st0 (after_poll rt self job_id w))
    as [[st' Hcb]|[e [Hcb _]]]; rewrite Hcb in H.
  2:{ left. injection H as <- <-. split; [reflexivity | exact I]. }
  destruct (status_field st') as [s|];
    [|left; injection H as <- <-; split; [reflexivity | exact I]].
  destruct (in_terminal s);
    [left; injection H as <- <-; split; [reflexivity | exact I]|].
  destruct (Z.ltb_spec poll_interval 0);
    [left; injection H as <- <-; split; [reflexivity | exact I]|].
  right. split; [lia | exact H].
Qed.

Lemma fold_log_files (l : list (Stream * string)) w :
  files (fold_left (fun w' p => log (EvPrint (fst p) (snd p)) w') l w) = files w.
Proof. revert w. induction l; intros w; simpl; auto. now rewrite IHl. Qed.

Lemma after_callback_files cb st w : files (after_callback cb st w) = files w.
Proof.
  unfold after_callback, run_callback. destruct cb as [f|]; [|reflexivity].
  unfold call_callback. destruct (cb_raises (f st)); simpl; now rewrite fold_log_files.
Qed.

Lemma after_callback_now cb st w : now w <= now (after_callback cb st w).
Proof.
  destruct (tame_run_callback (fun _ => false) cb st w) as [_ He].
  exact (ext_now _ _ _ He).
Qed.

Lemma callback_events_polling poll_interval cb st :
  Forall (polling_event rt self job_id poll_interval) (callback_events cb st).
Proof.
  destruct cb as [f|]; simpl; [|constructor].
  constructor; [exact I|]. induction (cb_prints (f st)); simpl; constructor; auto.
  exact I.
Qed.

(** The events of a round up to the callback. *)
Lemma round_trace cb st0 w :
  trace (after_callback cb st0 (after_poll rt self job_id w))
  = trace w ++ EvRequest (status_request rt self job_id) (next_reply rt self job_id w)
               :: callback_events cb st0.
Proof.
  rewrite after_callback_trace, after_poll_trace, <- app_assoc. reflexivity.
Qed.

Lemma wait_loop_only_polls start poll_interval timeout cb fuel :
  forall w out w',
    wait_loop rt fuel self start job_id poll_interval timeout cb w = (out, w') ->
    files w' = files w
    /\ exists tr,
         trace w' = trace w ++ tr
         /\ Forall (polling_event rt self job_id poll_interval) tr.
Proof.
  induction fuel as [|fuel IH]; intros w out w' H.
  { injection H as <- <-. split; [reflexivity|]. exists []. rewrite app_nil_r. auto. }
  apply wait_loop_round in H.
  destruct H as [(_ & _ & ->)|(_ & [(_ & -> & _)|(st0 & _ & [(-> & _)|(_ & H)])])].
  - split; [reflexivity|]. exists []. rewrite app_nil_r. auto.
  - split; [reflexivity|]. eexists. split; [apply after_poll_trace|].
    constructor; [reflexivity | constructor].
  - split; [now rewrite after_callback_files|].
    eexists. split; [apply round_trace|].
    constructor; [reflexivity | apply callback_events_polling].
  - apply IH in H. destruct H as (Hfiles & tr & Htr & Hall). split.
    + rewrite Hfiles. unfold slept. cbn [files log advance].
      now rewrite after_callback_files.
    + exists ((EvRequest (status_request rt self job_id) (next_reply rt self job_id w)
                 :: callback_events cb st0) ++ EvSleep poll_interval :: tr).
      split.
      * rewrite Htr. unfold slept. cbn [trace log advance]. rewrite round_trace.
        now rewrite <- !app_assoc.
      * apply Forall_app. split.
        -- constructor; [reflexivity | apply callback_events_polling].
        -- constructor; [reflexivity | exact Hall].
Qed.

Lemma stops_round cb req0 rep0 st0 rest out :
  fetched rep0 = Some st0 ->
  stops_at_failure rest out ->
  stops_at_failure (EvRequest req0 rep0 :: callback_events cb st0 ++ rest) out.
Proof.
  intros Hf Hrest pre req rep post Heq Hfe. symmetry in Heq.
  apply app_cons_split in Heq. destruct Heq as [(_ & Hx & _)|(pre' & _ & Heq)].
  - injection Hx as -> ->. congruence.
  - apply split_past in Heq; [|apply callback_events_quiet|reflexivity].
    destruct Heq as [pre'' Heq]. eapply Hrest; eauto.
Qed.

Lemma stops_nil out : stops_at_failure [] out.
Proof. intros [|? ?] ? ? ? H; discriminate. Qed.

Lemma wait_loop_stops_at_failure start poll_interval timeout cb fuel :
  forall w out w',
    wait_loop rt fuel self start job_id poll_interval timeout cb w = (out, w') ->
    exists tr, trace w' = trace w ++ tr /\ stops_at_failure tr out.
Proof.
  induction fuel as [|fuel IH]; intros w out w' H.
  { injection H as <- <-. exists []. rewrite app_nil_r. auto using stops_nil. }
  apply wait_loop_round in H.
  destruct H as [(_ & _ & ->)|(_ & [(Hf & -> & e & ->)|(st0 & Hf & [(-> & _)|(_ & H)])])].
  - exists []. rewrite app_nil_r. auto using stops_nil.
  - eexists. split; [apply after_poll_trace|].
    intros pre req rep post Heq Hfe. symmetry in Heq.
    apply app_cons_split in Heq. destruct Heq as [(_ & _ & <-)|(pre' & _ & Heq)].
    + split; eauto.
    + destruct pre'; discriminate.
  - eexists. split; [apply round_trace|].
    rewrite <- (app_nil_r (callback_events cb st0)).
    apply stops_round; auto using stops_nil.
  - apply IH in H. destruct H as (tr & Htr & Hstops).
    exists (EvRequest (status_request rt self job_id) (next_reply rt self job_id w)
              :: callback_events cb st0 ++ EvSleep poll_interval :: tr).
    split.
    + rewrite Htr. unfold slept. cbn [trace log advance]. rewrite round_trace.
      rewrite <- !app_assoc. reflexivity.
    + apply stops_round; auto.
      intros pre req rep post Heq Hfe. symmetry in Heq.
      apply app_cons_split in Heq. destruct Heq as [(_ & Hx & _)|(pre' & _ & Heq)].
      * discriminate.
      * eapply Hstops; eauto.
Qed.

Lemma on_wire_round cb st0 rest :
  on_wire (EvRequest (status_request rt self job_id) (next_reply rt self job_id rest)
             :: callback_events cb st0)
  = [EvRequest (status_request rt self job_id) (next_reply rt self job_id rest)].
Proof.
  cbn [on_wire filter is_request]. f_equal.
  apply on_wire_quiet, callback_events_quiet.
Qed.

Lemma wait_loop_poll_bound start poll_interval timeout cb fuel :
  forall w out w',
    wait_loop rt fuel self start job_id poll_interval timeout cb w = (out, w') ->
    exists tr,
      trace w' = trace w ++ tr
      /\ (on_wire tr = []
          \/ (Z.of_nat (List.length (on_wire tr)) - 1) * poll_interval
             < timeout - (now w - start)).
Proof.
  induction fuel as [|fuel IH]; intros w out w' H.
  { injection H as <- <-. exists []. rewrite app_nil_r. auto. }
  apply wait_loop_round in H.
  destruct H as [(_ & _ & ->)|(Hlt & [(_ & -> & _)|(st0 & _ & [(-> & _)|(Hpi & H)])])].
  - exists []. rewrite app_nil_r. auto.
  - eexists. split; [apply after_poll_trace|]. right. simpl. lia.
  - eexists. split; [apply round_trace|]. right. rewrite on_wire_round. simpl. lia.
  - apply IH in H. destruct H as (tr & Htr & Hbound).
    exists ((EvRequest (status_request rt self job_id) (next_reply rt self job_id w)
               :: callback_events cb st0) ++ EvSleep poll_interval :: tr).
    split.
    + rewrite Htr. unfold slept. cbn [trace log advance]. rewrite round_trace.
      now rewrite <- !app_assoc.
    + right. rewrite on_wire_app, on_wire_round.
      cbn [on_wire filter is_request app]. fold (on_wire tr).
      pose proof (after_callback_now cb st0 (after_poll rt self job_id w)) as Hnow.
      unfold slept, after_poll in Hbound, Hnow. cbn [now log advance] in Hbound, Hnow.
      rewrite Z2N.id in Hbound by lia.
      cbn [List.length]. rewrite Nat2Z.inj_succ.
      destruct Hbound as [-> | Hb]; [simpl; lia|]. nia.
Qed.

End PollingRounds.

(** X6. [wait_for_completion] does nothing but poll: every request it
    sends is the GET of the job's status URL, every sleep lasts the poll
    interval, the only other events are the callback and what it prints,
    and no file is created, changed or removed. It sends no cancel and
    fetches no artifact, also when it times out. *)
Theorem wait_only_polls :
  forall rt self job_id poll_interval timeout cb fuel w,
    let r := wait_for_completion rt fuel self job_id poll_interval timeout cb w in
    files (snd r) = files w
    /\ exists tr,
         trace (snd r) = trace w ++ tr
         /\ Forall (polling_event rt self job_id poll_interval) tr.
Proof.
  intros rt self job_id poll_interval timeout cb fuel w r. subst r.
  unfold wait_for_completion, bind, time_time.
  destruct (wait_loop rt fuel self (now w) job_id poll_interval timeout cb w)
    as [out w'] eqn:E.
  apply wait_loop_only_polls in E. exact E.
Qed.

(** X7. A poll that delivers no status (transport failure, HTTP error
    status, body that is no JSON) is not retried: in any run of
    [wait_for_completion] such a request is the last event of the run, and
    the run raised. *)
Theorem wait_raises_at_failed_poll :
  forall rt self job_id poll_interval timeout cb fuel w out w' pre req rep post,
    wait_for_completion rt fuel self job_id poll_interval timeout cb w = (out, w') ->
    trace w' = trace w ++ pre ++ EvRequest req rep :: post ->
    fetched rep = None ->
    (exists e, out = Raise e) /\ post = [].
Proof.
  intros rt self job_id poll_interval timeout cb fuel w out w' pre req rep post
         Hrun Htr Hfe.
  unfold wait_for_completion, bind, time_time in Hrun.
  apply wait_loop_stops_at_failure in Hrun. destruct Hrun as (tr & Htr' & Hstops).
  rewrite Htr' in Htr. apply app_inv_head in Htr.
  eapply Hstops; eauto.
Qed.

Lemma wait_raises_at_failed_poll_witness :
  let client := new_client API_BASE in
  let job := JStr "j1" in
  let w := world_of (service_breaking_at 1) [] in
  let r := wait_for_completion sample_runtime 5 client job 1000 300000 None w in
  let failed :=
    {| latency := 20;
       answer := inr {| status_code := 503; reason := "Service Unavailable";
                        resp_url := "https://mc.agaii.org/TTS/api/v1/jobs/j1/status";
                        resp_json := inl "Expecting value: line 1 column 1 (char 0)";
                        content := "" |} |} in
  fetched failed = None
  /\ trace (snd r)
     = [EvRequest (status_request sample_runtime client job) (ok_json processing);
        EvSleep 1000]
         ++ EvRequest (status_request sample_runtime client job) failed :: []
  /\ exists e, fst r = Raise e.
Proof.
  intros client job w r failed.
  assert (Htr : trace (snd r)
                = trace w
                    ++ [EvRequest (status_request sample_runtime client job)
                          (ok_json processing); EvSleep 1000]
                    ++ EvRequest (status_request sample_runtime client job) failed :: [])
    by (vm_compute; reflexivity).
  destruct (wait_raises_at_failed_poll sample_runtime client job 1000 300000 None 5%nat
              w (fst r) (snd r) _ _ failed [] (surjective_pairing r) Htr eq_refl)
    as [He _].
  split; [reflexivity|]. split; [exact Htr | exact He].
Defined.

(** X8. The deadline caps the number of polls: in any run of
    [wait_for_completion] that polls [n >= 1] times,
    [(n - 1) * poll_interval < timeout]; with the defaults (1 s, 300 s) a
    run sends at most 300 status requests. *)
Theorem poll_count_is_bounded :
  forall rt self job_id cb fuel w,
    (forall poll_interval timeout,
        exists tr,
          trace (snd (wait_for_completion rt fuel self job_id poll_interval timeout cb w))
          = trace w ++ tr
          /\ (on_wire tr = []
              \/ (Z.of_nat (List.length (on_wire tr)) - 1) * poll_interval < timeout))
    /\ exists tr,
         trace (snd (wait_for_completion rt fuel self job_id default_poll_interval
                       default_timeout cb w))
         = trace w ++ tr
         /\ (List.length (on_wire tr) <= 300)%nat.
Proof.
  intros rt self job_id cb fuel w.
  assert (H : forall poll_interval timeout,
             exists tr,
               trace (snd (wait_for_completion rt fuel self job_id poll_interval
                             timeout cb w)) = trace w ++ tr
               /\ (on_wire tr = []
                   \/ (Z.of_nat (List.length (on_wire tr)) - 1) * poll_interval
                      < timeout)).
  { intros poll_interval timeout. unfold wait_for_completion, bind, time_time.
    destruct (wait_loop rt fuel self (now w) job_id poll_interval timeout cb w)
      as [out w'] eqn:E.
    apply wait_loop_poll_bound in E. destruct E as (tr & Htr & Hb).
    exists tr. split; [exact Htr|]. rewrite Z.sub_diag, Z.sub_0_r in Hb. exact Hb. }
  split; [exact H|].
  destruct (H default_poll_interval default_timeout) as (tr & Htr & Hb).
  exists tr. split; [exact Htr|].
  unfold default_poll_interval, default_timeout in Hb.
  destruct Hb as [-> | Hb]; [simpl; lia | lia].
Qed.

(** ** More on the single-job commands *)

Section Closing.

Variable rt : Runtime.

Lemma has_audio_lacks status w :
  lacks_audio status = true -> has_audio rt status w = (Val false, w).
Proof.
  unfold lacks_audio, has_audio, bind, subscript, dict_get, ret.
  destruct status; try discriminate.
  destruct (assoc "status" kvs) as [s|]; [|discriminate].
  destruct (is_str "completed" s); [|reflexivity].
  cbn [andb]. intros H. apply negb_true_iff in H. now rewrite H.
Qed.

Lemma dict_get_error_of status w :
  lacks_audio status = true ->
  dict_get rt status "error" (JStr "Unknown") w = (Val (error_of status), w).
Proof. destruct status; try discriminate. reflexivity. Qed.

Lemma has_audio_offers status url w :
  offers_audio status url -> has_audio rt status w = (Val true, w).
Proof.
  intros (kvs & -> & Hs & Ha & Hne).
  unfold has_audio, bind, subscript, dict_get, ret. rewrite Hs. cbn [is_str].
  rewrite String.eqb_refl, Ha. cbn [truthy].
  apply String.eqb_neq in Hne. now rewrite Hne.
Qed.

Lemma subscript_offers status url w :
  offers_audio status url -> subscript rt status "audio_url" w = (Val (JStr url), w).
Proof. intros (kvs & -> & _ & Ha & _). unfold subscript. now rewrite Ha. Qed.

(** The [if ... else ...] that closes the single-job commands, on a status
    without audio and on one with. *)
Lemma closing_without_audio status output w (client : Text2SpeechClient) :
  lacks_audio status = true ->
  (ok <- has_audio rt status ;;
   if ok then
     url <- subscript rt status "audio_url" ;;
     download_audio rt client url output ;;;
     print ("✓ Saved: " ++ output)%string
   else
     error <- dict_get rt status "error" (JStr "Unknown") ;;
     eprint ("✗ Failed: " ++ py_str rt error)%string ;;;
     sys_exit 1) w
  = (Exit 1, log (failure_line rt status) w).
Proof.
  intros H. erewrite bind_val by (apply has_audio_lacks; exact H).
  cbv beta iota.
  erewrite bind_val by (apply dict_get_error_of; exact H).
  reflexivity.
Qed.

Lemma closing_with_audio status url output w (client : Text2SpeechClient) :
  offers_audio status url ->
  (ok <- has_audio rt status ;;
   if ok then
     u <- subscript rt status "audio_url" ;;
     download_audio rt client u output ;;;
     print ("✓ Saved: " ++ output)%string
   else
     error <- dict_get rt status "error" (JStr "Unknown") ;;
     eprint ("✗ Failed: " ++ py_str rt error)%string ;;;
     sys_exit 1) w
  = (download_audio rt client (JStr url) output ;;;
     print ("✓ Saved: " ++ output)%string) w.
Proof.
  intros H. erewrite bind_val by (eapply has_audio_offers; exact H).
  cbv beta iota.
  erewrite bind_val by (eapply subscript_offers; exact H).
  reflexivity.
Qed.

(** What the download at the end of a command comes to, from the world
    [w] in which it starts. *)
Lemma download_then_saved client url output w :
  let req := GET (resolve_audio_url client url) in
  match delivered (reply_to req w) with
  | None =>
      exists e,
        (download_audio rt client (JStr url) output ;;;
         print ("✓ Saved: " ++ output)%string) w
        = (Raise e, after_request req w)
  | Some resp =>
      write_error w output = None ->
      (download_audio rt client (JStr url) output ;;;
       print ("✓ Saved: " ++ output)%string) w
      = (Val tt,
         printed ("✓ Saved: " ++ output)
           (log (EvWrite output (content resp))
              (store output (content resp) (after_request req w))))
  end.
Proof.
  intros req. unfold download_audio. fold req.
  destruct (delivered (reply_to req w)) as [resp|] eqn:Hd.
  - intros Hw. unfold bind at 1.
    rewrite (checked_request_delivered req _ w resp Hd).
    unfold write_file. cbn [write_error after_request log advance]. rewrite Hw.
    reflexivity.
  - destruct (checked_request_failed req (fun r => write_file output (content r)) w Hd)
      as [e He].
    exists e. unfold bind at 1. now rewrite He.
Qed.

(** X9. A job that ends without audio (status [failed] or [cancelled], or
    [completed] with no usable [audio_url]) makes [cmd_speak], [cmd_design]
    and [cmd_clone] write [✗ Failed: <status.get('error', 'Unknown')>] to
    [stderr] and exit with code 1; that line is the last thing they do, so
    nothing is downloaded or written. *)
Theorem job_without_audio_exits_1 :
  forall fuel status,
    lacks_audio status = true ->
    (forall text speaker output language instruct w id w1 w2,
        custom_voice rt (new_client API_BASE) text speaker language instruct
          (printed ("Text: " ++ take_chars 60 text ++ "...")
             (printed ("Generating speech with speaker: " ++ speaker) w))
        = (Val id, w1) ->
        wait_for_completion rt fuel (new_client API_BASE) id default_poll_interval
          default_timeout (Some (show_progress rt))
          (printed ("Job ID: " ++ py_str rt id) w1)
        = (Val status, w2) ->
        cmd_speak rt fuel text speaker output language instruct w
        = (Exit 1, log (failure_line rt status) (printed "" w2)))
    /\ (forall text description output language w id w1 w2,
           voice_design rt (new_client API_BASE) text description language
             (printed ("Text: " ++ take_chars 60 text ++ "...")
                (printed ("Designing voice: " ++ description) w))
           = (Val id, w1) ->
           wait_for_completion rt fuel (new_client API_BASE) id default_poll_interval
             default_timeout None (printed ("Job ID: " ++ py_str rt id) w1)
           = (Val status, w2) ->
           cmd_design rt fuel text description output language w
           = (Exit 1, log (failure_line rt status) w2))
    /\ (forall audio text output ref_text x_vector_only instruct timbre language
               w id w1 w2,
           cmd_clone_submit rt (new_client API_BASE) audio text ref_text x_vector_only
             instruct timbre language w
           = (Val id, w1) ->
           wait_for_completion rt fuel (new_client API_BASE) id default_poll_interval
             default_timeout None
             (printed ("Job ID: " ++ py_str rt id)
                (printed ("Text: " ++ take_chars 60 text ++ "...") w1))
           = (Val status, w2) ->
           cmd_clone rt fuel audio text output ref_text x_vector_only instruct timbre
             language w
           = (Exit 1, log (failure_line rt status) w2)).
Proof.
  intros fuel status Hst. split; [|split].
  - intros text speaker output language instruct w id w1 w2 Hsub Hwait.
    unfold cmd_speak. rewrite !bind_print.
    erewrite bind_val by exact Hsub. rewrite bind_print.
    erewrite bind_val by exact Hwait. rewrite bind_print.
    now apply closing_without_audio.
  - intros text description output language w id w1 w2 Hsub Hwait.
    unfold cmd_design. rewrite !bind_print.
    erewrite bind_val by exact Hsub. rewrite bind_print.
    erewrite bind_val by exact Hwait.
    now apply closing_without_audio.
  - intros audio text output ref_text x_vector_only instruct timbre language
           w id w1 w2 Hsub Hwait.
    unfold cmd_clone.
    erewrite bind_val by exact Hsub. rewrite !bind_print.
    erewrite bind_val by exact Hwait.
    now apply closing_without_audio.
Qed.

(** X10. A job that ends [completed] with a non-empty string [audio_url]
    makes [cmd_speak], [cmd_design] and [cmd_clone] fetch the resolved URL
    and, once the response has passed [raise_for_status] and the output
    path is writable, write its bytes to the output path, print
    [✓ Saved: <output>] and return; these three events are all that
    follows the wait. *)
Theorem job_with_audio_is_saved :
  forall fuel status url output resp,
    offers_audio status url ->
    let client := new_client API_BASE in
    let req := GET (resolve_audio_url client url) in
    let saved (w : World) : World :=
      printed ("✓ Saved: " ++ output)
        (log (EvWrite output (content resp))
           (store output (content resp) (after_request req w))) in
    (forall text speaker language instruct w id w1 w2,
        custom_voice rt client text speaker language instruct
          (printed ("Text: " ++ take_chars 60 text ++ "...")
             (printed ("Generating speech with speaker: " ++ speaker) w))
        = (Val id, w1) ->
        wait_for_completion rt fuel client id default_poll_interval
          default_timeout (Some (show_progress rt))
          (printed ("Job ID: " ++ py_str rt id) w1)
        = (Val status, w2) ->
        delivered (reply_to req (printed "" w2)) = Some resp ->
        write_error w2 output = None ->
        cmd_speak rt fuel text speaker output language instruct w
        = (Val tt, saved (printed "" w2)))
    /\ (forall text description language w id w1 w2,
           voice_design rt client text description language
             (printed ("Text: " ++ take_chars 60 text ++ "...")
                (printed ("Designing voice: " ++ description) w))
           = (Val id, w1) ->
           wait_for_completion rt fuel client id default_poll_interval
             default_timeout None (printed ("Job ID: " ++ py_str rt id) w1)
           = (Val status, w2) ->
           delivered (reply_to req w2) = Some resp ->
           write_error w2 output = None ->
           cmd_design rt fuel text description output language w = (Val tt, saved w2))
    /\ (forall audio text ref_text x_vector_only instruct timbre language w id w1 w2,
           cmd_clone_submit rt client audio text ref_text x_vector_only instruct timbre
             language w
           = (Val id, w1) ->
           wait_for_completion rt fuel client id default_poll_interval
             default_timeout None
             (printed ("Job ID: " ++ py_str rt id)
                (printed ("Text: " ++ take_chars 60 text ++ "...") w1))
           = (Val status, w2) ->
           delivered (reply_to req w2) = Some resp ->
           write_error w2 output = None ->
           cmd_clone rt fuel audio text output ref_text x_vector_only instruct timbre
             language w
           = (Val tt, saved w2))
    /\ (forall w, assoc output (files (saved w)) = Some (content resp)).
Proof.
  intros fuel status url output resp Hst client req saved.
  split; [|split; [|split]].
  - intros text speaker language instruct w id w1 w2 Hsub Hwait Hd Hw.
    unfold cmd_speak. rewrite !bind_print.
    erewrite bind_val by exact Hsub. rewrite bind_print.
    erewrite bind_val by exact Hwait. rewrite bind_print.
    rewrite (closing_with_audio status url output _ _ Hst).
    pose proof (download_then_saved (new_client API_BASE) url output (printed "" w2))
      as Hdl.
    cbv zeta in Hdl. fold client req in Hdl. rewrite Hd in Hdl. now apply Hdl.
  - intros text description language w id w1 w2 Hsub Hwait Hd Hw.
    unfold cmd_design. rewrite !bind_print.
    erewrite bind_val by exact Hsub. rewrite bind_print.
    erewrite bind_val by exact Hwait.
    rewrite (closing_with_audio status url output _ _ Hst).
    pose proof (download_then_saved (new_client API_BASE) url output w2) as Hdl.
    cbv zeta in Hdl. fold client req in Hdl. rewrite Hd in Hdl. now apply Hdl.
  - intros audio text ref_text x_vector_only instruct timbre language w id w1 w2
           Hsub Hwait Hd Hw.
    unfold cmd_clone.
    erewrite bind_val by exact Hsub. rewrite !bind_print.
    erewrite bind_val by exact Hwait.
    rewrite (closing_with_audio status url output _ _ Hst).
    pose proof (download_then_saved (new_client API_BASE) url output w2) as Hdl.
    cbv zeta in Hdl. fold client req in Hdl. rewrite Hd in Hdl. now apply Hdl.
  - intros w. unfold saved, printed. cbn [files log]. apply assoc_store_same.
Qed.

End Closing.

Lemma job_without_audio_exits_1_witness :
  let w := world_of (service failed_status) [] in
  lacks_audio failed_status = true
  /\ cmd_design sample_runtime 5 "hello" "warm" "out.wav" "Auto" w
     = (Exit 1,
        log (EvPrint Stderr ("✗ Failed: GPU out of memory" ++ nl)%string)
          (snd (wait_for_completion sample_runtime 5 (new_client API_BASE) (JStr "j1")
                  default_poll_interval default_timeout None
                  (printed "Job ID: j1"
                     (snd (voice_design sample_runtime (new_client API_BASE) "hello"
                             "warm" "Auto"
                             (printed "Text: hello..."
                                (printed "Designing voice: warm" w)))))))).
Proof.
  intros w.
  destruct (job_without_audio_exits_1 sample_runtime 5 failed_status eq_refl)
    as (_ & Hdesign & _).
  split; [reflexivity|].
  erewrite (Hdesign "hello" "warm" "out.wav" "Auto" w (JStr "j1")).
  - reflexivity.
  - vm_compute. reflexivity.
  - vm_compute. reflexivity.
Defined.

Lemma job_with_audio_is_saved_witness :
  let w := world_of (service_after 1) [] in
  let r := cmd_speak sample_runtime 5 "hello" "vivian" "out.wav" "Auto" None w in
  offers_audio completed "/files/j1.wav"
  /\ fst r = Val tt
  /\ assoc "out.wav" (files (snd r)) = Some "RIFF"%string
  /\ map (fun e => match e with EvRequest req _ => url_of req | _ => ""%string end)
       (on_wire (trace (snd r)))
     = ["https://mc.agaii.org/TTS/api/v1/tts/custom-voice";
        "https://mc.agaii.org/TTS/api/v1/jobs/j1/status";
        "https://mc.agaii.org/TTS/api/v1/jobs/j1/status";
        "https://mc.agaii.org/TTS/api/v1/files/j1.wav"]%string.
Proof.
  intros w r.
  assert (Hst : offers_audio completed "/files/j1.wav").
  { eexists. repeat split; try reflexivity. discriminate. }
  destruct (job_with_audio_is_saved sample_runtime 5 completed "/files/j1.wav" "out.wav"
              {| status_code := 200; reason := "OK"; resp_url := "";
                 resp_json := inl "Expecting value: line 1 column 1 (char 0)";
                 content := "RIFF" |} Hst)
    as (Hspeak & _ & _ & Hfile).
  set (w1 := snd (custom_voice sample_runtime (new_client API_BASE) "hello" "vivian"
                    "Auto" None
                    (printed "Text: hello..."
                       (printed "Generating speech with speaker: vivian" w)))).
  set (w2 := snd (wait_for_completion sample_runtime 5 (new_client API_BASE) (JStr "j1")
                    default_poll_interval default_timeout
                    (Some (show_progress sample_runtime)) (printed "Job ID: j1" w1))).
  assert (Hr : r = (Val tt,
                    printed "✓ Saved: out.wav"
                      (log (EvWrite "out.wav" "RIFF")
                         (store "out.wav" "RIFF"
                            (after_request
                               (GET (resolve_audio_url (new_client API_BASE)
                                       "/files/j1.wav"))
                               (printed "" w2)))))).
  { apply (Hspeak "hello"%string "vivian"%string "Auto"%string None w (JStr "j1") w1 w2).
    - vm_compute. reflexivity.
    - vm_compute. reflexivity.
    - vm_compute. reflexivity.
    - reflexivity. }
  split; [exact Hst|]. rewrite Hr. split; [reflexivity|].
  split; [apply Hfile|]. vm_compute. reflexivity.
Defined.

(** ** More on the batch loops *)

Lemma files_kept_refl w : files_kept w w.
Proof. intros p data H. eauto. Qed.

Lemma files_kept_trans w1 w2 w3 : files_kept w1 w2 -> files_kept w2 w3 -> files_kept w1 w3.
Proof. intros H1 H2 p data H. destruct (H1 _ _ H) as [d Hd]. eauto. Qed.

Lemma files_kept_same w w' : files w' = files w -> files_kept w w'.
Proof. intros E p data H. rewrite E. eauto. Qed.

Lemma keeps_of_same {A} (m : M A) :
  (forall w, files (snd (m w)) = files w) -> keeps_files m.
Proof. intros H w. apply files_kept_same, H. Qed.

Lemma keeps_ret {A} (a : A) : keeps_files (ret a).
Proof. intros w. apply files_kept_refl. Qed.

Lemma keeps_raise {A} c msg : keeps_files (@raise A c msg).
Proof. intros w. apply files_kept_refl. Qed.

Lemma keeps_bind {A B} (m : M A) (k : A -> M B) :
  keeps_files m -> (forall a, keeps_files (k a)) -> keeps_files (bind m k).
Proof.
  intros Hm Hk w. unfold bind. specialize (Hm w).
  destruct (m w) as [[a|e|c|] w1]; simpl in *; auto.
  eapply files_kept_trans; [exact Hm | apply Hk].
Qed.

Lemma keeps_try {A} (m : M A) (h : Exn -> M A) :
  keeps_files m -> (forall e, keeps_files (h e)) -> keeps_files (try_except m h).
Proof.
  intros Hm Hh w. unfold try_except. specialize (Hm w).
  destruct (m w) as [[a|e|c|] w1]; simpl in *; auto.
  eapply files_kept_trans; [exact Hm | apply Hh].
Qed.

Lemma keeps_print text : keeps_files (print text).
Proof. apply keeps_of_same. reflexivity. Qed.

Lemma keeps_http req : keeps_files (http req).
Proof. apply keeps_of_same. intros w. rewrite http_run. reflexivity. Qed.

Lemma keeps_raise_for_status resp : keeps_files (raise_for_status resp).
Proof.
  apply keeps_of_same. intros w.
  pose proof (raise_for_status_cases resp w) as H.
  destruct (_ && _); [destruct H as [e ->] | rewrite H]; reflexivity.
Qed.

Lemma keeps_json_of resp : keeps_files (json_of resp).
Proof. unfold json_of. destruct (resp_json resp); [apply keeps_raise | apply keeps_ret]. Qed.

Lemma keeps_open_read path : keeps_files (open_read path).
Proof.
  apply keeps_of_same. intros w. unfold open_read.
  destruct (assoc path (files w)); [reflexivity|].
  destruct (is_dir w path); reflexivity.
Qed.

Lemma keeps_write_file path data : keeps_files (write_file path data).
Proof.
  intros w p d H. unfold write_file. destruct (write_error w path); cbn [snd]; eauto.
  cbn [files log]. destruct (String.eqb_spec p path) as [->|Hne].
  - rewrite assoc_store_same. eauto.
  - rewrite assoc_store_other by exact Hne. eauto.
Qed.

Lemma keeps_subscript rt v key : keeps_files (subscript rt v key).
Proof.
  unfold subscript. destruct v; try apply keeps_raise.
  destruct (assoc key kvs); [apply keeps_ret | apply keeps_raise].
Qed.

Lemma keeps_dict_get rt v key d : keeps_files (dict_get rt v key d).
Proof. unfold dict_get. destruct v; try apply keeps_raise. apply keeps_ret. Qed.

Lemma keeps_job_id_of rt resp : keeps_files (job_id_of rt resp).
Proof.
  unfold job_id_of. apply keeps_bind; [apply keeps_raise_for_status|intros _].
  apply keeps_bind; [apply keeps_json_of | intros; apply keeps_subscript].
Qed.

Lemma keeps_custom_voice rt self text speaker language instruct :
  keeps_files (custom_voice rt self text speaker language instruct).
Proof.
  unfold custom_voice. apply keeps_bind; [apply keeps_http | intros; apply keeps_job_id_of].
Qed.

Lemma keeps_voice_clone rt self text audio language ref_text x instruct :
  keeps_files (voice_clone rt self text audio language ref_text x instruct).
Proof.
  unfold voice_clone. apply keeps_bind; [apply keeps_open_read|intros f].
  apply keeps_bind; [apply keeps_http | intros; apply keeps_job_id_of].
Qed.

Lemma keeps_wait rt fuel self job_id poll_interval timeout cb :
  keeps_files (wait_for_completion rt fuel self job_id poll_interval timeout cb).
Proof.
  apply keeps_of_same. intros w. unfold wait_for_completion, bind, time_time.
  destruct (wait_loop rt fuel self (now w) job_id poll_interval timeout cb w)
    as [out w'] eqn:E.
  apply wait_loop_only_polls in E. apply E.
Qed.

Lemma keeps_has_audio rt status : keeps_files (has_audio rt status).
Proof.
  unfold has_audio. apply keeps_bind; [apply keeps_subscript|intros s].
  destruct (is_str _ s); [|apply keeps_ret].
  apply keeps_bind; [apply keeps_dict_get | intros; apply keeps_ret].
Qed.

Lemma keeps_download_audio rt self url out : keeps_files (download_audio rt self url out).
Proof.
  unfold download_audio. destruct url; try apply keeps_raise.
  apply keeps_bind; [apply keeps_http|intros resp].
  apply keeps_bind; [apply keeps_raise_for_status | intros; apply keeps_write_file].
Qed.

Lemma download_audio_val rt self url out w w' :
  download_audio rt self url out w = (Val tt, w') ->
  exists data, assoc out (files w') = Some data.
Proof.
  destruct url as [| | |u| |]; try discriminate.
  intros H. pose proof (fetch_and_write (GET (resolve_audio_url self u)) out w) as Hc.
  cbv zeta in Hc. unfold download_audio in H. rewrite H in Hc. cbn [fst snd] in Hc.
  destruct Hc as [_ Hc].
  destruct (delivered _) as [resp|].
  - destruct (write_error w out); [destruct Hc; discriminate|].
    destruct Hc as (_ & Hfile & _). eauto.
  - destruct Hc as [[e He] _]. discriminate.
Qed.

Lemma yields_in_bind {A B} (P : B -> World -> Prop) (m : M A) (k : A -> M B) :
  (forall a, yields_in P (k a)) -> yields_in P (bind m k).
Proof.
  intros Hk w. unfold bind. destruct (m w) as [[a|e|c|] w1]; auto. apply Hk.
Qed.

Section Artifacts.

Variable rt : Runtime.
Variable fuel : nat.
Variable client : Text2SpeechClient.
Variable output_path : string.

Lemma closing_on_disk (Q : World -> JVal -> Prop) name results status
    (success : JVal) :
  (forall w data,
      assoc (path_join output_path (stem name ++ ".wav")) (files w) = Some data ->
      Q w success) ->
  (forall w error,
      Q w (JObj [("file", JStr name); ("status", JStr "failed"); ("error", error)])) ->
  yields_in (one_more_on_disk Q results)
    (ok <- has_audio rt status ;;
     if ok then
       url <- subscript rt status "audio_url" ;;
       download_audio rt client url (path_join output_path (stem name ++ ".wav")) ;;;
       print ("  ✓ " ++ stem name ++ ".wav")%string ;;;
       ret (results ++ [success])
     else
       error <- dict_get rt status "error" (JStr "Unknown") ;;
       print ("  ✗ " ++ py_str rt error)%string ;;;
       ret (results ++ [JObj [("file", JStr name); ("status", JStr "failed");
                              ("error", error)]])).
Proof.
  intros Hsucc Hfail. apply yields_in_bind. intros ok. destruct ok.
  - apply yields_in_bind. intros url w. unfold bind at 1.
    destruct (download_audio rt client url _ w) as [[[]|e|c|] w1] eqn:Hd; auto.
    apply download_audio_val in Hd. destruct Hd as [data Hdata].
    rewrite bind_print. unfold ret. exists success. split; [reflexivity|].
    apply (Hsucc _ data). exact Hdata.
  - apply yields_in_bind. intros error w. rewrite bind_print. unfold ret.
    eexists. split; [reflexivity | apply Hfail].
Qed.

Lemma keeps_closing name results status (success : JVal) :
  keeps_files
    (ok <- has_audio rt status ;;
     if ok then
       url <- subscript rt status "audio_url" ;;
       download_audio rt client url (path_join output_path (stem name ++ ".wav")) ;;;
       print ("  ✓ " ++ stem name ++ ".wav")%string ;;;
       ret (results ++ [success])
     else
       error <- dict_get rt status "error" (JStr "Unknown") ;;
       print ("  ✗ " ++ py_str rt error)%string ;;;
       ret (results ++ [JObj [("file", JStr name); ("status", JStr "failed");
                              ("error", error)]])).
Proof.
  apply keeps_bind; [apply keeps_has_audio|intros ok]. destruct ok.
  - apply keeps_bind; [apply keeps_subscript|intros url].
    apply keeps_bind; [apply keeps_download_audio|intros _].
    apply keeps_bind; [apply keeps_print | intros; apply keeps_ret].
  - apply keeps_bind; [apply keeps_dict_get|intros error].
    apply keeps_bind; [apply keeps_print | intros; apply keeps_ret].
Qed.

Lemma keeps_batch_speak_try speaker language instruct name text results :
  keeps_files
    (batch_speak_try rt fuel client output_path speaker language instruct name text
       results).
Proof.
  unfold batch_speak_try.
  apply keeps_bind; [apply keeps_custom_voice|intros id].
  apply keeps_bind; [apply keeps_print|intros _].
  apply keeps_bind; [apply keeps_wait|intros status].
  apply keeps_closing.
Qed.

Lemma keeps_batch_clone_try reference_audio ref_text language name text results :
  keeps_files
    (batch_clone_try rt fuel client output_path reference_audio ref_text language name
       text results).
Proof.
  unfold batch_clone_try.
  apply keeps_bind; [apply keeps_voice_clone|intros id].
  apply keeps_bind; [apply keeps_print|intros _].
  apply keeps_bind; [apply keeps_wait|intros status].
  apply keeps_closing.
Qed.

Lemma on_disk_batch_speak_try speaker language instruct name text results :
  yields_in (one_more_on_disk (artifact_recorded output_path) results)
    (batch_speak_try rt fuel client output_path speaker language instruct name text
       results).
Proof.
  unfold batch_speak_try. do 3 (apply yields_in_bind; intros ?).
  apply closing_on_disk.
  - intros w data Hdata _. exists name, data. repeat split; auto.
  - intros w error H. discriminate.
Qed.

Lemma on_disk_batch_clone_try reference_audio ref_text language name text results :
  yields_in (one_more_on_disk (artifact_present output_path) results)
    (batch_clone_try rt fuel client output_path reference_audio ref_text language name
       text results).
Proof.
  unfold batch_clone_try. do 3 (apply yields_in_bind; intros ?).
  apply closing_on_disk.
  - intros w data Hdata _. exists name, data. repeat split; auto.
  - intros w error H. discriminate.
Qed.

End Artifacts.

Section OnDisk.

Variable attempt : string -> string -> list JVal -> M (list JVal).
Variable input_path : string.
Variable total : nat.
Variable Q : World -> JVal -> Prop.

Hypothesis Q_kept : forall w w' r, files_kept w w' -> Q w r -> Q w' r.
Hypothesis Q_error : forall w name e, Q w (error_record name e).
Hypothesis attempt_keeps :
  forall name text results, keeps_files (attempt name text results).
Hypothesis attempt_on_disk :
  forall name text results,
    yields_in (one_more_on_disk Q results) (attempt name text results).

Lemma shared_body_on_disk i name results w :
  Forall (Q w) results ->
  match shared_body attempt input_path total i name results w with
  | (Val r, w') => Forall (Q w') r /\ files_kept w w'
  | _ => True
  end.
Proof.
  intros Hall.
  destruct (assoc (path_join input_path name) (files w)) as [raw|] eqn:Hraw.
  2:{ unfold shared_body. rewrite bind_print.
      unfold bind at 1, read_text, bind, open_read. cbn [files printed log].
      rewrite Hraw. destruct (is_dir _ _); exact I. }
  rewrite (shared_body_at_file attempt input_path total i name results w raw Hraw).
  assert (Hat : files_kept w (at_file input_path total i name w))
    by (apply files_kept_same; reflexivity).
  destruct (String.eqb (text_of raw) "").
  - rewrite bind_print. unfold ret. split.
    + eapply Forall_impl; [|exact Hall]. intros r. apply Q_kept.
      apply files_kept_same. reflexivity.
    + apply files_kept_same. reflexivity.
  - unfold try_except.
    pose proof (attempt_keeps name (text_of raw) results
                  (at_file input_path total i name w)) as Hk.
    pose proof (attempt_on_disk name (text_of raw) results
                  (at_file input_path total i name w)) as Hy.
    destruct (attempt name (text_of raw) results (at_file input_path total i name w))
      as [[r|e|c|] w2]; cbn [snd] in Hk; auto.
    + assert (Hk2 : files_kept w w2)
        by (eapply files_kept_trans; [exact Hat | exact Hk]).
      destruct Hy as (rec & -> & Hrec). split; [|exact Hk2].
      apply Forall_app. split; [|constructor; auto].
      eapply Forall_impl; [|exact Hall]. intros r. now apply Q_kept.
    + unfold batch_except. rewrite bind_print. unfold ret.
      assert (Hk2 : files_kept w (printed ("  ✗ " ++ exn_msg e) w2)).
      { eapply files_kept_trans; [exact Hat|].
        eapply files_kept_trans; [exact Hk | apply files_kept_same; reflexivity]. }
      split; [|exact Hk2].
      apply Forall_app. split; [|constructor; auto].
      eapply Forall_impl; [|exact Hall]. intros r. now apply Q_kept.
Qed.

Lemma shared_loop_on_disk text_files :
  forall i results w,
    Forall (Q w) results ->
    match shared_loop attempt input_path total i text_files results w with
    | (Val r, w') => Forall (Q w') r
    | _ => True
    end.
Proof.
  induction text_files as [|name rest IH]; intros i results w Hall; [exact Hall|].
  cbn [shared_loop]. unfold bind.
  pose proof (shared_body_on_disk i name results w Hall) as Hb.
  destruct (shared_body attempt input_path total i name results w) as [[r|e|c|] w1];
    auto.
  apply IH. apply Hb.
Qed.

End OnDisk.

Lemma artifact_recorded_kept output_path w w' r :
  files_kept w w' -> artifact_recorded output_path w r -> artifact_recorded output_path w' r.
Proof.
  intros Hk H Hs. destruct (H Hs) as (name & data & Hn & Ho & Hf).
  destruct (Hk _ _ Hf) as [data' Hf']. exists name, data'. auto.
Qed.

Lemma artifact_present_kept output_path w w' r :
  files_kept w w' -> artifact_present output_path w r -> artifact_present output_path w' r.
Proof.
  intros Hk H Hs. destruct (H Hs) as (name & data & Hn & Hf).
  destruct (Hk _ _ Hf) as [data' Hf']. exists name, data'. auto.
Qed.

Lemma cmd_batch_speak_on_disk rt fuel input_dir output_dir speaker language instruct w :
  match cmd_batch_speak rt fuel input_dir output_dir speaker language instruct w with
  | (Val res, w') =>
      Forall (artifact_recorded output_dir w') res
      /\ exists w2,
           w' = printed ("Report: " ++ path_join output_dir "batch_report.json")
                  (printed (summary_line res)
                     (log (EvWrite (path_join output_dir "batch_report.json")
                             (json_dumps rt (JArr res)))
                        (store (path_join output_dir "batch_report.json")
                           (json_dumps rt (JArr res)) w2)))
  | _ => True
  end.
Proof.
  unfold cmd_batch_speak. unfold bind at 1, mkdir.
  destruct (write_error w output_dir); [exact I|].
  unfold bind at 1, glob_txt.
  change (txt_files input_dir (log (EvMkdir output_dir) (add_dir output_dir w)))
    with (listed input_dir output_dir w).
  rewrite bind_print.
  set (w1 := printed _ (log (EvMkdir output_dir) (add_dir output_dir w))).
  unfold bind at 1. rewrite batch_speak_loop_shared.
  pose proof (shared_loop_on_disk
                (batch_speak_try rt fuel (new_client API_BASE) output_dir speaker
                   language instruct)
                input_dir (List.length (listed input_dir output_dir w))
                (artifact_recorded output_dir)
                (artifact_recorded_kept output_dir)
                (fun w name e (H : is_success (error_record name e) = true) =>
                   False_ind _ (Bool.diff_false_true H))
                (keeps_batch_speak_try rt fuel (new_client API_BASE) output_dir speaker
                   language instruct)
                (on_disk_batch_speak_try rt fuel (new_client API_BASE) output_dir
                   speaker language instruct)
                (listed input_dir output_dir w) 1%nat [] w1 (Forall_nil _)) as Hloop.
  destruct (shared_loop _ _ _ _ _ _ w1) as [[res|e|c|] w2]; auto.
  unfold bind at 1, write_file.
  destruct (write_error w2 (path_join output_dir "batch_report.json")); [exact I|].
  rewrite !bind_print. unfold ret. split.
  - eapply Forall_impl; [|exact Hloop]. intros r.
    apply artifact_recorded_kept.
    pose proof (keeps_write_file (path_join output_dir "batch_report.json")
                  (json_dumps rt (JArr res)) w2) as Hk.
    unfold write_file in Hk.
    intros p data Hp. unfold printed. cbn [files log].
    destruct (String.eqb_spec p (path_join output_dir "batch_report.json")) as [->|Hne].
    + rewrite assoc_store_same. eauto.
    + rewrite assoc_store_other by exact Hne. eauto.
  - exists w2. reflexivity.
Qed.

Lemma cmd_batch_clone_on_disk rt fuel input_dir output_dir reference_audio ref_text
    language w :
  match cmd_batch_clone rt fuel input_dir output_dir reference_audio ref_text language w
  with
  | (Val res, w') =>
      Forall (artifact_present output_dir w') res
      /\ exists w2, w' = printed (summary_line res) w2
  | _ => True
  end.
Proof.
  unfold cmd_batch_clone. unfold bind at 1, mkdir.
  destruct (write_error w output_dir); [exact I|].
  unfold bind at 1, path_exists.
  destruct (match assoc reference_audio
                    (files (log (EvMkdir output_dir) (add_dir output_dir w))) with
            | Some _ => true
            | None => is_dir (log (EvMkdir output_dir) (add_dir output_dir w))
                        reference_audio
            end); [|exact I].
  unfold bind at 1, ret. unfold bind at 1, glob_txt.
  change (txt_files input_dir (log (EvMkdir output_dir) (add_dir output_dir w)))
    with (listed input_dir output_dir w).
  rewrite !bind_print.
  set (w1 := printed _ (printed _ (log (EvMkdir output_dir) (add_dir output_dir w)))).
  unfold bind at 1. rewrite batch_clone_loop_shared.
  pose proof (shared_loop_on_disk
                (batch_clone_try rt fuel (new_client API_BASE) output_dir reference_audio
                   ref_text language)
                input_dir (List.length (listed input_dir output_dir w))
                (artifact_present output_dir)
                (artifact_present_kept output_dir)
                (fun w name e (H : is_success (error_record name e) = true) =>
                   False_ind _ (Bool.diff_false_true H))
                (keeps_batch_clone_try rt fuel (new_client API_BASE) output_dir
                   reference_audio ref_text language)
                (on_disk_batch_clone_try rt fuel (new_client API_BASE) output_dir
                   reference_audio ref_text language)
                (listed input_dir output_dir w) 1%nat [] w1 (Forall_nil _)) as Hloop.
  destruct (shared_loop _ _ _ _ _ _ w1) as [[res|e|c|] w2]; auto.
  rewrite bind_print. unfold ret. split; [exact Hloop|]. exists w2. reflexivity.
Qed.

(** X11. In both batch loops a job that ends without audio (status
    [failed] or [cancelled], or [completed] with no usable [audio_url]) is
    recorded as [{file, status: "failed", error: status.get('error',
    'Unknown')}]; the [try] suite prints the error and returns, with no
    download. *)
Theorem batch_records_failed_jobs :
  forall rt fuel client output_path name text results status,
    lacks_audio status = true ->
    (forall speaker language instruct w id w1 w2,
        custom_voice rt client text speaker language instruct w = (Val id, w1) ->
        wait_for_completion rt fuel client id default_poll_interval default_timeout None
          (printed ("  → " ++ py_str rt id) w1) = (Val status, w2) ->
        batch_speak_try rt fuel client output_path speaker language instruct name text
          results w
        = (Val (results ++ [failed_record name status]),
           printed ("  ✗ " ++ py_str rt (error_of status)) w2))
    /\ (forall reference_audio ref_text language w id w1 w2,
           voice_clone rt client text reference_audio language ref_text false None w
           = (Val id, w1) ->
           wait_for_completion rt fuel client id default_poll_interval default_timeout
             None (printed ("  → " ++ py_str rt id) w1) = (Val status, w2) ->
           batch_clone_try rt fuel client output_path reference_audio ref_text language
             name text results w
           = (Val (results ++ [failed_record name status]),
              printed ("  ✗ " ++ py_str rt (error_of status)) w2)).
Proof.
  intros rt fuel client output_path name text results status Hst. split.
  - intros speaker language instruct w id w1 w2 Hsub Hwait.
    unfold batch_speak_try. erewrite bind_val by exact Hsub. rewrite bind_print.
    erewrite bind_val by exact Hwait.
    erewrite bind_val by (apply has_audio_lacks; exact Hst). cbv beta iota.
    erewrite bind_val by (apply dict_get_error_of; exact Hst).
    rewrite bind_print. reflexivity.
  - intros reference_audio ref_text language w id w1 w2 Hsub Hwait.
    unfold batch_clone_try. erewrite bind_val by exact Hsub. rewrite bind_print.
    erewrite bind_val by exact Hwait.
    erewrite bind_val by (apply has_audio_lacks; exact Hst). cbv beta iota.
    erewrite bind_val by (apply dict_get_error_of; exact Hst).
    rewrite bind_print. reflexivity.
Qed.

Lemma batch_records_failed_jobs_witness :
  let w := world_of (service failed_status) four_texts in
  lacks_audio failed_status = true
  /\ fst (batch_speak_try sample_runtime 5 (new_client API_BASE) "out" "vivian" "Auto"
            None "a.txt" "first" [] w)
     = Val [JObj [("file", JStr "a.txt"); ("status", JStr "failed");
                  ("error", JStr "GPU out of memory")]].
Proof.
  intros w.
  destruct (batch_records_failed_jobs sample_runtime 5 (new_client API_BASE) "out"
              "a.txt" "first" [] failed_status eq_refl) as [Hspeak _].
  split; [reflexivity|].
  erewrite (Hspeak "vivian" "Auto" None w (JStr "j1")).
  - reflexivity.
  - vm_compute. reflexivity.
  - vm_compute. reflexivity.
Defined.





(** ** The directory listing and the skipping of blank files *)

Lemma insert_sorted_In_iff x n l : In n (insert_sorted x l) <-> n = x \/ In n l.
Proof.
  split; [apply insert_sorted_In|].
  induction l as [|y r IH]; simpl.
  - intros [->|[]]. now left.
  - destruct (String.leb x y); simpl.
    + intros [->|[->|H]]; auto.
    + intros [->|[->|H]]; auto.
Qed.

Lemma sorted_In_iff n l : In n (fold_right insert_sorted [] l) <-> In n l.
Proof.
  induction l as [|x l IH]; simpl; [tauto|].
  rewrite insert_sorted_In_iff, IH. split; intros [H|H]; auto.
Qed.

Lemma insert_sorted_HdRel a x l :
  String.leb a x = true ->
  HdRel (fun p q => String.leb p q = true) a l ->
  HdRel (fun p q => String.leb p q = true) a (insert_sorted x l).
Proof.
  intros Hax H. destruct l as [|y r]; simpl.
  - now constructor.
  - destruct (String.leb x y); constructor; auto. now inversion H.
Qed.

Lemma insert_sorted_Sorted x l :
  Sorted (fun p q => String.leb p q = true) l ->
  Sorted (fun p q => String.leb p q = true) (insert_sorted x l).
Proof.
  induction l as [|y r IH]; simpl; intros Hs.
  - repeat constructor.
  - destruct (String.leb x y) eqn:E.
    + constructor; auto.
    + inversion Hs as [|? ? Hr Hhd]; subst. constructor; auto.
      apply insert_sorted_HdRel; auto.
      destruct (String.leb_total x y) as [H|H]; congruence.
Qed.

Lemma insert_sorted_NoDup x l : ~ In x l -> NoDup l -> NoDup (insert_sorted x l).
Proof.
  induction l as [|y r IH]; simpl; intros Hx Hn.
  - repeat constructor. auto.
  - destruct (String.leb x y).
    + constructor; auto.
    + inversion Hn as [|? ? Hy Hr]; subst. constructor.
      * rewrite insert_sorted_In_iff. intros [->|H]; auto.
      * apply IH; auto.
Qed.

Lemma prefix_append (a b : string) : String.prefix a (a ++ b) = true.
Proof.
  induction a as [|c a IH]; simpl; [now destruct b|].
  destruct (ascii_dec c c); [exact IH | contradiction].
Qed.

Lemma upto_slash_idem s : upto_slash (upto_slash s) = upto_slash s.
Proof.
  induction s as [|c s IH]; simpl; auto.
  destruct (Ascii.eqb c "/") eqn:E; simpl; auto. now rewrite E, IH.
Qed.

Lemma upto_slash_below a rest : upto_slash (a ++ "/" ++ rest) = upto_slash a.
Proof.
  induction a as [|c a IH]; simpl; auto.
  destruct (Ascii.eqb c "/"); auto. now rewrite <- IH.
Qed.

Lemma upto_slash_split s :
  s = upto_slash s \/ exists rest, s = (upto_slash s ++ "/" ++ rest)%string.
Proof.
  induction s as [|c s IH]; simpl; [now left|].
  destruct (Ascii.eqb_spec c "/") as [->|Hc].
  - right. now exists s.
  - destruct IH as [IH|[rest IH]].
    + left. now rewrite <- IH.
    + right. exists rest. cbn [append]. f_equal. exact IH.
Qed.

Lemma sub_append (a b : string) :
  substring (String.length a) (String.length (a ++ b) - String.length a) (a ++ b) = b.
Proof.
  rewrite length_append.
  replace (String.length a + String.length b - String.length a)%nat
    with (String.length b) by lia.
  apply substring_append_tail.
Qed.

(** What [entry_name] finds: the first component of a path below [dir]. *)
Lemma entry_name_below dir rest :
  entry_name dir ((dir ++ "/") ++ rest)
  = match upto_slash rest with EmptyString => None | n => Some n end.
Proof.
  unfold entry_name, startswith. rewrite prefix_append, sub_append. reflexivity.
Qed.

Lemma entry_name_inv dir path n :
  entry_name dir path = Some n ->
  upto_slash n = n /\ n <> ""%string
  /\ (path = path_join dir n
      \/ exists rest, path = (path_join dir n ++ "/" ++ rest)%string).
Proof.
  unfold entry_name, startswith.
  destruct (String.prefix (dir ++ "/") path) eqn:E; [|discriminate].
  apply prefix_split in E.
  set (rest := substring _ _ path) in *. clearbody rest. subst path.
  pose proof (upto_slash_idem rest) as Hidem.
  pose proof (upto_slash_split rest) as Hsplit.
  destruct (upto_slash rest) as [|c m] eqn:Hu; [discriminate|].
  intros [= <-].
  split; [exact Hidem|]. split; [discriminate|].
  unfold path_join.
  destruct Hsplit as [Hr|[rest' Hr]].
  - left. rewrite Hr. apply append_assoc.
  - right. exists rest'. rewrite Hr. rewrite !append_assoc. reflexivity.
Qed.

Lemma entry_name_self dir n :
  upto_slash n = n -> n <> ""%string -> entry_name dir (path_join dir n) = Some n.
Proof.
  intros Hn Hne. unfold path_join. rewrite <- (append_assoc dir "/" n).
  rewrite entry_name_below, Hn. destruct n; [contradiction | reflexivity].
Qed.

Lemma entry_name_under dir n path :
  upto_slash n = n -> n <> ""%string ->
  startswith (path_join dir n ++ "/") path = true ->
  entry_name dir path = Some n.
Proof.
  intros Hn Hne Hp. unfold startswith in Hp. apply prefix_split in Hp.
  rewrite Hp. unfold path_join.
  rewrite (append_assoc (dir ++ "/" ++ n) "/").
  rewrite <- (append_assoc dir "/" n).
  rewrite (append_assoc (dir ++ "/") n).
  rewrite entry_name_below, upto_slash_below, Hn.
  destruct n; [contradiction | reflexivity].
Qed.

Lemma assoc_In {A} (p : string) (v : A) (l : list (string * A)) :
  assoc p l = Some v -> In p (map fst l).
Proof.
  induction l as [|[k x] l IH]; simpl; [discriminate|].
  destruct (String.eqb_spec p k); auto.
Qed.

Lemma In_keys_assoc {A} (p : string) (l : list (string * A)) :
  In p (map fst l) -> assoc p l <> None.
Proof.
  induction l as [|[k x] l IH]; simpl; [intros []|].
  intros [H|H]; destruct (String.eqb_spec p k); try discriminate; auto.
Qed.

Lemma txt_nonempty n : endswith ".txt" n = true -> n <> ""%string.
Proof. intros H ->. discriminate. Qed.

(** X14. What a batch run lists, and in which order it takes it: the
    entries directly in the input directory whose name ends in [.txt],
    regular files and directories alike, each once, in ascending order of
    their names (compared as strings). *)
Theorem listing_is_sorted_txt :
  forall dir w,
    Sorted (fun p q => String.leb p q = true) (txt_files dir w)
    /\ NoDup (txt_files dir w)
    /\ forall n,
         In n (txt_files dir w)
         <-> endswith ".txt" n = true
             /\ upto_slash n = n
             /\ (assoc (path_join dir n) (files w) <> None
                 \/ is_dir w (path_join dir n) = true).
Proof.
  intros dir w. unfold txt_files.
  set (names := flat_map _ _).
  split; [|split].
  - induction (nodup string_dec names) as [|x l IH]; simpl; [constructor|].
    now apply insert_sorted_Sorted.
  - pose proof (NoDup_nodup string_dec names) as Hn.
    induction (nodup string_dec names) as [|x l IH]; simpl; [constructor|].
    inversion Hn; subst. apply insert_sorted_NoDup; auto.
    now rewrite sorted_In_iff.
  - intros n. rewrite sorted_In_iff, nodup_In. unfold names. rewrite in_flat_map.
    split.
    + intros (path & Hin & Hn).
      destruct (entry_name dir path) as [m|] eqn:Hc; [|destruct Hn].
      destruct (endswith ".txt" m) eqn:Ht; [|destruct Hn].
      destruct Hn as [->|[]].
      destruct (entry_name_inv _ _ _ Hc) as (Hone & _ & Hpath).
      split; [exact Ht|]. split; [exact Hone|].
      apply in_app_or in Hin. unfold is_dir.
      destruct Hin as [Hin|Hin], Hpath as [->|[rest ->]].
      * left. now apply In_keys_assoc.
      * right. apply orb_true_iff. right. apply existsb_exists.
        apply in_map_iff in Hin. destruct Hin as (kv & Hkv & Hin).
        exists kv. split; [exact Hin|]. rewrite Hkv. unfold startswith.
        rewrite <- (append_assoc (path_join dir n) "/" rest). apply prefix_append.
      * right. apply orb_true_iff. left. apply existsb_exists.
        exists (path_join dir n). split; [exact Hin|].
        now rewrite String.eqb_refl.
      * right. apply orb_true_iff. left. apply existsb_exists.
        eexists. split; [exact Hin|]. apply orb_true_iff. right. unfold startswith.
        rewrite <- (append_assoc (path_join dir n) "/" rest). apply prefix_append.
    + intros (Ht & Hone & Hex). pose proof (txt_nonempty _ Ht) as Hne.
      assert (Hfound : exists path,
                 In path (map fst (files w) ++ dirs w)
                 /\ entry_name dir path = Some n).
      { destruct Hex as [Hfile|Hdir].
        - destruct (assoc (path_join dir n) (files w)) as [raw|] eqn:Hraw;
            [|contradiction].
          exists (path_join dir n). split; [|now apply entry_name_self].
          apply in_or_app. left. eapply assoc_In. exact Hraw.
        - unfold is_dir in Hdir. apply orb_true_iff in Hdir.
          destruct Hdir as [Hd|Hf]; apply existsb_exists in Hd || apply existsb_exists in Hf.
          + destruct Hd as (d & Hin & Hd). exists d. split; [apply in_or_app; now right|].
            apply orb_true_iff in Hd. destruct Hd as [Hd|Hd].
            * apply String.eqb_eq in Hd. subst d. now apply entry_name_self.
            * now apply entry_name_under.
          + destruct Hf as (kv & Hin & Hf). exists (fst kv).
            split; [apply in_or_app; left; now apply in_map|].
            now apply entry_name_under. }
      destruct Hfound as (path & Hin & Hc). exists path. split; [exact Hin|].
      rewrite Hc, Ht. now left.
Qed.

Lemma drop_ws_blank fuel (l : list ascii) :
  (List.length l <= fuel)%nat ->
  forallb (fun a => is_ws1 (nat_of_ascii a)) l = true ->
  drop_ws ws_width fuel l = [].
Proof.
  revert l. induction fuel as [|fuel IH]; intros l Hlen Hall.
  - destruct l; [reflexivity | simpl in Hlen; lia].
  - destruct l as [|a r]; [reflexivity|].
    cbn [forallb] in Hall. apply andb_true_iff in Hall. destruct Hall as [Ha Hr].
    cbn [drop_ws]. 
    assert (Hw : ws_width (map nat_of_ascii (firstn 3 (a :: r))) = 1%nat).
    { cbn [firstn map ws_width]. now rewrite Ha. }
    rewrite Hw. cbn [skipn]. apply IH; auto. simpl in Hlen. lia.
Qed.

Lemma ascii_blank_forallb s :
  ascii_blank s = forallb (fun a => is_ws1 (nat_of_ascii a)) (list_ascii_of_string s).
Proof. induction s; simpl; auto. now rewrite IHs. Qed.

Lemma strip_blank s : ascii_blank s = true -> strip s = ""%string.
Proof.
  intros H. unfold strip. rewrite ascii_blank_forallb in H.
  rewrite (drop_ws_blank _ _ (Nat.le_refl _) H). reflexivity.
Qed.

Lemma has_visible_existsb s : has_visible s = existsb visible (list_ascii_of_string s).
Proof. induction s; simpl; auto. now rewrite IHs. Qed.

Lemma ws1_not_visible a : is_ws1 (nat_of_ascii a) = true -> visible a = false.
Proof.
  intros H. apply not_true_is_false. intros Hv. unfold visible in Hv.
  unfold is_ws1 in H. bool_facts H. bool_facts Hv. lia.
Qed.

Lemma ws2_not_visible a b :
  is_ws2 (nat_of_ascii a) (nat_of_ascii b) = true ->
  visible a = false /\ visible b = false.
Proof.
  intros H. unfold is_ws2 in H. bool_facts H.
  split; apply not_true_is_false; intros Hv; unfold visible in Hv; bool_facts Hv; lia.
Qed.

Lemma ws3_not_visible a b c :
  is_ws3 (nat_of_ascii a) (nat_of_ascii b) (nat_of_ascii c) = true ->
  visible a = false /\ visible b = false /\ visible c = false.
Proof.
  intros H. unfold is_ws3 in H. bool_facts H.
  repeat split; apply not_true_is_false; intros Hv; unfold visible in Hv;
    bool_facts Hv; lia.
Qed.

Lemma ws_width_skip l :
  existsb visible (skipn (ws_width (map nat_of_ascii (firstn 3 l))) l)
  = existsb visible l.
Proof.
  destruct l as [|a [|b [|c r]]]; cbn [firstn map ws_width]; try reflexivity.
  - destruct (is_ws1 (nat_of_ascii a)) eqn:E1; [|reflexivity].
    cbn [skipn existsb]. now rewrite (ws1_not_visible _ E1).
  - destruct (is_ws1 (nat_of_ascii a)) eqn:E1.
    { cbn [skipn existsb]. now rewrite (ws1_not_visible _ E1). }
    destruct (is_ws2 (nat_of_ascii a) (nat_of_ascii b)) eqn:E2; [|reflexivity].
    destruct (ws2_not_visible _ _ E2) as [Ha Hb].
    cbn [skipn existsb]. now rewrite Ha, Hb.
  - destruct (is_ws1 (nat_of_ascii a)) eqn:E1.
    { cbn [skipn existsb]. now rewrite (ws1_not_visible _ E1). }
    destruct (is_ws2 (nat_of_ascii a) (nat_of_ascii b)) eqn:E2.
    { destruct (ws2_not_visible _ _ E2) as [Ha Hb].
      cbn [skipn existsb]. now rewrite Ha, Hb. }
    destruct (is_ws3 (nat_of_ascii a) (nat_of_ascii b) (nat_of_ascii c)) eqn:E3;
      [|reflexivity].
    destruct (ws3_not_visible _ _ _ E3) as (Ha & Hb & Hc).
    cbn [skipn existsb]. now rewrite Ha, Hb, Hc.
Qed.

Lemma ws_width_rev_skip l :
  existsb visible (skipn (ws_width_rev (map nat_of_ascii (firstn 3 l))) l)
  = existsb visible l.
Proof.
  destruct l as [|a [|b [|c r]]]; cbn [firstn map ws_width_rev]; try reflexivity.
  - destruct (is_ws1 (nat_of_ascii a)) eqn:E1; [|reflexivity].
    cbn [skipn existsb]. now rewrite (ws1_not_visible _ E1).
  - destruct (is_ws1 (nat_of_ascii a)) eqn:E1.
    { cbn [skipn existsb]. now rewrite (ws1_not_visible _ E1). }
    destruct (is_ws2 (nat_of_ascii b) (nat_of_ascii a)) eqn:E2; [|reflexivity].
    destruct (ws2_not_visible _ _ E2) as [Hb Ha].
    cbn [skipn existsb]. now rewrite Ha, Hb.
  - destruct (is_ws1 (nat_of_ascii a)) eqn:E1.
    { cbn [skipn existsb]. now rewrite (ws1_not_visible _ E1). }
    destruct (is_ws2 (nat_of_ascii b) (nat_of_ascii a)) eqn:E2.
    { destruct (ws2_not_visible _ _ E2) as [Hb Ha].
      cbn [skipn existsb]. now rewrite Ha, Hb. }
    destruct (is_ws3 (nat_of_ascii c) (nat_of_ascii b) (nat_of_ascii a)) eqn:E3;
      [|reflexivity].
    destruct (ws3_not_visible _ _ _ E3) as (Hc & Hb & Ha).
    cbn [skipn existsb]. now rewrite Ha, Hb, Hc.
Qed.

Lemma drop_ws_visible width fuel :
  (forall l, existsb visible (skipn (width (map nat_of_ascii (firstn 3 l))) l)
             = existsb visible l) ->
  forall l, existsb visible (drop_ws width fuel l) = existsb visible l.
Proof.
  intros Hw. induction fuel as [|fuel IH]; intros l; [reflexivity|].
  cbn [drop_ws]. specialize (Hw l).
  destruct (width (map nat_of_ascii (firstn 3 l))) as [|k]; [reflexivity|].
  now rewrite IH, Hw.
Qed.

Lemma existsb_visible_rev l : existsb visible (rev l) = existsb visible l.
Proof.
  destruct (existsb visible l) eqn:E.
  - apply existsb_exists in E. destruct E as (a & Hin & Ha).
    apply existsb_exists. exists a. split; [now apply in_rev in Hin | exact Ha].
  - apply not_true_is_false. intros H. apply existsb_exists in H.
    destruct H as (a & Hin & Ha). apply in_rev in Hin.
    assert (existsb visible l = true) by (apply existsb_exists; eauto). congruence.
Qed.

Lemma strip_visible s : has_visible s = true -> strip s <> ""%string.
Proof.
  intros Hv Hs. rewrite has_visible_existsb in Hv. unfold strip in Hs.
  set (l := list_ascii_of_string s) in *.
  set (l1 := drop_ws ws_width (List.length l) l) in *.
  set (l2 := drop_ws ws_width_rev (List.length l1) (rev l1)) in *.
  assert (H2 : existsb visible (rev l2) = true).
  { rewrite existsb_visible_rev. unfold l2.
    rewrite (drop_ws_visible _ _ ws_width_rev_skip), existsb_visible_rev. unfold l1.
    now rewrite (drop_ws_visible _ _ ws_width_skip). }
  apply (f_equal list_ascii_of_string) in Hs.
  rewrite list_ascii_of_string_of_list_ascii in Hs. cbn in Hs. rewrite Hs in H2.
  discriminate.
Qed.

Section BlankFiles.
Variable rt : Runtime.
Variable fuel : nat.
Variable client : Text2SpeechClient.
Variables input_path output_path : string.
Hypothesis enough : (300 < fuel)%nat.

Lemma blank_or_visible w name raw l :
  assoc (path_join input_path name) (files w) = Some raw ->
  In name l ->
  (ascii_blank raw = true -> ~ In name (filter (nonempty_in input_path w) l))
  /\ (has_visible raw = true -> In name (filter (nonempty_in input_path w) l)).
Proof.
  intros Hraw Hin. split; intros H.
  - intros Hf. apply filter_In in Hf. destruct Hf as [_ Hne].
    unfold nonempty_in in Hne. rewrite Hraw, (strip_blank _ H) in Hne. discriminate.
  - apply filter_In. split; [exact Hin|]. unfold nonempty_in. rewrite Hraw.
    destruct (String.eqb_spec (strip raw) ""); [|reflexivity].
    now destruct (strip_visible _ H).
Qed.

End BlankFiles.


(** ** The tokenizer commands *)

Lemma reply_to_same_view req w v : same_view w v -> reply_to req w = reply_to req v.
Proof. intros (Hn & Hnet & Hw). unfold reply_to. now rewrite Hn, Hnet, Hw. Qed.

Lemma same_view_quiet e w : is_request e = false -> same_view (log e w) w.
Proof.
  intros He. repeat split. cbn [trace log]. rewrite on_wire_app.
  unfold on_wire at 2. cbn [filter]. rewrite He. apply app_nil_r.
Qed.

Lemma same_view_trans w1 w2 w3 : same_view w1 w2 -> same_view w2 w3 -> same_view w1 w3.
Proof. intros (a & b & c) (d & e & f). repeat split; congruence. Qed.

Lemma cmd_decode_run bi tokens_file output w text data :
  assoc tokens_file (files w) = Some text ->
  json_loads bi text = inr data ->
  cmd_decode bi tokens_file output w
  = (decode_tokens (new_client API_BASE) (tokens_in data) output ;;;
     print ("✓ Saved: " ++ output)%string)
      (log (EvOpen tokens_file) (printed ("Decoding: " ++ tokens_file)%string w)).
Proof.
  intros Hf Hj. unfold cmd_decode. rewrite bind_print.
  unfold bind at 1. unfold open_read at 1.
  change (files (printed ("Decoding: " ++ tokens_file)%string w)) with (files w).
  rewrite Hf. unfold bind at 1. rewrite Hj. reflexivity.
Qed.

(** What [decode_tokens] followed by a print comes to. *)
Lemma decode_then_print self tokens output text w :
  let req := POST_json (base_url self ++ "/tokenizer/decode")%string
               (JObj [("tokens", tokens)]) in
  let r := (decode_tokens self tokens output ;;; print text) w in
  on_wire (trace (snd r)) = on_wire (trace w) ++ [EvRequest req (reply_to req w)]
  /\ match delivered (reply_to req w) with
     | None => (exists e, fst r = Raise e) /\ files (snd r) = files w
     | Some resp =>
         match write_error w output with
         | Some msg => fst r = Raise (mkExn OSError msg) /\ files (snd r) = files w
         | None =>
             fst r = Val tt
             /\ assoc output (files (snd r)) = Some (content resp)
             /\ forall p, p <> output -> assoc p (files (snd r)) = assoc p (files w)
         end
     end.
Proof.
  intros req r. subst r. unfold decode_tokens. fold req.
  pose proof (fetch_and_write req output w) as [Hw Hcases]. cbv zeta in Hw, Hcases.
  set (m := (resp <- http req ;; raise_for_status resp ;;;
             write_file output (content resp))) in *.
  unfold bind. destruct (m w) as [[u|e|c|] w1] eqn:Hm; cbn [fst snd] in *.
  - destruct u. unfold print, emit. cbn [fst snd trace log files].
    rewrite on_wire_app. simpl. rewrite app_nil_r. split; [exact Hw|].
    destruct (delivered (reply_to req w)); [|exact Hcases].
    destruct (write_error w output); exact Hcases.
  - split; [exact Hw | exact Hcases].
  - split; [exact Hw | exact Hcases].
  - split; [exact Hw | exact Hcases].
Qed.

(** X16. [cmd_decode] reads and parses the tokens file before it talks to
    the service: a missing file or a text that is no JSON makes it raise
    with no request sent and no file written. Otherwise it sends one decode
    request whose tokens are [data["tokens"]] when the file holds a dict
    with that key and the parsed value itself in every other case, and the
    output holds the response bytes exactly when the response passed
    [raise_for_status] and the path was writable. *)
Theorem decode_reads_before_it_sends :
  forall bi tokens_file output w,
    let r := cmd_decode bi tokens_file output w in
    match assoc tokens_file (files w) with
    | None =>
        (exists e, fst r = Raise e)
        /\ on_wire (trace (snd r)) = on_wire (trace w) /\ files (snd r) = files w
    | Some text =>
        match json_loads bi text with
        | inl msg =>
            (exists e, fst r = Raise e)
            /\ on_wire (trace (snd r)) = on_wire (trace w) /\ files (snd r) = files w
        | inr data =>
            let tokens :=
              match data with
              | JObj kvs => match assoc "tokens" kvs with Some t => t | None => data end
              | _ => data
              end in
            let rep := reply_to (decode_request tokens) w in
            on_wire (trace (snd r))
            = on_wire (trace w) ++ [EvRequest (decode_request tokens) rep]
            /\ match delivered rep with
               | None => (exists e, fst r = Raise e) /\ files (snd r) = files w
               | Some resp =>
                   match write_error w output with
                   | Some msg =>
                       fst r = Raise (mkExn OSError msg) /\ files (snd r) = files w
                   | None =>
                       fst r = Val tt
                       /\ assoc output (files (snd r)) = Some (content resp)
                       /\ forall p, p <> output ->
                                    assoc p (files (snd r)) = assoc p (files w)
                   end
               end
        end
    end.
Proof.
  intros bi tokens_file output w r.
  set (w1 := printed ("Decoding: " ++ tokens_file)%string w).
  assert (Hq1 : on_wire (trace w1) = on_wire (trace w)).
  { unfold w1, printed. cbn [trace log]. rewrite on_wire_app. apply app_nil_r. }
  destruct (assoc tokens_file (files w)) as [text|] eqn:Hf.
  - destruct (json_loads bi text) as [msg|data] eqn:Hj.
    + assert (Hr : r = (Raise (mkExn JSONDecodeError msg), log (EvOpen tokens_file) w1)).
      { subst r. unfold cmd_decode. rewrite bind_print. fold w1.
        unfold bind at 1. unfold open_read at 1.
        change (files w1) with (files w). rewrite Hf. unfold bind at 1. now rewrite Hj. }
      rewrite Hr. cbn [fst snd]. split; [eexists; reflexivity|]. split; [|reflexivity].
      cbn [trace log]. rewrite on_wire_app. simpl. now rewrite app_nil_r.
    + cbv zeta. subst r. rewrite (cmd_decode_run bi _ _ _ _ _ Hf Hj). fold w1.
      change (match data with
              | JObj kvs => match assoc "tokens" kvs with Some t => t | None => data end
              | _ => data
              end) with (tokens_in data).
      set (w2 := log (EvOpen tokens_file) w1).
      assert (Hv : same_view w2 w).
      { eapply same_view_trans; [apply same_view_quiet; reflexivity|].
        apply same_view_quiet. reflexivity. }
      pose proof (decode_then_print (new_client API_BASE) (tokens_in data) output
                    ("✓ Saved: " ++ output)%string w2) as H.
      cbv zeta in H.
      change (POST_json (base_url (new_client API_BASE) ++ "/tokenizer/decode")%string
                (JObj [("tokens", tokens_in data)]))
        with (decode_request (tokens_in data)) in H.
      rewrite (reply_to_same_view _ _ _ Hv) in H.
      destruct Hv as (_ & _ & Hv). rewrite Hv in H.
      change (files w2) with (files w) in H.
      change (write_error w2 output) with (write_error w output) in H.
      exact H.
  - assert (Hr : exists e, r = (Raise e, w1)).
    { subst r. unfold cmd_decode. rewrite bind_print. fold w1.
      unfold bind at 1. unfold open_read at 1.
      change (files w1) with (files w). rewrite Hf.
      destruct (is_dir w1 tokens_file); eexists; reflexivity. }
    destruct Hr as [e ->].
    cbn [fst snd]. split; [eexists; reflexivity|]. split; [exact Hq1 | reflexivity].
Qed.

Lemma on_wire_log e w : on_wire (trace (log e w)) = on_wire (trace w) ++ on_wire [e].
Proof. cbn [trace log]. apply on_wire_app. Qed.

(** What [cmd_encode] does with the answer of the service. *)
Lemma cmd_encode_run rt audio output w data :
  assoc audio (files w) = Some data ->
  cmd_encode rt audio output w
  = (resp <- http (encode_request data) ;;
     raise_for_status resp ;;;
     (result <- json_of resp ;;
      count <- subscript rt result "count" ;;
      print ("✓ Tokens: " ++ py_str rt count)%string ;;;
      match if_set output with
      | Some o => write_file o (json_dumps rt result) ;;; print ("Saved: " ++ o)%string
      | None => print (json_dumps rt result)
      end))
      (log (EvOpen audio) (printed ("Encoding: " ++ audio)%string w)).
Proof.
  intros Hf. unfold cmd_encode, encode_audio. rewrite bind_print.
  unfold bind, open_read.
  change (files (printed ("Encoding: " ++ audio)%string w)) with (files w). rewrite Hf.
  change (POST_multipart (base_url (new_client API_BASE) ++ "/tokenizer/encode")%string
            [("audio", data)] []) with (encode_request data).
  destruct (http (encode_request data) _) as [[resp|e|c|] w3]; try reflexivity.
  destruct (raise_for_status resp w3) as [[[]|e|c|] w4]; reflexivity.
Qed.

(** X17. [cmd_encode] opens the audio before it talks to the service (a
    missing file raises with no request sent), sends one upload to
    [/tokenizer/encode], and reads [result["count"]] before it saves
    anything: a reply that fails, is no JSON or has no [count] makes it
    raise with no file written, also when an output path was given. With a
    [count], an output path that is set and writable receives
    [json.dumps(result, indent=2)] and nothing else changes; with no output
    path (or an empty one) the dump is printed and no file changes. *)
Theorem encode_reads_count_before_saving :
  forall rt audio output w,
    let r := cmd_encode rt audio output w in
    match assoc audio (files w) with
    | None =>
        (exists e, fst r = Raise e)
        /\ on_wire (trace (snd r)) = on_wire (trace w) /\ files (snd r) = files w
    | Some data =>
        let rep := reply_to (encode_request data) w in
        on_wire (trace (snd r)) = on_wire (trace w) ++ [EvRequest (encode_request data) rep]
        /\ match delivered rep with
           | None => (exists e, fst r = Raise e) /\ files (snd r) = files w
           | Some resp =>
               match resp_json resp with
               | inl msg =>
                   fst r = Raise (mkExn JSONDecodeError msg) /\ files (snd r) = files w
               | inr result =>
                   match count_of result with
                   | None => (exists e, fst r = Raise e) /\ files (snd r) = files w
                   | Some c =>
                       match if_set output with
                       | None =>
                           fst r = Val tt /\ files (snd r) = files w
                           /\ exists tr,
                                trace (snd r)
                                = tr ++ [EvPrint Stdout (json_dumps rt result ++ nl)%string]
                       | Some o =>
                           match write_error w o with
                           | Some msg =>
                               fst r = Raise (mkExn OSError msg)
                               /\ files (snd r) = files w
                           | None =>
                               fst r = Val tt
                               /\ assoc o (files (snd r)) = Some (json_dumps rt result)
                               /\ forall p, p <> o ->
                                            assoc p (files (snd r)) = assoc p (files w)
                           end
                       end
                   end
               end
           end
    end.
Proof.
  intros rt audio output w r.
  set (w1 := printed ("Encoding: " ++ audio)%string w).
  assert (Hq1 : on_wire (trace w1) = on_wire (trace w)).
  { unfold w1, printed. cbn [trace log]. rewrite on_wire_app. apply app_nil_r. }
  destruct (assoc audio (files w)) as [data|] eqn:Hf.
  2:{ assert (Hr : exists e, r = (Raise e, w1)).
      { subst r. unfold cmd_encode, encode_audio. rewrite bind_print. fold w1.
        unfold bind, open_read. change (files w1) with (files w). rewrite Hf.
        destruct (is_dir w1 audio); eexists; reflexivity. }
      destruct Hr as [e ->]. cbn [fst snd].
      split; [eexists; reflexivity|]. split; [exact Hq1 | reflexivity]. }
  cbv zeta. set (req := encode_request data).
  set (w2 := log (EvOpen audio) w1).
  assert (Hv : same_view w2 w).
  { eapply same_view_trans; [apply same_view_quiet; reflexivity|].
    apply same_view_quiet. reflexivity. }
  pose proof (cmd_encode_run rt audio output w data Hf) as Hrun.
  fold r w1 w2 req in Hrun.
  rewrite <- (reply_to_same_view req _ _ Hv).
  destruct Hv as (_ & _ & Hv). rewrite <- Hv.
  set (w3 := after_request req w2).
  assert (Hw3 : on_wire (trace w3)
                = on_wire (trace w2) ++ [EvRequest req (reply_to req w2)])
    by apply on_wire_after_request.
  destruct (delivered (reply_to req w2)) as [resp|] eqn:Hd.
  2:{ destruct (checked_request_failed req
                  (fun resp =>
                     result <- json_of resp ;;
                     count <- subscript rt result "count" ;;
                     print ("✓ Tokens: " ++ py_str rt count)%string ;;;
                     match if_set output with
                     | Some o =>
                         write_file o (json_dumps rt result) ;;;
                         print ("Saved: " ++ o)%string
                     | None => print (json_dumps rt result)
                     end) w2 Hd) as [e He].
      rewrite He in Hrun. rewrite Hrun. cbn [fst snd]. fold w3.
      split; [exact Hw3|]. split; [eexists; reflexivity | reflexivity]. }
  rewrite (checked_request_delivered req _ w2 resp Hd) in Hrun. fold w3 in Hrun.
  unfold bind at 1 in Hrun. unfold json_of at 1 in Hrun.
  destruct (resp_json resp) as [msg|result].
  { rewrite Hrun. cbn [fst snd]. split; [exact Hw3|]. split; reflexivity. }
  cbn [ret] in Hrun. unfold bind at 1 in Hrun.
  destruct (count_of result) as [c|] eqn:Hc.
  2:{ assert (Hs : exists e, subscript rt result "count" w3 = (Raise e, w3)).
      { unfold subscript. destruct result; try (eexists; reflexivity).
        cbn [count_of] in Hc. rewrite Hc. eexists; reflexivity. }
      destruct Hs as [e Hs]. rewrite Hs in Hrun. rewrite Hrun. cbn [fst snd].
      split; [exact Hw3|]. split; [eexists; reflexivity | reflexivity]. }
  assert (Hs : subscript rt result "count" w3 = (Val c, w3)).
  { unfold subscript. destruct result; try discriminate.
    cbn [count_of] in Hc. now rewrite Hc. }
  rewrite Hs, bind_print in Hrun.
  set (w4 := printed ("✓ Tokens: " ++ py_str rt c)%string w3) in *.
  assert (Hw4 : on_wire (trace w4) = on_wire (trace w3)).
  { unfold w4, printed. cbn [trace log]. rewrite on_wire_app. apply app_nil_r. }
  destruct (if_set output) as [o|].
  - unfold bind, write_file in Hrun.
    change (write_error w4 o) with (write_error w o) in Hrun.
    destruct (write_error w o) as [msg|].
    + rewrite Hrun. cbn [fst snd]. rewrite Hw4. split; [exact Hw3|]. split; reflexivity.
    + rewrite Hrun. cbn [fst snd print emit]. split.
      * clearbody w4. rewrite !on_wire_log.
        change (trace (store o (json_dumps rt result) w4)) with (trace w4).
        rewrite Hw4, Hw3. simpl. now rewrite !app_nil_r.
      * split; [reflexivity|]. split.
        -- cbn [files log]. apply assoc_store_same.
        -- intros p Hp. cbn [files log]. now rewrite assoc_store_other.
  - rewrite Hrun. unfold print, emit. cbn [fst snd]. split.
    + clearbody w4. rewrite on_wire_log, Hw4, Hw3. simpl. now rewrite app_nil_r.
    + split; [reflexivity|]. split; [reflexivity|]. eexists. reflexivity.
Qed.

Lemma if_set_nonempty o : o <> ""%string -> if_set (Some o) = Some o.
Proof. intros H. unfold if_set. destruct o; [contradiction | reflexivity]. Qed.

(** X18. What [cmd_encode] saves is what [cmd_decode] reads: when the
    service answers an upload with a dict that has a [count], the file
    written by [cmd_encode] holds the dump of that dict, and, [json.load]
    reading the dump back, [cmd_decode] on that file sends the [tokens] of
    the answer (the whole dict when it has none) to [/tokenizer/decode]. *)
Theorem encode_output_feeds_decode :
  forall rt bi audio tokens_file output w data resp kvs c,
    assoc audio (files w) = Some data ->
    delivered (reply_to (encode_request data) w) = Some resp ->
    resp_json resp = inr (JObj kvs) ->
    assoc "count" kvs = Some c ->
    tokens_file <> ""%string ->
    write_error w tokens_file = None ->
    json_loads bi (json_dumps rt (JObj kvs)) = inr (JObj kvs) ->
    exists w1,
      cmd_encode rt audio (Some tokens_file) w = (Val tt, w1)
      /\ assoc tokens_file (files w1) = Some (json_dumps rt (JObj kvs))
      /\ exists rep,
           on_wire (trace (snd (cmd_decode bi tokens_file output w1)))
           = on_wire (trace w1)
             ++ [EvRequest
                   (decode_request
                      (match assoc "tokens" kvs with Some t => t | None => JObj kvs end))
                   rep].
Proof.
  intros rt bi audio tokens_file output w data resp kvs c Hf Hd Hj Hc Hne Hwr Hload.
  pose proof (cmd_encode_run rt audio (Some tokens_file) w data Hf) as Hrun.
  set (w2 := log (EvOpen audio) (printed ("Encoding: " ++ audio)%string w)) in *.
  assert (Hv : same_view w2 w).
  { eapply same_view_trans; [apply same_view_quiet; reflexivity|].
    apply same_view_quiet. reflexivity. }
  rewrite <- (reply_to_same_view _ _ _ Hv) in Hd.
  rewrite (checked_request_delivered _ _ w2 resp Hd) in Hrun.
  unfold bind at 1 in Hrun. unfold json_of at 1 in Hrun. rewrite Hj in Hrun.
  cbn [ret] in Hrun. unfold bind at 1 in Hrun. unfold subscript at 1 in Hrun.
  rewrite Hc in Hrun. cbn [ret] in Hrun. rewrite bind_print in Hrun.
  rewrite (if_set_nonempty _ Hne) in Hrun. unfold bind, write_file in Hrun.
  match type of Hrun with
  | context [write_error ?v tokens_file] =>
      change (write_error v tokens_file) with (write_error w tokens_file) in Hrun
  end.
  rewrite Hwr in Hrun.
  cbn [print emit] in Hrun.
  eexists. split; [exact Hrun|]. split.
  { cbn [files log]. apply assoc_store_same. }
  match goal with |- context [cmd_decode _ _ _ ?v] => set (w1 := v) end.
  assert (Hsaved : assoc tokens_file (files w1) = Some (json_dumps rt (JObj kvs))).
  { unfold w1. cbn [files log]. apply assoc_store_same. }
  rewrite (cmd_decode_run bi tokens_file output w1 _ _ Hsaved Hload).
  set (w3 := log (EvOpen tokens_file) (printed ("Decoding: " ++ tokens_file)%string w1)).
  assert (Hv3 : same_view w3 w1).
  { eapply same_view_trans; [apply same_view_quiet; reflexivity|].
    apply same_view_quiet. reflexivity. }
  pose proof (decode_then_print (new_client API_BASE) (tokens_in (JObj kvs)) output
                ("✓ Saved: " ++ output)%string w3) as [H _].
  clearbody w1 w3. cbv zeta in H. rewrite H.
  destruct Hv3 as (_ & _ & ->). eexists. reflexivity.
Qed.

Lemma encode_output_feeds_decode_witness :
  let w := world_of tokenizer [("ref.wav", "RIFF")] in
  exists w1,
    cmd_encode sample_runtime "ref.wav" (Some "tokens.json") w = (Val tt, w1)
    /\ assoc "tokens.json" (files w1) = Some "<json>"%string
    /\ exists rep,
         on_wire (trace (snd (cmd_decode sample_builtins "tokens.json" "out.wav" w1)))
         = on_wire (trace w1)
           ++ [EvRequest (decode_request (JArr [JNum 1; JNum 2])) rep].
Proof.
  intros w.
  assert (Hne : "tokens.json"%string <> ""%string) by discriminate.
  exact (encode_output_feeds_decode sample_runtime sample_builtins "ref.wav"
           "tokens.json" "out.wav" w "RIFF"
           {| status_code := 200; reason := "OK"; resp_url := "";
              resp_json := inr sample_tokens; content := "" |}
           [("tokens", JArr [JNum 1; JNum 2]); ("count", JNum 2)] (JNum 2)
           eq_refl eq_refl eq_refl eq_refl Hne eq_refl eq_refl).
Defined.

(** ** The status command *)

Lemma tame_reraise {A} ok e : tame ok (@reraise A e).
Proof. intros w. split; [exact I | apply extends_refl]. Qed.

Lemma tame_py_len bi ok v : tame ok (py_len bi v).
Proof. destruct v; first [apply tame_ret | apply tame_reraise]. Qed.

Lemma tame_py_head bi ok n v : tame ok (py_head bi n v).
Proof. destruct v; first [apply tame_ret | apply tame_reraise]. Qed.

Lemma tame_py_iter bi ok v : tame ok (py_iter bi v).
Proof. unfold py_iter. destruct (items_of v); first [apply tame_ret | apply tame_reraise]. Qed.

Lemma tame_py_join bi ok sep v : tame ok (py_join bi sep v).
Proof.
  unfold py_join. destruct (items_of v) as [xs|]; [|apply tame_reraise].
  destruct (all_str xs); first [apply tame_ret | apply tame_reraise].
Qed.

Lemma tame_for_each {A} ok (xs : list A) (body : A -> M unit) :
  (forall x, tame ok (body x)) -> tame ok (for_each xs body).
Proof.
  intros Hb. induction xs as [|x xs IH]; cbn [for_each]; [apply tame_ret|].
  apply tame_bind; auto.
Qed.

Lemma tame_checked_json ok req :
  tame ok (resp <- http req ;; raise_for_status resp ;;; json_of resp).
Proof. repeat tame_step. Qed.

Lemma tame_health_check ok self : tame ok (health_check self).
Proof. unfold health_check. repeat tame_step. Qed.

Lemma tame_cmd_status_try rt bi ok client : tame ok (cmd_status_try rt bi client).
Proof.
  unfold cmd_status_try.
  apply tame_bind; [apply tame_checked_json | intros speakers].
  apply tame_bind; [apply tame_py_len | intros n].
  apply tame_bind; [apply tame_print | intros _].
  apply tame_bind; [apply tame_py_head | intros first].
  apply tame_bind; [apply tame_py_iter | intros shown].
  apply tame_bind.
  { apply tame_for_each. intros s.
    apply tame_bind; [apply tame_subscript | intros name].
    apply tame_bind; [apply tame_subscript | intros description].
    apply tame_bind; [apply tame_py_head | intros short]. apply tame_print. }
  intros _. apply tame_bind; [apply tame_py_len | intros n'].
  apply tame_bind.
  { destruct (5 <? n')%nat; [apply tame_print | apply tame_ret]. }
  intros _. apply tame_bind; [apply tame_checked_json | intros models].
  apply tame_bind; [apply tame_print | intros _].
  apply tame_bind; [apply tame_py_iter | intros listed].
  apply tame_for_each. intros m.
  apply tame_bind; [apply tame_subscript | intros loaded].
  apply tame_bind; [apply tame_subscript | intros name]. apply tame_print.
Qed.

Lemma tame_cmd_status rt bi ok : tame ok (cmd_status rt bi).
Proof.
  unfold cmd_status.
  apply tame_bind; [apply tame_health_check | intros health].
  do 2 (apply tame_bind; [apply tame_print | intros _]).
  do 4 (apply tame_bind; [apply tame_dict_get | intros ?];
        apply tame_bind; [apply tame_print | intros _]).
  apply tame_bind; [apply tame_dict_get | intros status'].
  destruct (is_str "ok" status'); [|apply tame_ret].
  apply tame_try; [apply tame_cmd_status_try | intros e; apply tame_print].
Qed.

Lemma health_check_run self w :
  health_check self w
  = (Val (health_of (reply_to (GET (base_url self ++ "/health")%string) w)),
     after_request (GET (base_url self ++ "/health")%string) w).
Proof.
  unfold health_check, try_except, bind, health_of. rewrite http_run.
  destruct (answer (reply_to _ w)) as [msg|resp]; [reflexivity|].
  unfold json_of. destruct (resp_json resp); reflexivity.
Qed.

(** X19. [cmd_status] is read-only and ends by itself: it never exits and
    changes no file. When [/health] yields a dict (which includes every
    failure of the exchange, turned into a dict by [health_check]) it
    returns normally, whatever the metadata requests do; unless that dict
    says [status == "ok"] the health request is the only one it sends. A
    health body that is JSON but no dict makes it raise [AttributeError]
    at the first [health.get]. *)
Theorem status_is_read_only :
  forall rt bi w,
    let req := GET (API_BASE ++ "/health")%string in
    let health := health_of (reply_to req w) in
    let r := cmd_status rt bi w in
    settled (fst r)
    /\ (forall p, assoc p (files (snd r)) = assoc p (files w))
    /\ match health with
       | JObj kvs =>
           fst r = Val tt
           /\ (assoc "status" kvs <> Some (JStr "ok") ->
               on_wire (trace (snd r))
               = on_wire (trace w) ++ [EvRequest req (reply_to req w)])
       | _ =>
           fst r = Raise (mkExn AttributeError (attribute_msg rt health "get"))
           /\ on_wire (trace (snd r))
              = on_wire (trace w) ++ [EvRequest req (reply_to req w)]
       end.
Proof.
  intros rt bi w req health r.
  destruct (tame_cmd_status rt bi (fun _ => false) w) as [Hs He]. fold r in Hs, He.
  split; [exact Hs|]. split; [intros p; now apply (ext_files _ _ _ He)|].
  set (w1 := after_request req w).
  assert (Hw1 : on_wire (trace w1) = on_wire (trace w) ++ [EvRequest req (reply_to req w)])
    by apply on_wire_after_request.
  assert (Hrun : r = (_ <- print "=== Text2Speech Service Status ===" ;;
                      _ <- print ("API: " ++ API_BASE)%string ;;
                      status <- dict_get rt health "status" (JStr "unknown") ;;
                      _ <- print ("Status: " ++ py_str rt status)%string ;;
                      version <- dict_get rt health "version" (JStr "unknown") ;;
                      _ <- print ("Version: " ++ py_str rt version)%string ;;
                      gpu <- dict_get rt health "gpu_available" (JBool false) ;;
                      _ <- print ("GPU: " ++ py_str rt gpu)%string ;;
                      mock <- dict_get rt health "mock_mode" (JBool false) ;;
                      _ <- print ("Mock Mode: " ++ py_str rt mock)%string ;;
                      status' <- dict_get rt health "status" JNull ;;
                      if is_str "ok" status' then
                        try_except (cmd_status_try rt bi (new_client API_BASE))
                          (fun e => print (nl ++ "Error fetching metadata: "
                                           ++ exn_msg e)%string)
                      else ret tt) w1).
  { subst r. unfold cmd_status. unfold bind at 1. rewrite health_check_run. reflexivity. }
  clearbody r w1. clear Hs He.
  destruct health as [| | | |kvs|] eqn:Hh;
    try (rewrite Hrun; split; [reflexivity|];
         rewrite !bind_print; unfold bind, dict_get, raise, printed; cbn [fst snd];
         rewrite !on_wire_log; simpl; rewrite !app_nil_r; exact Hw1).
  rewrite !bind_print in Hrun.
  do 5 (unfold bind at 1 in Hrun; unfold dict_get at 1 in Hrun; cbn [ret] in Hrun;
        rewrite ?bind_print in Hrun).
  match type of Hrun with _ = _ ?v => set (w5 := v) in Hrun end.
  assert (Hw5 : on_wire (trace w5) = on_wire (trace w1)).
  { unfold w5, printed. rewrite !on_wire_log. simpl. now rewrite !app_nil_r. }
  clearbody w5.
  destruct (is_str "ok" (match assoc "status" kvs with Some x => x | None => JNull end))
    eqn:Hok.
  - split.
    + rewrite Hrun. unfold try_except.
      destruct (tame_cmd_status_try rt bi (fun _ => false) (new_client API_BASE) w5)
        as [Hs5 _].
      destruct (cmd_status_try rt bi (new_client API_BASE) w5) as [[[]|e|c|] w6];
        cbn [fst settled] in *; try contradiction; reflexivity.
    + intros Hno. exfalso. apply Hno.
      destruct (assoc "status" kvs) as [[]|]; try discriminate.
      cbn [is_str] in Hok. apply String.eqb_eq in Hok. now subst.
  - rewrite Hrun. unfold ret. cbn [fst snd]. split; [reflexivity|]. intros _.
    now rewrite Hw5.
Qed.

(** ** The listing commands *)

Lemma offline_ret {A} (a : A) : offline (ret a).
Proof. intros w. reflexivity. Qed.

Lemma offline_raise {A} c msg : offline (@raise A c msg).
Proof. intros w. reflexivity. Qed.

Lemma offline_reraise {A} e : offline (@reraise A e).
Proof. intros w. reflexivity. Qed.

Lemma offline_print text : offline (print text).
Proof. intros w. unfold print, emit. cbn [snd]. rewrite on_wire_log. apply app_nil_r. Qed.

Lemma offline_bind {A B} (m : M A) (k : A -> M B) :
  offline m -> (forall a, offline (k a)) -> offline (bind m k).
Proof.
  intros Hm Hk w. unfold bind. specialize (Hm w).
  destruct (m w) as [[a|e|c|] w1]; cbn [snd] in *; auto.
  now rewrite Hk.
Qed.

Lemma offline_for_each {A} (xs : list A) (body : A -> M unit) :
  (forall x, offline (body x)) -> offline (for_each xs body).
Proof.
  intros Hb. induction xs as [|x xs IH]; cbn [for_each]; [apply offline_ret|].
  apply offline_bind; auto.
Qed.

Lemma offline_subscript rt v key : offline (subscript rt v key).
Proof.
  unfold subscript. destruct v; try apply offline_raise.
  destruct (assoc key kvs); [apply offline_ret | apply offline_raise].
Qed.

Lemma offline_py_iter bi v : offline (py_iter bi v).
Proof.
  unfold py_iter. destruct (items_of v); [apply offline_ret | apply offline_reraise].
Qed.

Lemma offline_py_join bi sep v : offline (py_join bi sep v).
Proof.
  unfold py_join. destruct (items_of v) as [xs|]; [|apply offline_reraise].
  destruct (all_str xs); [apply offline_ret | apply offline_reraise].
Qed.

Lemma offline_json_of resp : offline (json_of resp).
Proof.
  unfold json_of. destruct (resp_json resp); [apply offline_raise | apply offline_ret].
Qed.

(** A command that fetches one JSON document and then only prints. *)
Lemma fetch_then_offline {A} req (k : JVal -> M A) w :
  (forall v, offline (k v)) ->
  (forall v, tame (fun _ => false) (k v)) ->
  let r := (v <- (resp <- http req ;; raise_for_status resp ;;; json_of resp) ;; k v) w in
  settled (fst r)
  /\ (forall p, assoc p (files (snd r)) = assoc p (files w))
  /\ on_wire (trace (snd r)) = on_wire (trace w) ++ [EvRequest req (reply_to req w)]
  /\ (delivered (reply_to req w) = None ->
      (exists e, fst r = Raise e) /\ snd r = after_request req w).
Proof.
  intros Hoff Htame r.
  assert (Ht : tame (fun _ => false)
                 (v <- (resp <- http req ;; raise_for_status resp ;;; json_of resp) ;; k v)).
  { apply tame_bind; [apply tame_checked_json | exact Htame]. }
  destruct (Ht w) as [Hs He]. fold r in Hs, He.
  split; [exact Hs|]. split; [intros p; now apply (ext_files _ _ _ He)|].
  destruct (delivered (reply_to req w)) as [resp|] eqn:Hd.
  - split; [|discriminate]. subst r. unfold bind at 1.
    rewrite (checked_request_delivered req _ w resp Hd).
    pose proof (offline_json_of resp (after_request req w)) as Hj.
    destruct (json_of resp (after_request req w)) as [[v|e|c|] w1]; cbn [snd] in *;
      rewrite ?Hoff, Hj; apply on_wire_after_request.
  - destruct (checked_request_failed req json_of w Hd) as [e He'].
    assert (Hr : r = (Raise e, after_request req w)).
    { subst r. unfold bind at 1. now rewrite He'. }
    rewrite Hr. cbn [fst snd]. split; [apply on_wire_after_request|].
    intros _. split; [now exists e | reflexivity].
Qed.

(** X20. [cmd_speakers] and [cmd_languages] are read-only and send
    exactly one request, the GET of their metadata endpoint, whatever it
    answers: they never exit, change no file, and when the request fails
    (transport failure or HTTP error status) they raise before printing
    anything, the header included. *)
Theorem listings_send_one_request :
  forall rt bi w,
    (let req := GET (API_BASE ++ "/meta/speakers")%string in
     let r := cmd_speakers rt bi w in
     settled (fst r)
     /\ (forall p, assoc p (files (snd r)) = assoc p (files w))
     /\ on_wire (trace (snd r)) = on_wire (trace w) ++ [EvRequest req (reply_to req w)]
     /\ (delivered (reply_to req w) = None ->
         (exists e, fst r = Raise e) /\ snd r = after_request req w))
    /\ (let req := GET (API_BASE ++ "/meta/languages")%string in
        let r := cmd_languages rt bi w in
        settled (fst r)
        /\ (forall p, assoc p (files (snd r)) = assoc p (files w))
        /\ on_wire (trace (snd r)) = on_wire (trace w) ++ [EvRequest req (reply_to req w)]
        /\ (delivered (reply_to req w) = None ->
            (exists e, fst r = Raise e) /\ snd r = after_request req w)).
Proof.
  intros rt bi w. split.
  - apply (fetch_then_offline (GET (API_BASE ++ "/meta/speakers")%string)).
    + intros v. apply offline_bind; [apply offline_print | intros _].
      apply offline_bind; [apply offline_py_iter | intros listed].
      apply offline_for_each. intros s.
      apply offline_bind; [apply offline_subscript | intros name].
      apply offline_bind; [apply offline_print | intros _].
      apply offline_bind; [apply offline_subscript | intros description].
      apply offline_bind; [apply offline_print | intros _].
      apply offline_bind; [apply offline_subscript | intros languages].
      apply offline_bind; [apply offline_py_join | intros joined].
      apply offline_print.
    + intros v. apply tame_bind; [apply tame_print | intros _].
      apply tame_bind; [apply tame_py_iter | intros listed].
      apply tame_for_each. intros s.
      apply tame_bind; [apply tame_subscript | intros name].
      apply tame_bind; [apply tame_print | intros _].
      apply tame_bind; [apply tame_subscript | intros description].
      apply tame_bind; [apply tame_print | intros _].
      apply tame_bind; [apply tame_subscript | intros languages].
      apply tame_bind; [apply tame_py_join | intros joined].
      apply tame_print.
  - apply (fetch_then_offline (GET (API_BASE ++ "/meta/languages")%string)).
    + intros v. apply offline_bind; [apply offline_print | intros _].
      apply offline_bind; [apply offline_py_iter | intros listed].
      apply offline_for_each. intros lang.
      apply offline_bind; [apply offline_subscript | intros code].
      apply offline_bind; [apply offline_subscript | intros name].
      apply offline_print.
    + intros v. apply tame_bind; [apply tame_print | intros _].
      apply tame_bind; [apply tame_py_iter | intros listed].
      apply tame_for_each. intros lang.
      apply tame_bind; [apply tame_subscript | intros code].
      apply tame_bind; [apply tame_subscript | intros name].
      apply tame_print.
Qed.

Section Languages.
Variable rt : Runtime.


Lemma language_body_prints lang line w :
  language_line rt lang = Some line ->
  language_body rt lang w = (Val tt, printed line w).
Proof.
  unfold language_line, language_body. destruct lang; try discriminate.
  destruct (assoc "code" kvs) as [code|] eqn:Hc; [|discriminate].
  destruct (assoc "name" kvs) as [name|] eqn:Hn; [|discriminate].
  intros [= <-]. unfold bind, subscript. rewrite Hc, Hn. reflexivity.
Qed.

Lemma language_body_raises lang w :
  language_line rt lang = None -> exists e, language_body rt lang w = (Raise e, w).
Proof.
  unfold language_line, language_body, bind, subscript.
  destruct lang; try (intros _; eexists; reflexivity).
  destruct (assoc "code" kvs) as [code|]; [|intros _; eexists; reflexivity].
  destruct (assoc "name" kvs) as [name|]; [discriminate|].
  intros _. eexists; reflexivity.
Qed.

Lemma languages_loop pre tail lines w :
  map (language_line rt) pre = map Some lines ->
  match tail with
  | [] => for_each (pre ++ tail) (language_body rt) w = (Val tt, printed_all lines w)
  | bad :: _ =>
      language_line rt bad = None ->
      exists e,
        for_each (pre ++ tail) (language_body rt) w = (Raise e, printed_all lines w)
  end.
Proof.
  revert lines w. induction pre as [|lang pre IH]; intros lines w Hl.
  - destruct lines; [|discriminate]. cbn [app printed_all fold_left].
    destruct tail as [|bad rest]; [reflexivity|].
    intros Hbad. destruct (language_body_raises bad w Hbad) as [e He].
    exists e. cbn [for_each]. unfold bind. now rewrite He.
  - destruct lines as [|line lines]; [discriminate|].
    cbn [map] in Hl. injection Hl as Hline Hl.
    cbn [app for_each printed_all fold_left].
    specialize (IH lines (printed line w) Hl).
    destruct tail as [|bad rest].
    + unfold bind at 1. rewrite (language_body_prints _ _ _ Hline). exact IH.
    + intros Hbad. destruct (IH Hbad) as [e He]. exists e.
      unfold bind at 1. rewrite (language_body_prints _ _ _ Hline). exact He.
Qed.

(** X21. [cmd_languages] prints the header and then one line
    [  <code>: <name>] per entry, in the order of the answer. The first
    entry that is no dict or lacks [code] or [name] makes it raise, with
    the lines of the entries before it already printed and nothing
    after. *)
Theorem languages_are_listed_in_order :
  forall bi w resp pre tail lines,
    let req := GET (API_BASE ++ "/meta/languages")%string in
    let listed := printed_all lines
                    (printed "=== Supported Languages ===" (after_request req w)) in
    delivered (reply_to req w) = Some resp ->
    resp_json resp = inr (JArr (pre ++ tail)) ->
    map (language_line rt) pre = map Some lines ->
    match tail with
    | [] => cmd_languages rt bi w = (Val tt, listed)
    | bad :: _ =>
        language_line rt bad = None ->
        exists e, cmd_languages rt bi w = (Raise e, listed)
    end.
Proof.
  intros bi w resp pre tail lines req listed Hd Hj Hl.
  assert (Hrun : cmd_languages rt bi w
                 = for_each (pre ++ tail) (language_body rt)
                     (printed "=== Supported Languages ===" (after_request req w))).
  { unfold cmd_languages, get_languages. unfold bind at 1.
    change (GET (base_url (new_client API_BASE) ++ "/meta/languages")%string) with req.
    rewrite (checked_request_delivered req _ w resp Hd).
    unfold json_of. rewrite Hj. cbn [ret]. rewrite bind_print. reflexivity. }
  rewrite Hrun. apply languages_loop. exact Hl.
Qed.
End Languages.

Lemma languages_are_listed_in_order_witness :
  exists e,
    cmd_languages sample_runtime sample_builtins (world_of catalogue [])
    = (Raise e,
       printed "  en: English"
         (printed "=== Supported Languages ==="
            (after_request (GET (API_BASE ++ "/meta/languages")%string)
               (world_of catalogue [])))).
Proof.
  exact (languages_are_listed_in_order sample_runtime sample_builtins
           (world_of catalogue [])
           {| status_code := 200; reason := "OK"; resp_url := "";
              resp_json := inr sample_languages; content := "" |}
           [JObj [("code", JStr "en"); ("name", JStr "English")]]
           [JObj [("code", JStr "zh")];
            JObj [("code", JStr "fr"); ("name", JStr "French")]]
           ["  en: English"%string] eq_refl eq_refl eq_refl eq_refl).
Defined.

(** ** What the batch commands do first *)

(** X22. Both batch commands create the output directory before anything
    else: when that fails they raise [OSError] with nothing done at all,
    and [cmd_batch_clone], finding neither a file nor a directory at the
    path of the reference audio once the output directory is there, has
    created that directory when it writes its complaint to [stderr] and
    exits with code 1, with no input file listed or read. *)
Theorem batch_creates_output_dir_first :
  forall rt fuel input_dir output_dir w,
    (forall msg, write_error w output_dir = Some msg ->
       (forall speaker language instruct,
           cmd_batch_speak rt fuel input_dir output_dir speaker language instruct w
           = (Raise (mkExn OSError msg), w))
       /\ (forall reference_audio ref_text language,
              cmd_batch_clone rt fuel input_dir output_dir reference_audio ref_text
                language w = (Raise (mkExn OSError msg), w)))
    /\ (forall reference_audio ref_text language,
           write_error w output_dir = None ->
           missing (add_dir output_dir w) reference_audio ->
           let w' := log (EvPrint Stderr
                            ("✗ Reference audio not found: " ++ reference_audio
                             ++ nl)%string)
                       (log (EvMkdir output_dir) (add_dir output_dir w)) in
           cmd_batch_clone rt fuel input_dir output_dir reference_audio ref_text
             language w = (Exit 1, w')
           /\ is_dir w' output_dir = true).
Proof.
  intros rt fuel input_dir output_dir w. split.
  - intros msg Hw. split; intros.
    + unfold cmd_batch_speak, bind, mkdir. now rewrite Hw.
    + unfold cmd_batch_clone, bind, mkdir. now rewrite Hw.
  - intros reference_audio ref_text language Hw [Hfile Hdir] w'. split.
    + unfold cmd_batch_clone. unfold bind at 1. unfold mkdir at 1. rewrite Hw.
      unfold bind at 1. unfold path_exists at 1. rewrite is_dir_log.
      cbn [files log]. rewrite Hfile, Hdir. reflexivity.
    + unfold w'. rewrite !is_dir_log. unfold is_dir. cbn [dirs add_dir existsb].
      now rewrite String.eqb_refl.
Qed.

Lemma batch_creates_output_dir_first_witness :
  let w := world_of (service completed) four_texts in
  missing (add_dir "out" w) "missing.wav"
  /\ cmd_batch_clone sample_runtime 301 "in" "out" "missing.wav" None "Auto" w
     = (Exit 1,
        log (EvPrint Stderr ("✗ Reference audio not found: missing.wav" ++ nl)%string)
          (log (EvMkdir "out") (add_dir "out" w))).
Proof.
  intros w.
  assert (Hm : missing (add_dir "out" w) "missing.wav") by (split; reflexivity).
  split; [exact Hm|].
  exact (proj1 (proj2 (batch_creates_output_dir_first sample_runtime 301 "in" "out" w)
                  "missing.wav" None "Auto" eq_refl Hm)).
Defined.
